(** * csstatstracker: the global hotkey engine

    A shallow embedding of the hotkey subsystem of csstatstracker:

    - the two platform key translators ([mapKeyToName] of
      [internal/hotkey/keymap_linux.go] and [keymap_windows.go]);
    - the combo engine ([Handler], [handleKeyDown], [handleKeyUp],
      [matchesCombo], [Start], [Stop], [UpdateBindings]) of package
      [hotkey];
    - the display helper [FormatHotkeys] of [internal/ui/settings.go].

    and, around it, of what feeds the engine and what it drives:

    - the key-capture dialog [CaptureHotkey] of [settings.go], the
      configuration loader [config.Load] and the default hotkeys of the
      two platforms;
    - the score keeping of package [tracker] ([IncrementCT],
      [checkAutoSave], [HandleDone], [SwapTeams], ...);
    - the statistics of package [database] ([GetStats],
      [GetDailyStats]) and their aggregation in the statistics tab;
    - the selection of the history tab ([selectSingle], [selectRange]).

    Go strings are [string]; [uint16], [rune] and nanosecond clock
    readings are [Z]; the Go map [map[string]bool] is a [gmap string bool];
    the buffered channel is the list of its undelivered elements. *)

From Stdlib Require Import ZArith Lia Ascii String List Bool.
From stdpp Require Import gmap strings list fin_maps.

Open Scope Z_scope.

(** ** Package [strings] (restricted to ASCII) *)

Module strings.

(** One byte of [strings.ToUpper]: ['a'..'z'] move to ['A'..'Z']. *)
Definition upperByte (c : ascii) : ascii :=
  let n := N_of_ascii c in
  if ((97 <=? n) && (n <=? 122))%N then ascii_of_N (n - 32) else c.

(** One byte of [strings.ToLower]: ['A'..'Z'] move to ['a'..'z']. *)
Definition lowerByte (c : ascii) : ascii :=
  let n := N_of_ascii c in
  if ((65 <=? n) && (n <=? 90))%N then ascii_of_N (n + 32) else c.

Fixpoint mapBytes (f : ascii -> ascii) (s : string) : string :=
  match s with
  | EmptyString => EmptyString
  | String c rest => String (f c) (mapBytes f rest)
  end.

(** [strings.ToUpper] and [strings.ToLower] as they act on strings of
    ASCII bytes, which is all the key translators below produce.  (On
    other input Go also maps non-ASCII letters; the engine is therefore
    parameterised by the lowering function, see [Section Engine].) *)
Definition ToUpper : string -> string := mapBytes upperByte.
Definition ToLower : string -> string := mapBytes lowerByte.

End strings.

(** ** Package [hook] (github.com/robotn/gohook): the event record *)

Module hook.

(** [Event.Kind]; only [KeyDown] and [KeyUp] are looked at by the engine. *)
Inductive EventKind := KeyDown | KeyHold | KeyUp | OtherKind.

(** The fields of [hook.Event] the engine reads: [Rawcode] is a
    [uint16], [Keychar] a [rune]. *)
Record Event := mkEvent {
  Kind : EventKind;
  Rawcode : Z;
  Keychar : Z
}.

End hook.

(** [string(rune(c))] for a rune in the ASCII range. *)
Definition string_of_rune (c : Z) : string :=
  String (ascii_of_N (Z.to_N c)) EmptyString.

(** [ev.Keychar >= 32 && ev.Keychar <= 126] *)
Definition printable (c : Z) : bool := (32 <=? c) && (c <=? 126).

(** ASCII letters, either case. *)
Definition is_letter (c : Z) : bool :=
  ((65 <=? c) && (c <=? 90)) || ((97 <=? c) && (c <=? 122)).

(** The upper-case form of an ASCII code. *)
Definition upper_code (c : Z) : Z :=
  if (97 <=? c) && (c <=? 122) then c - 32 else c.

(** ** keymap_linux.go *)

Module keymap_linux.

(** The [switch ev.Rawcode] of [mapKeyToName]: [Some name] where a
    [case] returns, [None] where control falls out of the switch. *)
Definition rawcodeSwitch (rawcode : Z) : option string :=
  match rawcode with
  (* Modifier keys (X11 keysyms) *)
  | 65505 => Some "LeftShift"
  | 65506 => Some "RightShift"
  | 65507 => Some "LeftControl"
  | 65508 => Some "RightControl"
  | 65513 => Some "LeftAlt"
  | 65514 => Some "RightAlt"
  | 65515 => Some "LeftSuper"
  | 65516 => Some "RightSuper"
  (* Function keys *)
  | 65470 => Some "F1"
  | 65471 => Some "F2"
  | 65472 => Some "F3"
  | 65473 => Some "F4"
  | 65474 => Some "F5"
  | 65475 => Some "F6"
  | 65476 => Some "F7"
  | 65477 => Some "F8"
  | 65478 => Some "F9"
  | 65479 => Some "F10"
  | 65480 => Some "F11"
  | 65481 => Some "F12"
  (* Special keys *)
  | 65293 => Some "Return"
  | 65288 => Some "Backspace"
  | 65289 => Some "Tab"
  | 32 => Some "Space"
  | 65307 => Some "Escape"
  (* Numpad keys *)
  | 65457 => Some "Numpad1"
  | 65458 => Some "Numpad2"
  | 65459 => Some "Numpad3"
  | 65460 => Some "Numpad4"
  | 65461 => Some "Numpad5"
  | 65462 => Some "Numpad6"
  | 65463 => Some "Numpad7"
  | 65464 => Some "Numpad8"
  | 65465 => Some "Numpad9"
  | 65456 => Some "Numpad0"
  | 65454 => Some "NumpadDecimal"
  | 65451 => Some "NumpadAdd"
  | 65453 => Some "NumpadSubtract"
  | 65450 => Some "NumpadMultiply"
  | 65455 => Some "NumpadDivide"
  | 65421 => Some "NumpadEnter"
  (* Common symbol keys *)
  | 45 => Some "-"
  | 61 => Some "="
  | 43 => Some "="
  | 95 => Some "-"
  (* Letter keys by rawcode *)
  | 97 => Some "a"
  | 98 => Some "b"
  | 99 => Some "c"
  | 100 => Some "d"
  | 101 => Some "e"
  | 102 => Some "f"
  | 103 => Some "g"
  | 104 => Some "h"
  | 105 => Some "i"
  | 106 => Some "j"
  | 107 => Some "k"
  | 108 => Some "l"
  | 109 => Some "m"
  | 110 => Some "n"
  | 111 => Some "o"
  | 112 => Some "p"
  | 113 => Some "q"
  | 114 => Some "r"
  | 115 => Some "s"
  | 116 => Some "t"
  | 117 => Some "u"
  | 118 => Some "v"
  | 119 => Some "w"
  | 120 => Some "x"
  | 121 => Some "y"
  | 122 => Some "z"
  | _ => None
  end.

(** [mapKeyToName] (Linux/X11 version). *)
Definition mapKeyToName (ev : hook.Event) : string :=
  match rawcodeSwitch (hook.Rawcode ev) with
  | Some name => name
  | None =>
      (* For printable characters, use the keychar directly *)
      if printable (hook.Keychar ev)
      then string_of_rune (hook.Keychar ev)
      else ""
  end.

End keymap_linux.

(** ** keymap_windows.go *)

Module keymap_windows.

(** [mapRawcode]: Windows virtual-key code to key name, [""] when the
    code has no case. *)
Definition mapRawcode (rawcode : Z) : string :=
  match rawcode with
  (* Modifier keys (Windows VK codes) *)
  | 160 => "LeftShift"
  | 161 => "RightShift"
  | 162 => "LeftControl"
  | 163 => "RightControl"
  | 164 => "LeftAlt"
  | 165 => "RightAlt"
  | 91 => "LeftSuper"
  | 92 => "RightSuper"
  (* Function keys *)
  | 112 => "F1"
  | 113 => "F2"
  | 114 => "F3"
  | 115 => "F4"
  | 116 => "F5"
  | 117 => "F6"
  | 118 => "F7"
  | 119 => "F8"
  | 120 => "F9"
  | 121 => "F10"
  | 122 => "F11"
  | 123 => "F12"
  (* Special keys *)
  | 13 => "Return"
  | 8 => "Backspace"
  | 9 => "Tab"
  | 32 => "Space"
  | 27 => "Escape"
  (* Numpad keys, reported as their character equivalents *)
  | 97 => "1"
  | 98 => "2"
  | 99 => "3"
  | 100 => "4"
  | 101 => "5"
  | 102 => "6"
  | 103 => "7"
  | 104 => "8"
  | 105 => "9"
  | 96 => "0"
  | 110 => "."
  | 107 => "+"
  | 109 => "-"
  | 106 => "*"
  | 111 => "/"
  (* Symbol keys *)
  | 189 => "-"
  | 187 => "="
  (* Letter keys (VK codes are uppercase ASCII) *)
  | 65 => "A"
  | 66 => "B"
  | 67 => "C"
  | 68 => "D"
  | 69 => "E"
  | 70 => "F"
  | 71 => "G"
  | 72 => "H"
  | 73 => "I"
  | 74 => "J"
  | 75 => "K"
  | 76 => "L"
  | 77 => "M"
  | 78 => "N"
  | 79 => "O"
  | 80 => "P"
  | 81 => "Q"
  | 82 => "R"
  | 83 => "S"
  | 84 => "T"
  | 85 => "U"
  | 86 => "V"
  | 87 => "W"
  | 88 => "X"
  | 89 => "Y"
  | 90 => "Z"
  (* Number keys (top row) *)
  | 48 => "0"
  | 49 => "1"
  | 50 => "2"
  | 51 => "3"
  | 52 => "4"
  | 53 => "5"
  | 54 => "6"
  | 55 => "7"
  | 56 => "8"
  | 57 => "9"
  | _ => ""
  end.

(** [mapKeyToName] (Windows version). *)
Definition mapKeyToName (ev : hook.Event) : string :=
  let name := mapRawcode (hook.Rawcode ev) in
  if negb (String.eqb name "") then name
  else if printable (hook.Keychar ev)
  then strings.ToUpper (string_of_rune (hook.Keychar ev))
  else "".

End keymap_windows.

(** ** Physical keys and their native codes

    The keys that have a [case] in both platform tables, with the X11
    keysym the Linux table lists for the key and the virtual-key code the
    Windows table lists for it (the [VK_*] names in its comments).  The
    numpad Enter key has no virtual-key code of its own: the Windows table
    notes that it shares [VK_RETURN]. *)

Inductive PhysicalKey :=
| KeyLeftShift | KeyRightShift | KeyLeftControl | KeyRightControl
| KeyLeftAlt | KeyRightAlt | KeyLeftSuper | KeyRightSuper
| KeyF1 | KeyF2 | KeyF3 | KeyF4 | KeyF5 | KeyF6
| KeyF7 | KeyF8 | KeyF9 | KeyF10 | KeyF11 | KeyF12
| KeyReturn | KeyBackspace | KeyTab | KeySpace | KeyEscape
| KeyNumpad0 | KeyNumpad1 | KeyNumpad2 | KeyNumpad3 | KeyNumpad4
| KeyNumpad5 | KeyNumpad6 | KeyNumpad7 | KeyNumpad8 | KeyNumpad9
| KeyNumpadDecimal | KeyNumpadAdd | KeyNumpadSubtract
| KeyNumpadMultiply | KeyNumpadDivide | KeyNumpadEnter
| KeyMinus | KeyEquals
| KeyA | KeyB | KeyC | KeyD | KeyE | KeyF | KeyG | KeyH | KeyI
| KeyJ | KeyK | KeyL | KeyM | KeyN | KeyO | KeyP | KeyQ | KeyR
| KeyS | KeyT | KeyU | KeyV | KeyW | KeyX | KeyY | KeyZ.

Inductive KeyClass :=
| Modifier | FunctionKey | SpecialKey | NumpadKey | SymbolKey | LetterKey.

Definition key_class (k : PhysicalKey) : KeyClass :=
  match k with
  | KeyLeftShift | KeyRightShift | KeyLeftControl | KeyRightControl
  | KeyLeftAlt | KeyRightAlt | KeyLeftSuper | KeyRightSuper => Modifier
  | KeyF1 | KeyF2 | KeyF3 | KeyF4 | KeyF5 | KeyF6
  | KeyF7 | KeyF8 | KeyF9 | KeyF10 | KeyF11 | KeyF12 => FunctionKey
  | KeyReturn | KeyBackspace | KeyTab | KeySpace | KeyEscape => SpecialKey
  | KeyNumpad0 | KeyNumpad1 | KeyNumpad2 | KeyNumpad3 | KeyNumpad4
  | KeyNumpad5 | KeyNumpad6 | KeyNumpad7 | KeyNumpad8 | KeyNumpad9
  | KeyNumpadDecimal | KeyNumpadAdd | KeyNumpadSubtract
  | KeyNumpadMultiply | KeyNumpadDivide | KeyNumpadEnter => NumpadKey
  | KeyMinus | KeyEquals => SymbolKey
  | _ => LetterKey
  end.

(** The keysym of the key (unshifted), as listed in [keymap_linux.go]. *)
Definition x11_keysym (k : PhysicalKey) : Z :=
  match k with
  | KeyLeftShift => 65505 | KeyRightShift => 65506
  | KeyLeftControl => 65507 | KeyRightControl => 65508
  | KeyLeftAlt => 65513 | KeyRightAlt => 65514
  | KeyLeftSuper => 65515 | KeyRightSuper => 65516
  | KeyF1 => 65470 | KeyF2 => 65471 | KeyF3 => 65472 | KeyF4 => 65473
  | KeyF5 => 65474 | KeyF6 => 65475 | KeyF7 => 65476 | KeyF8 => 65477
  | KeyF9 => 65478 | KeyF10 => 65479 | KeyF11 => 65480 | KeyF12 => 65481
  | KeyReturn => 65293 | KeyBackspace => 65288 | KeyTab => 65289
  | KeySpace => 32 | KeyEscape => 65307
  | KeyNumpad0 => 65456 | KeyNumpad1 => 65457 | KeyNumpad2 => 65458
  | KeyNumpad3 => 65459 | KeyNumpad4 => 65460 | KeyNumpad5 => 65461
  | KeyNumpad6 => 65462 | KeyNumpad7 => 65463 | KeyNumpad8 => 65464
  | KeyNumpad9 => 65465
  | KeyNumpadDecimal => 65454 | KeyNumpadAdd => 65451
  | KeyNumpadSubtract => 65453 | KeyNumpadMultiply => 65450
  | KeyNumpadDivide => 65455 | KeyNumpadEnter => 65421
  | KeyMinus => 45 | KeyEquals => 61
  | KeyA => 97 | KeyB => 98 | KeyC => 99 | KeyD => 100 | KeyE => 101
  | KeyF => 102 | KeyG => 103 | KeyH => 104 | KeyI => 105 | KeyJ => 106
  | KeyK => 107 | KeyL => 108 | KeyM => 109 | KeyN => 110 | KeyO => 111
  | KeyP => 112 | KeyQ => 113 | KeyR => 114 | KeyS => 115 | KeyT => 116
  | KeyU => 117 | KeyV => 118 | KeyW => 119 | KeyX => 120 | KeyY => 121
  | KeyZ => 122
  end.

(** The virtual-key code of the key, as listed in [keymap_windows.go]. *)
Definition windows_vk (k : PhysicalKey) : Z :=
  match k with
  | KeyLeftShift => 160 | KeyRightShift => 161
  | KeyLeftControl => 162 | KeyRightControl => 163
  | KeyLeftAlt => 164 | KeyRightAlt => 165
  | KeyLeftSuper => 91 | KeyRightSuper => 92
  | KeyF1 => 112 | KeyF2 => 113 | KeyF3 => 114 | KeyF4 => 115
  | KeyF5 => 116 | KeyF6 => 117 | KeyF7 => 118 | KeyF8 => 119
  | KeyF9 => 120 | KeyF10 => 121 | KeyF11 => 122 | KeyF12 => 123
  | KeyReturn => 13 | KeyBackspace => 8 | KeyTab => 9
  | KeySpace => 32 | KeyEscape => 27
  | KeyNumpad0 => 96 | KeyNumpad1 => 97 | KeyNumpad2 => 98
  | KeyNumpad3 => 99 | KeyNumpad4 => 100 | KeyNumpad5 => 101
  | KeyNumpad6 => 102 | KeyNumpad7 => 103 | KeyNumpad8 => 104
  | KeyNumpad9 => 105
  | KeyNumpadDecimal => 110 | KeyNumpadAdd => 107
  | KeyNumpadSubtract => 109 | KeyNumpadMultiply => 106
  | KeyNumpadDivide => 111 | KeyNumpadEnter => 13
  | KeyMinus => 189 | KeyEquals => 187
  | KeyA => 65 | KeyB => 66 | KeyC => 67 | KeyD => 68 | KeyE => 69
  | KeyF => 70 | KeyG => 71 | KeyH => 72 | KeyI => 73 | KeyJ => 74
  | KeyK => 75 | KeyL => 76 | KeyM => 77 | KeyN => 78 | KeyO => 79
  | KeyP => 80 | KeyQ => 81 | KeyR => 82 | KeyS => 83 | KeyT => 84
  | KeyU => 85 | KeyV => 86 | KeyW => 87 | KeyX => 88 | KeyY => 89
  | KeyZ => 90
  end.

(** The name each platform reports for a key, whatever the other fields
    of the event are. *)
Definition linux_name (k : PhysicalKey) (kind : hook.EventKind) (keychar : Z) : string :=
  keymap_linux.mapKeyToName (hook.mkEvent kind (x11_keysym k) keychar).

Definition windows_name (k : PhysicalKey) (kind : hook.EventKind) (keychar : Z) : string :=
  keymap_windows.mapKeyToName (hook.mkEvent kind (windows_vk k) keychar).

(** ** settings.go: [FormatHotkeys] *)

(** The [for i, key := range keys] loop, entered with index [i] and the
    accumulator [result]. *)
Fixpoint formatLoop (i : nat) (result : string) (keys : list string) : string :=
  match keys with
  | [] => result
  | key :: rest =>
      let result := if (0 <? i)%nat then result +:+ "+" else result in
      formatLoop (S i) (result +:+ key) rest
  end.

Definition FormatHotkeys (keys : list string) : string :=
  if (length keys =? 0)%nat then "Not set" else formatLoop 0 "" keys.

(** The key names joined with ["+"] in their original order (the
    wording of the specification; [strings.Join(keys, "+")]). *)
Definition joinPlus (keys : list string) : string := String.concat "+" keys.

(** ** Package [hotkey]: the combo engine *)

(** [ActionType] and its constants. *)
Inductive ActionType :=
| ActionNone
| ActionIncrementCT
| ActionDecrementCT
| ActionIncrementT
| ActionDecrementT
| ActionReset
| ActionSelectCT
| ActionSelectT
| ActionSwapTeams.

#[global] Instance ActionType_eq_dec : EqDecision ActionType.
Proof. solve_decision. Defined.

(** [Bindings]: the key combination of each action. *)
Record Bindings := mkBindings {
  IncrementCT : list string;
  DecrementCT : list string;
  IncrementT : list string;
  DecrementT : list string;
  Reset : list string;
  SelectCT : list string;
  SelectT : list string;
  SwapTeams : list string
}.

(** The binding the [if]/[else if] chain of [handleKeyDown] tests for an
    action ([ActionNone] has none). *)
Definition bindingOf (b : Bindings) (a : ActionType) : list string :=
  match a with
  | ActionNone => []
  | ActionIncrementCT => IncrementCT b
  | ActionDecrementCT => DecrementCT b
  | ActionIncrementT => IncrementT b
  | ActionDecrementT => DecrementT b
  | ActionReset => Reset b
  | ActionSelectCT => SelectCT b
  | ActionSelectT => SelectT b
  | ActionSwapTeams => SwapTeams b
  end.

(** [Handler].  [lastActionTime] is [None] for the zero [time.Time] and
    [Some t] for a reading [t] of the monotonic clock in nanoseconds;
    [actionChan] holds the undelivered elements of the buffered channel,
    oldest first.  [keysMutex] serialises the methods, which is why they
    are functions on the state; [hookChan] belongs to the hook library. *)
Record Handler := mkHandler {
  bindings : Bindings;
  pressedKeys : gmap string bool;
  lastActionTime : option Z;
  hookRunning : bool;
  actionChan : list ActionType
}.

(** [make(chan ActionType, 10)] *)
Definition actionChanCap : nat := 10.

(** [NewHandler] *)
Definition NewHandler (b : Bindings) : Handler :=
  {| bindings := b;
     pressedKeys := ∅;
     lastActionTime := None;
     hookRunning := false;
     actionChan := [] |}.

(** [UpdateBindings] *)
Definition UpdateBindings (b : Bindings) (h : Handler) : Handler :=
  {| bindings := b;
     pressedKeys := pressedKeys h;
     lastActionTime := lastActionTime h;
     hookRunning := hookRunning h;
     actionChan := actionChan h |}.

(** [Start], as far as the handler's own state goes: the hook channel
    and the goroutine that feeds [handleKeyDown] and [handleKeyUp] are
    the environment of this model. *)
Definition Start (h : Handler) : Handler :=
  if hookRunning h then h
  else
    {| bindings := bindings h;
       pressedKeys := pressedKeys h;
       lastActionTime := lastActionTime h;
       hookRunning := true;
       actionChan := actionChan h |}.

(** [Stop] *)
Definition Stop (h : Handler) : Handler :=
  if hookRunning h then
    {| bindings := bindings h;
       pressedKeys := pressedKeys h;
       lastActionTime := lastActionTime h;
       hookRunning := false;
       actionChan := actionChan h |}
  else h.

(** [time.Millisecond] in nanoseconds, and the cooldown of
    [handleKeyDown]. *)
Definition Millisecond : Z := 1000000.
Definition cooldown : Z := 100 * Millisecond.

(** The largest [time.Duration]. *)
Definition maxDuration : Z := 2 ^ 63 - 1.

(** [time.Since(t)] read at clock value [now]: the difference of the
    monotonic readings; for the zero time the difference to the present
    does not fit a [Duration] and saturates. *)
Definition timeSince (now : Z) (t : option Z) : Z :=
  match t with
  | Some t0 => now - t0
  | None => maxDuration
  end.

(** [h.pressedKeys[keyName]] *)
Definition isPressed (h : Handler) (keyName : string) : bool :=
  default false (pressedKeys h !! keyName).

(** [h.pressedKeys[keyName] = true] *)
Definition press (keyName : string) (h : Handler) : Handler :=
  {| bindings := bindings h;
     pressedKeys := <[keyName := true]> (pressedKeys h);
     lastActionTime := lastActionTime h;
     hookRunning := hookRunning h;
     actionChan := actionChan h |}.

(** [h.lastActionTime = time.Now()] *)
Definition stamp (now : Z) (h : Handler) : Handler :=
  {| bindings := bindings h;
     pressedKeys := pressedKeys h;
     lastActionTime := Some now;
     hookRunning := hookRunning h;
     actionChan := actionChan h |}.

(** The channel after it took [action]. *)
Definition enqueue (action : ActionType) (h : Handler) : Handler :=
  {| bindings := bindings h;
     pressedKeys := pressedKeys h;
     lastActionTime := lastActionTime h;
     hookRunning := hookRunning h;
     actionChan := actionChan h ++ [action] |}.

(** [select { case h.actionChan <- action: default: }]: the element is
    appended when the buffer has room; otherwise the [default] branch
    runs and nothing is stored.  The flag tells which branch ran. *)
Definition trySend (action : ActionType) (h : Handler) : Handler * bool :=
  if (length (actionChan h) <? actionChanCap)%nat
  then (enqueue action h, true)
  else (h, false).

(** The consumer's [<-h.Actions()]: the oldest element, if there is one
    (on an empty channel the consumer waits). *)
Definition receive (h : Handler) : option (ActionType * Handler) :=
  match actionChan h with
  | [] => None
  | a :: rest =>
      Some (a, {| bindings := bindings h;
                  pressedKeys := pressedKeys h;
                  lastActionTime := lastActionTime h;
                  hookRunning := hookRunning h;
                  actionChan := rest |})
  end.

(** [handleKeyUp] *)
Definition handleKeyUp (keyName : string) (h : Handler) : Handler :=
  {| bindings := bindings h;
     pressedKeys := delete keyName (pressedKeys h);
     lastActionTime := lastActionTime h;
     hookRunning := hookRunning h;
     actionChan := actionChan h |}.

(** Which way a call of [handleKeyDown] left the function. *)
Inductive Outcome :=
| SkippedRepeat                 (* key already pressed: first [return] *)
| SkippedCooldown               (* inside the cooldown: second [return] *)
| NoMatch                       (* combos checked, [action == ActionNone] *)
| Sent (action : ActionType)    (* combos checked, action put on the channel *)
| Dropped (action : ActionType) (* combos checked, channel full *).

(** Whether the combos were checked. *)
Definition evaluated (o : Outcome) : bool :=
  match o with
  | SkippedRepeat | SkippedCooldown => false
  | _ => true
  end.

(** The action that reached the channel. *)
Definition emitted (o : Outcome) : option ActionType :=
  match o with
  | Sent a => Some a
  | _ => None
  end.

(** The action a binding matched for, sent or not. *)
Definition matched (o : Outcome) : option ActionType :=
  match o with
  | Sent a | Dropped a => Some a
  | _ => None
  end.

Section Engine.

(** [strings.ToLower]. *)
Variable toLower : string -> string.

(** The inner loop of [matchesCombo]: some pressed key lowers to
    [keyLower].  Go ranges over the map in an unspecified order; the
    loop only looks for a hit. *)
Definition anyPressed (keys : gmap string bool) (keyLower : string) : bool :=
  existsb (fun pressedKey => String.eqb (toLower pressedKey) keyLower)
          (map fst (map_to_list keys)).

(** The outer loop of [matchesCombo]: [false] as soon as a combo key
    is not found. *)
Fixpoint allPressed (keys : gmap string bool) (comboKeys : list string) : bool :=
  match comboKeys with
  | [] => true
  | key :: rest =>
      if anyPressed keys (toLower key) then allPressed keys rest else false
  end.

(** [matchesCombo] *)
Definition matchesCombo (h : Handler) (comboKeys : list string) : bool :=
  if allPressed (pressedKeys h) comboKeys
  then (size (pressedKeys h) =? length comboKeys)%nat
  else false.

(** The [if]/[else if] chain of [handleKeyDown]. *)
Definition checkCombos (h : Handler) : ActionType :=
  if matchesCombo h (IncrementCT (bindings h)) then ActionIncrementCT
  else if matchesCombo h (DecrementCT (bindings h)) then ActionDecrementCT
  else if matchesCombo h (IncrementT (bindings h)) then ActionIncrementT
  else if matchesCombo h (DecrementT (bindings h)) then ActionDecrementT
  else if matchesCombo h (Reset (bindings h)) then ActionReset
  else if matchesCombo h (SelectCT (bindings h)) then ActionSelectCT
  else if matchesCombo h (SelectT (bindings h)) then ActionSelectT
  else if matchesCombo h (SwapTeams (bindings h)) then ActionSwapTeams
  else ActionNone.

(** [handleKeyDown].  [sinceNow] is the clock value [time.Since] reads,
    [setNow] the one the later [time.Now()] reads. *)
Definition handleKeyDown (sinceNow setNow : Z) (keyName : string)
    (h : Handler) : Handler * Outcome :=
  (* Skip if key is already pressed (avoid repeat events) *)
  if isPressed h keyName then (h, SkippedRepeat)
  else
    let h := press keyName h in
    (* Check for action cooldown (prevent rapid-fire) *)
    if timeSince sinceNow (lastActionTime h) <? cooldown
    then (h, SkippedCooldown)
    else
      let action := checkCombos h in
      if decide (action = ActionNone) then (h, NoMatch)
      else
        let h := stamp setNow h in
        let (h, ok) := trySend action h in
        (h, if ok then Sent action else Dropped action).

(** The body of the goroutine started by [Start], for one event of the
    hook channel and the platform's [mapKeyToName]. *)
Definition onEvent (mapKeyToName : hook.Event -> string)
    (sinceNow setNow : Z) (ev : hook.Event) (h : Handler)
    : Handler * option Outcome :=
  let keyName := mapKeyToName ev in
  if String.eqb keyName "" then (h, None)
  else
    match hook.Kind ev with
    | hook.KeyDown =>
        let (h, o) := handleKeyDown sinceNow setNow keyName h in (h, Some o)
    | hook.KeyUp => (handleKeyUp keyName h, None)
    | _ => (h, None)
    end.

(** *** Runs of the engine *)

(** What can happen to a handler: the two event entry points (a
    key-down with its two clock readings), the public methods, and the
    consumer taking an action off the channel. *)
Inductive Op :=
| OpKeyDown (keyName : string) (sinceNow setNow : Z)
| OpKeyUp (keyName : string)
| OpUpdateBindings (b : Bindings)
| OpStart
| OpStop
| OpReceive.

(** One firing of the engine: the clock value stored in
    [lastActionTime], the matched action, and whether the channel took
    it. *)
Record Firing := mkFiring {
  firedAt : Z;
  firedAction : ActionType;
  delivered : bool
}.

Definition firingOf (setNow : Z) (o : Outcome) : list Firing :=
  match o with
  | Sent a => [mkFiring setNow a true]
  | Dropped a => [mkFiring setNow a false]
  | _ => []
  end.

Definition step (op : Op) (h : Handler) : Handler * list Firing :=
  match op with
  | OpKeyDown keyName sinceNow setNow =>
      let (h, o) := handleKeyDown sinceNow setNow keyName h in
      (h, firingOf setNow o)
  | OpKeyUp keyName => (handleKeyUp keyName h, [])
  | OpUpdateBindings b => (UpdateBindings b h, [])
  | OpStart => (Start h, [])
  | OpStop => (Stop h, [])
  | OpReceive =>
      match receive h with
      | Some (_, h) => (h, [])
      | None => (h, [])
      end
  end.

(** A sequence of operations, with the firings in order. *)
Fixpoint run (ops : list Op) (h : Handler) : Handler * list Firing :=
  match ops with
  | [] => (h, [])
  | op :: rest =>
      let (h, fs) := step op h in
      let (h, fs') := run rest h in
      (h, fs ++ fs')
  end.

(** The states the engine can be in: those a run leads to from
    [NewHandler b]. *)
Definition reachable (b : Bindings) (h : Handler) : Prop :=
  exists ops, fst (run ops (NewHandler b)) = h.

(** The consumer receiving up to [n] times in a row: what it saw, and
    the handler left behind. *)
Fixpoint drain (n : nat) (h : Handler) : list ActionType * Handler :=
  match n with
  | O => ([], h)
  | S n' =>
      match receive h with
      | None => ([], h)
      | Some (a, h') => let (seen, h'') := drain n' h' in (a :: seen, h'')
      end
  end.

(** The clock never runs backwards: the readings taken along a run,
    in order, starting above [floor], do not decrease. *)
Fixpoint clockMonotone (floor : Z) (ops : list Op) : Prop :=
  match ops with
  | [] => True
  | OpKeyDown _ sinceNow setNow :: rest =>
      floor <= sinceNow /\ sinceNow <= setNow /\ clockMonotone setNow rest
  | _ :: rest => clockMonotone floor rest
  end.

(** The five ways through [handleKeyDown], with the state and the
    outcome each one returns. *)
Inductive KeyDownCase (sinceNow setNow : Z) (keyName : string) (h : Handler)
  : Handler * Outcome -> Prop :=
| case_repeat :
    isPressed h keyName = true ->
    KeyDownCase sinceNow setNow keyName h (h, SkippedRepeat)
| case_cooldown :
    isPressed h keyName = false ->
    timeSince sinceNow (lastActionTime h) < cooldown ->
    KeyDownCase sinceNow setNow keyName h (press keyName h, SkippedCooldown)
| case_nomatch :
    isPressed h keyName = false ->
    cooldown <= timeSince sinceNow (lastActionTime h) ->
    checkCombos (press keyName h) = ActionNone ->
    KeyDownCase sinceNow setNow keyName h (press keyName h, NoMatch)
| case_sent action :
    isPressed h keyName = false ->
    cooldown <= timeSince sinceNow (lastActionTime h) ->
    checkCombos (press keyName h) = action ->
    action <> ActionNone ->
    (length (actionChan h) < actionChanCap)%nat ->
    KeyDownCase sinceNow setNow keyName h
      (enqueue action (stamp setNow (press keyName h)), Sent action)
| case_dropped action :
    isPressed h keyName = false ->
    cooldown <= timeSince sinceNow (lastActionTime h) ->
    checkCombos (press keyName h) = action ->
    action <> ActionNone ->
    (actionChanCap <= length (actionChan h))%nat ->
    KeyDownCase sinceNow setNow keyName h
      (stamp setNow (press keyName h), Dropped action).

(** Every key-down of the run reads the clock before [deadline]. *)
Fixpoint allBefore (deadline : Z) (ops : list Op) : Prop :=
  match ops with
  | [] => True
  | OpKeyDown _ sinceNow _ :: rest => sinceNow < deadline /\ allBefore deadline rest
  | _ :: rest => allBefore deadline rest
  end.

End Engine.

(** The emissions that reached the channel. *)
Definition deliveredOnly (fs : list Firing) : list Firing :=
  List.filter delivered fs.

(** No two firings closer than the cooldown. *)
Definition spaced (fs : list Firing) : Prop :=
  ForallOrdPairs (fun f g => cooldown <= firedAt g - firedAt f) fs.

(** What a run promises about its firings, seen from the handler [h]
    it starts in and a lower bound [floor] on the clock: they are
    spaced, none is before the floor, and each is a cooldown after the
    timestamp [h] carries. *)
Definition promise (h : Handler) (floor : Z) (fs : list Firing) : Prop :=
  spaced fs
  /\ Forall (fun f => floor <= firedAt f
                      /\ forall last, lastActionTime h = Some last ->
                                      cooldown <= firedAt f - last) fs.

(** What holds of every reachable handler: only [true] is ever stored
    in the map, and the channel never holds more than its capacity. *)
Definition handlerInv (h : Handler) : Prop :=
  (forall key v, pressedKeys h !! key = Some v -> v = true)
  /\ (length (actionChan h) <= actionChanCap)%nat.

(** ** Sample configurations and runs *)

(** [defaultHotkeys] of [internal/config/defaults_linux.go]. *)
Definition linuxDefaultHotkeys : Bindings :=
  {| IncrementCT := ["Numpad1"; "NumpadAdd"];
     DecrementCT := ["Numpad1"; "NumpadSubtract"];
     IncrementT := ["Numpad2"; "NumpadAdd"];
     DecrementT := ["Numpad2"; "NumpadSubtract"];
     Reset := ["Numpad0"; "NumpadEnter"];
     SelectCT := ["LeftControl"; "c"];
     SelectT := ["LeftControl"; "t"];
     SwapTeams := ["LeftControl"; "s"] |}.

(** Only one action bound, to the single key F5; the others disabled. *)
Definition singleKeyBindings : Bindings :=
  {| IncrementCT := ["F5"];
     DecrementCT := [];
     IncrementT := [];
     DecrementT := [];
     Reset := [];
     SelectCT := [];
     SelectT := [];
     SwapTeams := [] |}.

(** Every action disabled. *)
Definition noBindings : Bindings :=
  {| IncrementCT := [];
     DecrementCT := [];
     IncrementT := [];
     DecrementT := [];
     Reset := [];
     SelectCT := [];
     SelectT := [];
     SwapTeams := [] |}.

(** [n] milliseconds on the clock. *)
Definition ms (n : Z) : Z := n * Millisecond.

(** A key pressed and released at clock value [t]. *)
Definition tap (keyName : string) (t : Z) : list Op :=
  [OpKeyDown keyName t t; OpKeyUp keyName].

(** F5 tapped ten times, 100 ms apart, with nobody receiving. *)
Definition tenTaps : list Op :=
  flat_map (fun i => tap "F5" (ms (100 * i))) [0; 1; 2; 3; 4; 5; 6; 7; 8; 9].

(** The handler after [tenTaps]: its channel is full. *)
Definition fullHandler : Handler :=
  fst (run strings.ToLower tenTaps (NewHandler singleKeyBindings)).

(** Left control, C and left shift pressed one after the other. *)
Definition chord : list Op :=
  [OpKeyDown "LeftControl" 0 0; OpKeyDown "C" 1 1; OpKeyDown "LeftShift" 2 2].

Definition chordHeld : Handler :=
  fst (run strings.ToLower chord (NewHandler noBindings)).

(** The same chord as the Linux hook reports it, with a lower-case c. *)
Definition chordHeldLower : Handler :=
  fst (run strings.ToLower
         [OpKeyDown "LeftControl" 0 0; OpKeyDown "c" 1 1;
          OpKeyDown "LeftShift" 2 2]
         (NewHandler noBindings)).

(** Ctrl+c fires select-CT; a first t comes 48 ms later, a second one
    after the cooldown has passed. *)
Definition twoCombos : list Op :=
  [OpStart;
   OpKeyDown "LeftControl" (ms 0) (ms 0);
   OpKeyDown "c" (ms 1) (ms 2);
   OpKeyUp "c";
   OpKeyDown "t" (ms 50) (ms 50);
   OpKeyUp "t";
   OpKeyDown "t" (ms 102) (ms 103)].

(** The handler after the first four operations of [twoCombos]. *)
Definition afterSelectCT : Handler :=
  fst (run strings.ToLower (firstn 4 twoCombos) (NewHandler linuxDefaultHotkeys)).

(** One activation in which "a" goes down and never up, then a
    restart. *)
Definition restart : list Op :=
  [OpStart; OpKeyDown "a" 0 0; OpStop; OpStart].

(** ** More of the engine: priority, the consumer's view, held keys *)

(** The value of an [ActionType] constant ([iota]); the [if]/[else if]
    chain of [handleKeyDown] tests the bindings in this order. *)
Definition rank (a : ActionType) : nat :=
  match a with
  | ActionNone => 0
  | ActionIncrementCT => 1
  | ActionDecrementCT => 2
  | ActionIncrementT => 3
  | ActionDecrementT => 4
  | ActionReset => 5
  | ActionSelectCT => 6
  | ActionSelectT => 7
  | ActionSwapTeams => 8
  end.

(** What the consumer takes off the channel along a run, in order. *)
Fixpoint received (toLower : string -> string) (ops : list Op) (h : Handler)
    : list ActionType :=
  match ops with
  | [] => []
  | OpReceive :: rest =>
      match receive h with
      | Some (a, h') => a :: received toLower rest h'
      | None => received toLower rest h
      end
  | op :: rest => received toLower rest (fst (step toLower op h))
  end.

(** The actions that went onto the channel, among the firings. *)
Definition sentBy (fs : list Firing) : list ActionType :=
  map firedAction (deliveredOnly fs).

(** Whether [keyName] is down after the key events of [ops], given
    whether it was down before: its last key event decides. *)
Fixpoint heldAfter (keyName : string) (held : bool) (ops : list Op) : bool :=
  match ops with
  | [] => held
  | OpKeyDown k _ _ :: rest =>
      heldAfter keyName (if String.eqb k keyName then true else held) rest
  | OpKeyUp k :: rest =>
      heldAfter keyName (if String.eqb k keyName then false else held) rest
  | _ :: rest => heldAfter keyName held rest
  end.

(** All the physical keys of the two tables. *)
Definition allPhysicalKeys : list PhysicalKey :=
  [KeyLeftShift; KeyRightShift; KeyLeftControl; KeyRightControl;
   KeyLeftAlt; KeyRightAlt; KeyLeftSuper; KeyRightSuper;
   KeyF1; KeyF2; KeyF3; KeyF4; KeyF5; KeyF6;
   KeyF7; KeyF8; KeyF9; KeyF10; KeyF11; KeyF12;
   KeyReturn; KeyBackspace; KeyTab; KeySpace; KeyEscape;
   KeyNumpad0; KeyNumpad1; KeyNumpad2; KeyNumpad3; KeyNumpad4;
   KeyNumpad5; KeyNumpad6; KeyNumpad7; KeyNumpad8; KeyNumpad9;
   KeyNumpadDecimal; KeyNumpadAdd; KeyNumpadSubtract;
   KeyNumpadMultiply; KeyNumpadDivide; KeyNumpadEnter;
   KeyMinus; KeyEquals;
   KeyA; KeyB; KeyC; KeyD; KeyE; KeyF; KeyG; KeyH; KeyI;
   KeyJ; KeyK; KeyL; KeyM; KeyN; KeyO; KeyP; KeyQ; KeyR;
   KeyS; KeyT; KeyU; KeyV; KeyW; KeyX; KeyY; KeyZ].

(** Some key of the platform's table is reported under [name], up to
    the case the matcher ignores. *)
Definition typeable (nameOf : PhysicalKey -> string) (name : string) : bool :=
  existsb (fun k => String.eqb (strings.ToLower (nameOf k))
                               (strings.ToLower name))
          allPhysicalKeys.

(** The eight actions a binding can be configured for. *)
Definition allActions : list ActionType :=
  [ActionIncrementCT; ActionDecrementCT; ActionIncrementT; ActionDecrementT;
   ActionReset; ActionSelectCT; ActionSelectT; ActionSwapTeams].

(** The goroutine of [Start] working through the events of the hook
    channel, each with the clock readings a key-down would take. *)
Fixpoint deliver (toLower : string -> string)
    (mapKeyToName : hook.Event -> string)
    (evs : list (hook.Event * (Z * Z))) (h : Handler) : Handler :=
  match evs with
  | [] => h
  | (ev, (sinceNow, setNow)) :: rest =>
      deliver toLower mapKeyToName rest
        (fst (onEvent toLower mapKeyToName sinceNow setNow ev h))
  end.

(** ** settings.go: [containsKey] and the key-capture dialog *)

(** [containsKey] *)
Fixpoint containsKey (keys : list string) (key : string) : bool :=
  match keys with
  | [] => false
  | k :: rest => if String.eqb k key then true else containsKey rest key
  end.

(** The variables the closures of [CaptureHotkey] share
    ([capturedCombo], [heldKeys]) and whether the OK button is enabled. *)
Record Capture := mkCapture {
  capturedCombo : list string;
  heldKeys : gmap string bool;
  okEnabled : bool
}.

(** The dialog as [CaptureHotkey] opens it: nothing captured, OK
    disabled. *)
Definition newCapture : Capture :=
  {| capturedCombo := []; heldKeys := ∅; okEnabled := false |}.

(** What the user can do in the dialog.  [DialogKeyDown] and
    [DialogKeyUp] are the handlers of a desktop canvas, [DialogTypedKey]
    the fallback handler of other canvases. *)
Inductive DialogEvent :=
| DialogKeyDown (keyStr : string)
| DialogKeyUp (keyStr : string)
| DialogTypedKey (keyStr : string)
| DialogClear.

(** "Add to combo if not already there" *)
Definition addToCombo (keyStr : string) (combo : list string) : list string :=
  if containsKey combo keyStr then combo else combo ++ [keyStr].

(** The handlers, as they change the shared variables (the status label
    is left out). *)
Definition dialogStep (ev : DialogEvent) (c : Capture) : Capture :=
  match ev with
  | DialogKeyDown keyStr =>
      {| capturedCombo := addToCombo keyStr (capturedCombo c);
         heldKeys := <[keyStr := true]> (heldKeys c);
         okEnabled := true |}
  | DialogKeyUp keyStr =>
      {| capturedCombo := capturedCombo c;
         heldKeys := delete keyStr (heldKeys c);
         okEnabled := okEnabled c |}
  | DialogTypedKey keyStr =>
      {| capturedCombo := addToCombo keyStr (capturedCombo c);
         heldKeys := heldKeys c;
         okEnabled := true |}
  | DialogClear =>
      {| capturedCombo := []; heldKeys := heldKeys c; okEnabled := false |}
  end.

Definition dialogRun (evs : list DialogEvent) (c : Capture) : Capture :=
  fold_left (fun c ev => dialogStep ev c) evs c.

(** The OK button: the binding [*target] and the text of the settings
    button afterwards ([None]: the text is not touched). *)
Definition dialogOk (target : list string) (c : Capture)
    : list string * option string :=
  if (0 <? length (capturedCombo c))%nat
  then (capturedCombo c, Some (FormatHotkeys (capturedCombo c)))
  else (target, None).

(** The key names given to the dialog since it was last cleared, in
    order, repetitions included. *)
Fixpoint namesSinceClear (evs : list DialogEvent) (acc : list string)
    : list string :=
  match evs with
  | [] => acc
  | DialogKeyDown keyStr :: rest => namesSinceClear rest (acc ++ [keyStr])
  | DialogTypedKey keyStr :: rest => namesSinceClear rest (acc ++ [keyStr])
  | DialogKeyUp _ :: rest => namesSinceClear rest acc
  | DialogClear :: rest => namesSinceClear rest []
  end.

(** ** Package [config] *)

Module config.

(** [Hotkeys]: the key names of each action, as the configuration file
    lists them. *)
Record Hotkeys := mkHotkeys {
  IncrementCT : list string;
  DecrementCT : list string;
  IncrementT : list string;
  DecrementT : list string;
  Reset : list string;
  SelectCT : list string;
  SelectT : list string;
  SwapTeams : list string
}.

(** [defaultHotkeys] (defaults_linux.go) *)
Definition defaultHotkeys_linux : Hotkeys :=
  {| IncrementCT := ["Numpad1"; "NumpadAdd"];
     DecrementCT := ["Numpad1"; "NumpadSubtract"];
     IncrementT := ["Numpad2"; "NumpadAdd"];
     DecrementT := ["Numpad2"; "NumpadSubtract"];
     Reset := ["Numpad0"; "NumpadEnter"];
     SelectCT := ["LeftControl"; "c"];
     SelectT := ["LeftControl"; "t"];
     SwapTeams := ["LeftControl"; "s"] |}.

(** [defaultHotkeys] (defaults_windows.go) *)
Definition defaultHotkeys_windows : Hotkeys :=
  {| IncrementCT := ["1"; "+"];
     DecrementCT := ["1"; "-"];
     IncrementT := ["2"; "+"];
     DecrementT := ["2"; "-"];
     Reset := ["0"; "Return"];
     SelectCT := ["LeftControl"; "C"];
     SelectT := ["LeftControl"; "T"];
     SwapTeams := ["LeftControl"; "S"] |}.

Section Load.

(** [float64], with the two things [Load] and [Default] do with it:
    the constant [1.0] and the test [== 0]. *)
Variable float64 : Type.
Variable one : float64.
Variable isZero : float64 -> bool.

(** [Config] *)
Record Config := mkConfig {
  GameScore : Z;
  SoundEnabled : bool;
  SoundVolume : float64;
  MinimizeToTray : bool;
  Hotkeys_ : Hotkeys; (* field [Hotkeys] *)
  StatsPeriod : string;
  StatsGroup : string
}.

(** The platform's [defaultHotkeys]. *)
Variable defaultHotkeys : Hotkeys.

(** [json.Unmarshal(data, &cfg)] into a zero [Config]: the filled
    record, or [None] for an error. *)
Variable Unmarshal : string -> option Config.

(** [Default] *)
Definition Default : Config :=
  {| GameScore := 8;
     SoundEnabled := true;
     SoundVolume := one;
     MinimizeToTray := false;
     Hotkeys_ := defaultHotkeys;
     StatsPeriod := "All Time";
     StatsGroup := "By Day" |}.

(** What [os.ReadFile] came back with. *)
Inductive ReadResult :=
| ReadData (data : string)
| ReadNotExist
| ReadFailed.

(** The two results of [Load]: a configuration, or one of its two
    errors. *)
Inductive LoadResult :=
| Loaded (cfg : Config)
| FailedToRead
| FailedToParse.

(** [if len(keys) == 0 { keys = def }] *)
Definition orDefault (keys def : list string) : list string :=
  if (length keys =? 0)%nat then def else keys.

(** "Ensure all hotkeys are set if missing (for app upgrades)" *)
Definition fillHotkeys (hk : Hotkeys) : Hotkeys :=
  let def := Hotkeys_ Default in
  {| IncrementCT := orDefault (IncrementCT hk) (IncrementCT def);
     DecrementCT := orDefault (DecrementCT hk) (DecrementCT def);
     IncrementT := orDefault (IncrementT hk) (IncrementT def);
     DecrementT := orDefault (DecrementT hk) (DecrementT def);
     Reset := orDefault (Reset hk) (Reset def);
     SelectCT := orDefault (SelectCT hk) (SelectCT def);
     SelectT := orDefault (SelectT hk) (SelectT def);
     SwapTeams := orDefault (SwapTeams hk) (SwapTeams def) |}.

(** The part of [Load] after a successful [json.Unmarshal]. *)
Definition fillMissing (cfg : Config) : Config :=
  {| GameScore := GameScore cfg;
     SoundEnabled := SoundEnabled cfg;
     SoundVolume := if isZero (SoundVolume cfg) then one else SoundVolume cfg;
     MinimizeToTray := MinimizeToTray cfg;
     Hotkeys_ := fillHotkeys (Hotkeys_ cfg);
     StatsPeriod :=
       if String.eqb (StatsPeriod cfg) "" then "All Time" else StatsPeriod cfg;
     StatsGroup :=
       if String.eqb (StatsGroup cfg) "" then "By Day" else StatsGroup cfg |}.

(** [Load], given what reading the file gave. *)
Definition Load (file : ReadResult) : LoadResult :=
  match file with
  | ReadNotExist => Loaded Default
  | ReadFailed => FailedToRead
  | ReadData data =>
      match Unmarshal data with
      | None => FailedToParse
      | Some cfg => Loaded (fillMissing cfg)
      end
  end.

End Load.

End config.

(** The [hotkey.Bindings] that [tracker.New] and [UpdateHotkeys] build
    from the configured hotkeys, field by field. *)
Definition bindingsOfHotkeys (hk : config.Hotkeys) : Bindings :=
  {| IncrementCT := config.IncrementCT hk;
     DecrementCT := config.DecrementCT hk;
     IncrementT := config.IncrementT hk;
     DecrementT := config.DecrementT hk;
     Reset := config.Reset hk;
     SelectCT := config.SelectCT hk;
     SelectT := config.SelectT hk;
     SwapTeams := config.SwapTeams hk |}.

(** ** Package [database]: teams and the rows [SaveGame] inserts *)

Module database.

(** [Team] is a string type; these are its three constants. *)
Definition TeamNone : string := "".
Definition TeamCT : string := "CT".
Definition TeamT : string := "T".

(** The arguments of one [SaveGame] call, which become a row of
    [game_stats]. *)
Record Game := mkGame {
  CTScore : Z;
  TScore : Z;
  GameScore : Z;
  Team : string
}.

(** [GameStats]: a row of [game_stats] as [GetAllGames] returns it, with
    its id, the four columns [SaveGame] wrote and the instant of
    [CreatedAt]. *)
Record GameStats := mkGameStats {
  ID : Z;
  Row : Game;
  CreatedAt : Z
}.

(** *** Statistics ([GetStats], [GetDailyStats]) *)

(** What [GetStats] scans from one row: [ct_score], [t_score],
    [game_score], [team]. *)
Record StatsRow := mkStatsRow {
  ctScore : Z;
  tScore : Z;
  gameScore : Z;
  team : string
}.

(** What [GetDailyStats] scans from one row: [date(created_at)],
    [ct_score], [t_score], [team]. *)
Record DailyRow := mkDailyRow {
  dayStr : string;
  dayCT : Z;   (* ctScore *)
  dayT : Z;    (* tScore *)
  dayTeam : string
}.

(** [DailyStats]; a [time.Time] is the instant it denotes. *)
Record DailyStats := mkDailyStats {
  Date : Z;
  dWins : Z;   (* Wins *)
  dLosses : Z; (* Losses *)
  dDraws : Z   (* Draws *)
}.

(** The integer fields of [Stats]. *)
Inductive Counter :=
| cTotalGames | cWins | cLosses | cDraws
| cCTWins | cCTLosses | cCTGames
| cTWins | cTLosses | cTGames.

Definition isCounter (c d : Counter) : Z :=
  match c, d with
  | cTotalGames, cTotalGames | cWins, cWins | cLosses, cLosses
  | cDraws, cDraws | cCTWins, cCTWins | cCTLosses, cCTLosses
  | cCTGames, cCTGames | cTWins, cTWins | cTLosses, cTLosses
  | cTGames, cTGames => 1
  | _, _ => 0
  end.

Section Stats.

(** [float64], with the zero value of a rate and
    [float64(a) / float64(b) * 100]. *)
Variable float64 : Type.
Variable zeroRate : float64.
Variable percent : Z -> Z -> float64.

(** [Stats] *)
Record Stats := mkStats {
  TotalGames : Z;
  Wins : Z;
  Losses : Z;
  Draws : Z;
  WinRate : float64;
  CTWins : Z;
  CTLosses : Z;
  CTGames : Z;
  CTWinRate : float64;
  TWins : Z;
  TLosses : Z;
  TGames : Z;
  TWinRate : float64
}.

(** [&Stats{}] *)
Definition emptyStats : Stats :=
  {| TotalGames := 0; Wins := 0; Losses := 0; Draws := 0;
     WinRate := zeroRate;
     CTWins := 0; CTLosses := 0; CTGames := 0; CTWinRate := zeroRate;
     TWins := 0; TLosses := 0; TGames := 0; TWinRate := zeroRate |}.

(** [stats.<c>++] *)
Definition bump (c : Counter) (s : Stats) : Stats :=
  {| TotalGames := TotalGames s + isCounter c cTotalGames;
     Wins := Wins s + isCounter c cWins;
     Losses := Losses s + isCounter c cLosses;
     Draws := Draws s + isCounter c cDraws;
     WinRate := WinRate s;
     CTWins := CTWins s + isCounter c cCTWins;
     CTLosses := CTLosses s + isCounter c cCTLosses;
     CTGames := CTGames s + isCounter c cCTGames;
     CTWinRate := CTWinRate s;
     TWins := TWins s + isCounter c cTWins;
     TLosses := TLosses s + isCounter c cTLosses;
     TGames := TGames s + isCounter c cTGames;
     TWinRate := TWinRate s |}.

(** The tail of the loop body of [GetStats], after the [switch]. *)
Definition countOutcome (playerWon playerLost : bool) (s : Stats) : Stats :=
  if playerWon then bump cWins s
  else if playerLost then bump cLosses s
  else bump cDraws s.

(** One turn of the [for rows.Next()] loop of [GetStats] on a row that
    scans. *)
Definition scanStats (s : Stats) (r : StatsRow) : Stats :=
  let s := bump cTotalGames s in
  if String.eqb (team r) TeamCT then
    let s := bump cCTGames s in
    if tScore r <? ctScore r then countOutcome true false (bump cCTWins s)
    else if ctScore r <? tScore r
         then countOutcome false true (bump cCTLosses s)
         else countOutcome false false s
  else if String.eqb (team r) TeamT then
    let s := bump cTGames s in
    if ctScore r <? tScore r then countOutcome true false (bump cTWins s)
    else if tScore r <? ctScore r
         then countOutcome false true (bump cTLosses s)
         else countOutcome false false s
  else bump cDraws s.

(** "Calculate win rates" *)
Definition withRates (s : Stats) : Stats :=
  {| TotalGames := TotalGames s; Wins := Wins s; Losses := Losses s;
     Draws := Draws s;
     WinRate := if 0 <? TotalGames s then percent (Wins s) (TotalGames s)
                else WinRate s;
     CTWins := CTWins s; CTLosses := CTLosses s; CTGames := CTGames s;
     CTWinRate := if 0 <? CTGames s then percent (CTWins s) (CTGames s)
                  else CTWinRate s;
     TWins := TWins s; TLosses := TLosses s; TGames := TGames s;
     TWinRate := if 0 <? TGames s then percent (TWins s) (TGames s)
                 else TWinRate s |}.

(** [GetStats], on the rows the query returns, when the query and
    every scan succeed. *)
Definition GetStats (rows : list StatsRow) : Stats :=
  withRates (fold_left scanStats rows emptyStats).

End Stats.

Section Daily.

(** [time.Parse("2006-01-02", dayStr)] with its error dropped: the day's
    instant, or that of the zero [Time]. *)
Variable parseDay : string -> Z.

(** The [switch playerTeam] of [GetDailyStats], on [ds]. *)
Definition countDay (r : DailyRow) (ds : DailyStats) : DailyStats :=
  let win := mkDailyStats (Date ds) (dWins ds + 1) (dLosses ds) (dDraws ds) in
  let loss := mkDailyStats (Date ds) (dWins ds) (dLosses ds + 1) (dDraws ds) in
  let draw := mkDailyStats (Date ds) (dWins ds) (dLosses ds) (dDraws ds + 1) in
  if String.eqb (dayTeam r) TeamCT then
    if dayT r <? dayCT r then win
    else if dayCT r <? dayT r then loss
    else draw
  else if String.eqb (dayTeam r) TeamT then
    if dayCT r <? dayT r then win
    else if dayT r <? dayCT r then loss
    else draw
  else draw.

(** One turn of the [for rows.Next()] loop of [GetDailyStats]: the
    day's entry is created when it is missing, then counted into. *)
Definition scanDaily (dailyMap : gmap string DailyStats) (r : DailyRow)
    : gmap string DailyStats :=
  let dailyMap :=
    match dailyMap !! dayStr r with
    | None => <[dayStr r := mkDailyStats (parseDay (dayStr r)) 0 0 0]> dailyMap
    | Some _ => dailyMap
    end in
  match dailyMap !! dayStr r with
  | Some ds => <[dayStr r := countDay r ds]> dailyMap
  | None => dailyMap
  end.

(** [dailyMap] after the loop. *)
Definition accumulate (rows : list DailyRow) : gmap string DailyStats :=
  fold_left scanDaily rows ∅.

End Daily.

(** A loop over the indices [idx], stopping at the first index error. *)
Fixpoint forEach {A : Type} (body : nat -> A -> option A) (idx : list nat)
    (a : A) : option A :=
  match idx with
  | [] => Some a
  | i :: idx =>
      match body i a with
      | Some a' => forEach body idx a'
      | None => None
      end
  end.

(** [if result[i].Date.After(result[j].Date) { result[i], result[j] =
    result[j], result[i] }]; [None] is an index out of range. *)
Definition exchange (i j : nat) (result : list DailyStats)
    : option (list DailyStats) :=
  match result !! i, result !! j with
  | Some a, Some b =>
      Some (if Date b <? Date a then <[j := a]> (<[i := b]> result)
            else result)
  | _, _ => None
  end.

(** [for j := i + 1; j < len(result); j++] *)
Definition innerLoop (i : nat) (result : list DailyStats)
    : option (list DailyStats) :=
  forEach (exchange i) (seq (S i) (length result - S i)) result.

(** "Sort by date": [for i := 0; i < len(result)-1; i++] *)
Definition sortByDate (result : list DailyStats) : option (list DailyStats) :=
  forEach innerLoop (seq 0 (length result - 1)) result.

(** [for _, ds := range dailyMap { result = append(result, *ds) }]: the
    values of the map, in whatever order the runtime ranges over it.
    [GetDailyStats] returns [sortByDate result] for such a [result] of
    [accumulate rows]. *)
Definition rangesOver (dailyMap : gmap string DailyStats)
    (result : list DailyStats) : Prop :=
  result ≡ₚ map snd (map_to_list dailyMap).

(** The result is in ascending order of date. *)
Definition ascending (result : list DailyStats) : Prop :=
  forall p q x y, (p < q)%nat -> result !! p = Some x -> result !! q = Some y ->
    Date x <= Date y.

Definition sumZ (l : list Z) : Z := foldr Z.add 0 l.

(** The row [GetDailyStats] scans where [GetStats] scans [r], for a game
    created on [day]. *)
Definition dailyRowOf (dr : string * StatsRow) : DailyRow :=
  mkDailyRow (fst dr) (ctScore (snd dr)) (tScore (snd dr)) (team (snd dr)).

End database.

(** ** Package [tracker] *)

Module tracker.

(** The methods of [sound.Player] the tracker calls. *)
Inductive Sound :=
| CTIncrementSound | CTDecrementSound | TIncrementSound | TDecrementSound
| ResetSound | CTSelectSound | TSelectSound
| WinSound | LoseSound | MatchEndSound.

(** What a tracker method does to the outside, in call order: label
    refreshes, sounds, the team-change callback, error dialogs and
    [config.Save]. *)
Inductive Effect :=
| UpdateLabels
| Play (s : Sound)
| TeamChanged (team : string)
| ShowInvalidGameScore
| ShowSaveError
| SaveConfig (gameScore : Z).

(** [Tracker]: the counters and the team, the text of the game-score
    entry, [Config.GameScore], whether [onTeamChange] is set; then the
    rows inserted into the database so far and the effects so far,
    oldest first. *)
Record Tracker := mkTracker {
  ctWins : Z;
  tWins : Z;
  team : string;
  maxEntryText : string;
  configGameScore : Z;
  hasOnTeamChange : bool;
  games : list database.Game;
  effects : list Effect
}.

Definition setScores (ct t : Z) (tr : Tracker) : Tracker :=
  {| ctWins := ct; tWins := t; team := team tr;
     maxEntryText := maxEntryText tr;
     configGameScore := configGameScore tr;
     hasOnTeamChange := hasOnTeamChange tr;
     games := games tr; effects := effects tr |}.

(** [SetTeam] *)
Definition SetTeam (newTeam : string) (tr : Tracker) : Tracker :=
  {| ctWins := ctWins tr; tWins := tWins tr; team := newTeam;
     maxEntryText := maxEntryText tr;
     configGameScore := configGameScore tr;
     hasOnTeamChange := hasOnTeamChange tr;
     games := games tr; effects := effects tr |}.

(** [SetOnTeamChange], called with a callback. *)
Definition SetOnTeamChange (tr : Tracker) : Tracker :=
  {| ctWins := ctWins tr; tWins := tWins tr; team := team tr;
     maxEntryText := maxEntryText tr;
     configGameScore := configGameScore tr;
     hasOnTeamChange := true;
     games := games tr; effects := effects tr |}.

Definition emit (e : Effect) (tr : Tracker) : Tracker :=
  {| ctWins := ctWins tr; tWins := tWins tr; team := team tr;
     maxEntryText := maxEntryText tr;
     configGameScore := configGameScore tr;
     hasOnTeamChange := hasOnTeamChange tr;
     games := games tr; effects := effects tr ++ [e] |}.

(** [updateLabels] *)
Definition updateLabels (tr : Tracker) : Tracker := emit UpdateLabels tr.

(** [if t.onTeamChange != nil { fyne.Do(...) }] *)
Definition notifyTeam (newTeam : string) (tr : Tracker) : Tracker :=
  if hasOnTeamChange tr then emit (TeamChanged newTeam) tr else tr.

(** [SelectCT] *)
Definition SelectCT (tr : Tracker) : Tracker :=
  notifyTeam database.TeamCT
    (emit (Play CTSelectSound) (SetTeam database.TeamCT tr)).

(** [SelectT] *)
Definition SelectT (tr : Tracker) : Tracker :=
  notifyTeam database.TeamT
    (emit (Play TSelectSound) (SetTeam database.TeamT tr)).

(** [SwapTeams] *)
Definition SwapTeams (tr : Tracker) : Tracker :=
  let tr := updateLabels (setScores (tWins tr) (ctWins tr) tr) in
  if String.eqb (team tr) database.TeamCT then
    notifyTeam database.TeamT
      (emit (Play TSelectSound) (SetTeam database.TeamT tr))
  else if String.eqb (team tr) database.TeamT then
    notifyTeam database.TeamCT
      (emit (Play CTSelectSound) (SetTeam database.TeamCT tr))
  else tr.

(** [DecrementCT] *)
Definition DecrementCT (tr : Tracker) : Tracker :=
  if 0 <? ctWins tr
  then emit (Play CTDecrementSound)
         (updateLabels (setScores (ctWins tr - 1) (tWins tr) tr))
  else tr.

(** [DecrementT] *)
Definition DecrementT (tr : Tracker) : Tracker :=
  if 0 <? tWins tr
  then emit (Play TDecrementSound)
         (updateLabels (setScores (ctWins tr) (tWins tr - 1) tr))
  else tr.

(** [Reset] *)
Definition Reset (tr : Tracker) : Tracker :=
  emit (Play ResetSound) (updateLabels (setScores 0 0 tr)).

(** [resetScores] *)
Definition resetScores (tr : Tracker) : Tracker :=
  updateLabels (setScores 0 0 tr).

(** [playMatchEndSound] *)
Definition playMatchEndSound (tr : Tracker) : Tracker :=
  if String.eqb (team tr) database.TeamCT then
    if tWins tr <? ctWins tr then emit (Play WinSound) tr
    else emit (Play LoseSound) tr
  else if String.eqb (team tr) database.TeamT then
    if ctWins tr <? tWins tr then emit (Play WinSound) tr
    else emit (Play LoseSound) tr
  else emit (Play MatchEndSound) tr.

(** A successful [database.SaveGame]: one more row. *)
Definition saveGame (gameScore : Z) (tr : Tracker) : Tracker :=
  {| ctWins := ctWins tr; tWins := tWins tr; team := team tr;
     maxEntryText := maxEntryText tr;
     configGameScore := configGameScore tr;
     hasOnTeamChange := hasOnTeamChange tr;
     games := games tr
              ++ [database.mkGame (ctWins tr) (tWins tr) gameScore (team tr)];
     effects := effects tr |}.

Section WithAtoi.

(** [strconv.Atoi]: [Some n] when it returns [n] and no error. *)
Variable Atoi : string -> option Z.

(** [gameScore, err := strconv.Atoi(text); err != nil || gameScore <= 0]:
    the game score when the test lets it through. *)
Definition validScore (text : string) : option Z :=
  match Atoi text with
  | Some gameScore => if gameScore <=? 0 then None else Some gameScore
  | None => None
  end.

(** [HandleDone]; [dbOk] tells whether [database.SaveGame] succeeds. *)
Definition HandleDone (dbOk : bool) (tr : Tracker) : Tracker :=
  match validScore (maxEntryText tr) with
  | None => emit ShowInvalidGameScore tr
  | Some gameScore =>
      if dbOk
      then resetScores (playMatchEndSound (saveGame gameScore tr))
      else emit ShowSaveError tr
  end.

(** [checkAutoSave] *)
Definition checkAutoSave (dbOk : bool) (tr : Tracker) : Tracker :=
  match validScore (maxEntryText tr) with
  | None => tr
  | Some gameScore =>
      if (gameScore <=? ctWins tr) || (gameScore <=? tWins tr)
      then HandleDone dbOk tr
      else tr
  end.

(** [IncrementCT] *)
Definition IncrementCT (dbOk : bool) (tr : Tracker) : Tracker :=
  match validScore (maxEntryText tr) with
  | None => tr
  | Some gameScore =>
      if gameScore <=? ctWins tr then tr
      else
        checkAutoSave dbOk
          (emit (Play CTIncrementSound)
             (updateLabels (setScores (ctWins tr + 1) (tWins tr) tr)))
  end.

(** [IncrementT] *)
Definition IncrementT (dbOk : bool) (tr : Tracker) : Tracker :=
  match validScore (maxEntryText tr) with
  | None => tr
  | Some gameScore =>
      if gameScore <=? tWins tr then tr
      else
        checkAutoSave dbOk
          (emit (Play TIncrementSound)
             (updateLabels (setScores (ctWins tr) (tWins tr + 1) tr)))
  end.

(** [saveGameScoreConfig] *)
Definition saveGameScoreConfig (value : string) (tr : Tracker) : Tracker :=
  match validScore value with
  | None => tr
  | Some newScore =>
      if newScore =? configGameScore tr then tr
      else
        emit (SaveConfig newScore)
          {| ctWins := ctWins tr; tWins := tWins tr; team := team tr;
             maxEntryText := maxEntryText tr;
             configGameScore := newScore;
             hasOnTeamChange := hasOnTeamChange tr;
             games := games tr; effects := effects tr |}
  end.

(** The [OnChanged] callback [New] gives the entry, run when the
    entry's text has become [value]. *)
Definition entryChanged (value : string) (tr : Tracker) : Tracker :=
  saveGameScoreConfig value
    {| ctWins := ctWins tr; tWins := tWins tr; team := team tr;
       maxEntryText := value;
       configGameScore := configGameScore tr;
       hasOnTeamChange := hasOnTeamChange tr;
       games := games tr; effects := effects tr |}.

(** The [switch action] of the loop [StartHotkeys] runs on the
    handler's channel. *)
Definition onAction (action : ActionType) (dbOk : bool) (tr : Tracker)
    : Tracker :=
  match action with
  | ActionIncrementCT => IncrementCT dbOk tr
  | ActionDecrementCT => DecrementCT tr
  | ActionIncrementT => IncrementT dbOk tr
  | ActionDecrementT => DecrementT tr
  | ActionReset => Reset tr
  | ActionSelectCT => SelectCT tr
  | ActionSelectT => SelectT tr
  | ActionSwapTeams => SwapTeams tr
  | ActionNone => tr
  end.

(** What drives a tracker: an action (from a hotkey, or the button
    that calls the same method; [dbOk] is the fate of a save it may
    trigger), the team selector, the entry being edited, and the
    callback being installed. *)
Inductive Input :=
| DoAction (action : ActionType) (dbOk : bool)
| DoSetTeam (newTeam : string)
| DoEditEntry (value : string)
| DoSetOnTeamChange.

Definition input (i : Input) (tr : Tracker) : Tracker :=
  match i with
  | DoAction action dbOk => onAction action dbOk tr
  | DoSetTeam newTeam => SetTeam newTeam tr
  | DoEditEntry value => entryChanged value tr
  | DoSetOnTeamChange => SetOnTeamChange tr
  end.

Definition inputs (ins : list Input) (tr : Tracker) : Tracker :=
  fold_left (fun tr i => input i tr) ins tr.

(** The input does not come with a failing save. *)
Definition saveSucceeds (i : Input) : bool :=
  match i with
  | DoAction _ dbOk => dbOk
  | _ => true
  end.

(** The input is not an edit of the entry. *)
Definition keepsEntry (i : Input) : bool :=
  match i with
  | DoEditEntry _ => false
  | _ => true
  end.

End WithAtoi.

(** The tracker [New] returns, with [text] the entry's text
    ([strconv.Itoa(cfg.GameScore)]). *)
Definition New (gameScore : Z) (text : string) : Tracker :=
  {| ctWins := 0; tWins := 0; team := database.TeamNone;
     maxEntryText := text;
     configGameScore := gameScore;
     hasOnTeamChange := false;
     games := []; effects := [] |}.

End tracker.

(** ** The history tab (package [ui], history.go) *)

Module HistoryTab.

(** [HistoryTab]: the listed games, the selection (a Go map from id to
    [bool]), the anchor of range selection, and the toolbar: whether
    the buttons exist yet, whether "Delete Selected" and "Clear
    Selection" are shown, and the count in the text of "Delete
    Selected". *)
Record HistoryTab := mkHistoryTab {
  games : list database.GameStats;
  selected : gmap Z bool;
  lastClickedIdx : Z;
  hasButtons : bool;
  batchShown : bool;
  deleteCount : Z
}.

(** [len(h.games)] *)
Definition len (h : HistoryTab) : Z := Z.of_nat (length (games h)).

(** [h.games[i]]; [None] is an index out of range. *)
Definition game (h : HistoryTab) (i : Z) : option database.GameStats :=
  if i <? 0 then None else games h !! Z.to_nat i.

(** [h.selected[id]] *)
Definition isSelected (h : HistoryTab) (id : Z) : bool :=
  match selected h !! id with
  | Some b => b
  | None => false
  end.

Definition setSelected (sel : gmap Z bool) (h : HistoryTab) : HistoryTab :=
  {| games := games h; selected := sel; lastClickedIdx := lastClickedIdx h;
     hasButtons := hasButtons h; batchShown := batchShown h;
     deleteCount := deleteCount h |}.

Definition setLastClickedIdx (idx : Z) (h : HistoryTab) : HistoryTab :=
  {| games := games h; selected := selected h; lastClickedIdx := idx;
     hasButtons := hasButtons h; batchShown := batchShown h;
     deleteCount := deleteCount h |}.

(** [h.selected[id] = true] *)
Definition select (id : Z) (h : HistoryTab) : HistoryTab :=
  setSelected (<[id := true]> (selected h)) h.

(** [updateToolbar] *)
Definition updateToolbar (h : HistoryTab) : HistoryTab :=
  if negb (hasButtons h) then h
  else
    let count := Z.of_nat (size (selected h)) in
    if 1 <? count then
      {| games := games h; selected := selected h;
         lastClickedIdx := lastClickedIdx h; hasButtons := hasButtons h;
         batchShown := true; deleteCount := count |}
    else
      {| games := games h; selected := selected h;
         lastClickedIdx := lastClickedIdx h; hasButtons := hasButtons h;
         batchShown := false; deleteCount := deleteCount h |}.

(** [refresh]; [loaded] is what [GetAllGames] returns, [None] for an
    error. *)
Definition refresh (loaded : option (list database.GameStats))
    (h : HistoryTab) : HistoryTab :=
  match loaded with
  | None => h
  | Some newGames =>
      updateToolbar
        {| games := newGames; selected := ∅; lastClickedIdx := -1;
           hasButtons := hasButtons h; batchShown := batchShown h;
           deleteCount := deleteCount h |}
  end.

(** [NewHistoryTab] *)
Definition NewHistoryTab (loaded : option (list database.GameStats))
    : HistoryTab :=
  refresh loaded
    {| games := []; selected := ∅; lastClickedIdx := -1;
       hasButtons := false; batchShown := false; deleteCount := 0 |}.

(** [Container]: the buttons are created, the two batch buttons
    hidden. *)
Definition Container (h : HistoryTab) : HistoryTab :=
  {| games := games h; selected := selected h;
     lastClickedIdx := lastClickedIdx h;
     hasButtons := true; batchShown := false; deleteCount := deleteCount h |}.

(** [selectSingle] *)
Definition selectSingle (idx : Z) (h : HistoryTab) : HistoryTab :=
  if (idx <? 0) || (len h <=? idx) then h
  else
    match game h idx with
    | None => h
    | Some g =>
        let gameID := database.ID g in
        let h :=
          if (size (selected h) =? 1)%nat && isSelected h gameID
          then setSelected ∅ h
          else select gameID (setSelected ∅ h) in
        updateToolbar (setLastClickedIdx idx h)
    end.

(** The body of the loop of [selectRange] at index [i]. *)
Definition selectAt (i : Z) (h : HistoryTab) : option HistoryTab :=
  match game h i with
  | Some g => Some (select (database.ID g) h)
  | None => None
  end.

(** [for i := start; i <= end && i < len(h.games); i++] *)
Fixpoint rangeLoop (idx : list Z) (h : HistoryTab) : option HistoryTab :=
  match idx with
  | [] => Some h
  | i :: idx =>
      match selectAt i h with
      | Some h' => rangeLoop idx h'
      | None => None
      end
  end.

(** [selectRange]; [None] is the index-out-of-range panic. *)
Definition selectRange (toIdx : Z) (h : HistoryTab) : option HistoryTab :=
  if (lastClickedIdx h <? 0) || (len h <=? lastClickedIdx h) then
    if (0 <=? toIdx) && (toIdx <? len h) then
      match game h toIdx with
      | Some g =>
          Some (updateToolbar
                  (setLastClickedIdx toIdx (select (database.ID g) h)))
      | None => None
      end
    else Some (updateToolbar h)
  else
    let start := if toIdx <? lastClickedIdx h then toIdx else lastClickedIdx h in
    let end_ := if toIdx <? lastClickedIdx h then lastClickedIdx h else toIdx in
    match rangeLoop (seqZ start (Z.min end_ (len h - 1) - start + 1)) h with
    | Some h' => Some (updateToolbar h')
    | None => None
    end.

(** [Tapped] on the row showing index [rowIdx]. *)
Definition Tapped (shiftHeld : bool) (rowIdx : Z) (h : HistoryTab)
    : option HistoryTab :=
  if shiftHeld && (0 <=? lastClickedIdx h)
  then selectRange rowIdx h
  else Some (selectSingle rowIdx h).

(** [MouseIn] with the primary button and shift held. *)
Definition MouseIn (rowIdx : Z) (h : HistoryTab) : HistoryTab :=
  if (0 <=? rowIdx) && (rowIdx <? len h) then
    match game h rowIdx with
    | Some g => updateToolbar (select (database.ID g) h)
    | None => h
    end
  else h.

(** The "Select All" button. *)
Definition selectAll (h : HistoryTab) : HistoryTab :=
  let h := fold_left (fun h g => select (database.ID g) h) (games h) h in
  let h := if 0 <? len h then setLastClickedIdx 0 h else h in
  updateToolbar h.

(** The "Clear Selection" button. *)
Definition clearSelection (h : HistoryTab) : HistoryTab :=
  updateToolbar (setLastClickedIdx (-1) (setSelected ∅ h)).

(** What the user does in the tab: a click on a row (with or without
    shift), a shift-drag over a row, the two selection buttons, and
    whatever ends in [refresh] (the Refresh button, a saved dialog, a
    confirmed delete). *)
Inductive Event :=
| Tap (shiftHeld : bool) (rowIdx : Z)
| Drag (rowIdx : Z)
| SelectAll
| ClearSelection
| Refresh (loaded : option (list database.GameStats)).

Definition handle (e : Event) (h : HistoryTab) : option HistoryTab :=
  match e with
  | Tap shiftHeld rowIdx => Tapped shiftHeld rowIdx h
  | Drag rowIdx => Some (MouseIn rowIdx h)
  | SelectAll => Some (selectAll h)
  | ClearSelection => Some (clearSelection h)
  | Refresh loaded => Some (refresh loaded h)
  end.

Fixpoint handleAll (es : list Event) (h : HistoryTab) : option HistoryTab :=
  match es with
  | [] => Some h
  | e :: es =>
      match handle e h with
      | Some h' => handleAll es h'
      | None => None
      end
  end.

(** The row index of an event, when it has one, is not negative: the
    list widget numbers its rows from 0. *)
Definition rowInList (e : Event) : bool :=
  match e with
  | Tap _ rowIdx | Drag rowIdx => 0 <=? rowIdx
  | _ => true
  end.

End HistoryTab.

(** ** The statistics tab (package [ui]) *)

Module StatsTab.

(** [AggregationInterval] *)
Inductive AggregationInterval :=
| AggregateByDay | AggregateByWeek | AggregateByMonth | AggregateByYear.

(** [AggregatedStats] *)
Record AggregatedStats := mkAggregatedStats {
  Label : string;
  Wins : Z;
  Losses : Z
}.

(** [result[i] = *weekMap[key]] for each key of the order; [None] is
    the nil dereference of a key that is not in the map. *)
Fixpoint collect (m : gmap string AggregatedStats) (order : list string)
    : option (list AggregatedStats) :=
  match order with
  | [] => Some []
  | key :: order =>
      match m !! key, collect m order with
      | Some a, Some result => Some (a :: result)
      | _, _ => None
      end
  end.

Section Aggregate.

(** The texts the code takes from a date: [Format("01/02")]; the week
    key [Sprintf("%d-W%02d", year, week)] and label [Sprintf("W%02d",
    week)] of [ISOWeek]; [Format("2006-01")], [Format("Jan")] and
    [Format("2006")]. *)
Variable dayLabel : Z -> string.
Variable weekKey : Z -> string.
Variable weekLabel : Z -> string.
Variable monthKey : Z -> string.
Variable monthLabel : Z -> string.
Variable yearKey : Z -> string.

(** [aggregateByDay] *)
Definition aggregateByDay (dailyStats : list database.DailyStats)
    : list AggregatedStats :=
  map (fun ds => mkAggregatedStats (dayLabel (database.Date ds))
                   (database.dWins ds) (database.dLosses ds))
      dailyStats.

(** One turn of the loop the three other aggregations share: the entry
    of the key is created, and the key appended to the order, when it
    is missing; then the day is added to the entry. *)
Definition addDay (key label : Z -> string)
    (st : gmap string AggregatedStats * list string)
    (ds : database.DailyStats)
    : option (gmap string AggregatedStats * list string) :=
  let k := key (database.Date ds) in
  let '(m, order) :=
    match fst st !! k with
    | None =>
        (<[k := mkAggregatedStats (label (database.Date ds)) 0 0]> (fst st),
         snd st ++ [k])
    | Some _ => st
    end in
  match m !! k with
  | Some a =>
      Some (<[k := mkAggregatedStats (Label a) (Wins a + database.dWins ds)
                     (Losses a + database.dLosses ds)]> m,
            order)
  | None => None
  end.

Fixpoint addDays (key label : Z -> string)
    (dailyStats : list database.DailyStats)
    (st : gmap string AggregatedStats * list string)
    : option (gmap string AggregatedStats * list string) :=
  match dailyStats with
  | [] => Some st
  | ds :: dailyStats =>
      match addDay key label st ds with
      | Some st' => addDays key label dailyStats st'
      | None => None
      end
  end.

(** The body shared by [aggregateByWeek], [aggregateByMonth] and
    [aggregateByYear]. *)
Definition aggregateWith (key label : Z -> string)
    (dailyStats : list database.DailyStats) : option (list AggregatedStats) :=
  match addDays key label dailyStats (∅, []) with
  | Some (m, order) => collect m order
  | None => None
  end.

(** [aggregateByWeek] *)
Definition aggregateByWeek := aggregateWith weekKey weekLabel.

(** [aggregateByMonth] *)
Definition aggregateByMonth := aggregateWith monthKey monthLabel.

(** [aggregateByYear]: the label is the key. *)
Definition aggregateByYear := aggregateWith yearKey yearKey.

(** [aggregateStats]; [nil] is the empty list. *)
Definition aggregateStats (aggregation : AggregationInterval)
    (dailyStats : list database.DailyStats) : option (list AggregatedStats) :=
  if (length dailyStats =? 0)%nat then Some []
  else
    match aggregation with
    | AggregateByWeek => aggregateByWeek dailyStats
    | AggregateByMonth => aggregateByMonth dailyStats
    | AggregateByYear => aggregateByYear dailyStats
    | AggregateByDay => Some (aggregateByDay dailyStats)
    end.

(** The key under which an aggregation groups a date; by day, every
    entry is a group of its own. *)
Definition keyOf (aggregation : AggregationInterval) : option (Z -> string) :=
  match aggregation with
  | AggregateByWeek => Some weekKey
  | AggregateByMonth => Some monthKey
  | AggregateByYear => Some yearKey
  | AggregateByDay => None
  end.

End Aggregate.

End StatsTab.

(** ** Package [strconv] *)

Module strconv.

(** The value of a decimal digit, [None] for any other byte. *)
Definition digit (c : ascii) : option Z :=
  let n := Z.of_N (N_of_ascii c) in
  if (48 <=? n) && (n <=? 57) then Some (n - 48) else None.

(** The digits of [s] read after the value [acc]; [None] when a byte is
    not a digit. *)
Fixpoint digits (s : string) (acc : Z) : option Z :=
  match s with
  | EmptyString => Some acc
  | String c rest =>
      match digit c with
      | Some d => digits rest (10 * acc + d)
      | None => None
      end
  end.

(** [Atoi]: an optional sign and at least one decimal digit, the value
    within the range of [int] (64 bits); [None] stands for any error. *)
Definition Atoi (s : string) : option Z :=
  let signed (neg : bool) (body : string) : option Z :=
    match body with
    | EmptyString => None
    | _ =>
        match digits body 0 with
        | Some n =>
            let v := if neg then - n else n in
            if (- 2 ^ 63 <=? v) && (v <=? 2 ^ 63 - 1) then Some v else None
        | None => None
        end
    end in
  match s with
  | EmptyString => None
  | String "-" rest => signed true rest
  | String "+" rest => signed false rest
  | _ => signed false s
  end.

End strconv.

(** ** Invariants and auxiliary notions used in the proofs *)

(** What the dialog keeps true, relative to the names [acc] given since
    the last clear. *)
Definition captureInv (acc : list string) (c : Capture) : Prop :=
  NoDup (capturedCombo c)
  /\ (forall key, key ∈ capturedCombo c <-> key ∈ acc)
  /\ (okEnabled c = true -> capturedCombo c <> []).

(** Every one of the eight key lists is non-empty. *)
Definition allBound (hk : config.Hotkeys) : Prop :=
  config.IncrementCT hk <> [] /\ config.DecrementCT hk <> []
  /\ config.IncrementT hk <> [] /\ config.DecrementT hk <> []
  /\ config.Reset hk <> [] /\ config.SelectCT hk <> []
  /\ config.SelectT hk <> [] /\ config.SwapTeams hk <> [].

(** The lowered names of the held keys. *)
Definition loweredHeld (toLower : string -> string) (h : Handler)
    : list string :=
  map toLower (map fst (map_to_list (pressedKeys h))).

(** A saved game in which a side has reached the game score [g]. *)
Definition finished (g : Z) (gm : database.Game) : Prop :=
  database.GameScore gm = g
  /\ 0 <= database.CTScore gm <= g
  /\ 0 <= database.TScore gm <= g
  /\ (database.CTScore gm = g \/ database.TScore gm = g).

(** ... and only one side has. *)
Definition decided (g : Z) (gm : database.Game) : Prop :=
  finished g gm /\ (database.CTScore gm < g \/ database.TScore gm < g).

(** The part of a tracker the scores and the saved games depend on. *)
Definition core (tr : tracker.Tracker)
    : Z * Z * string * list database.Game * string :=
  (tracker.ctWins tr, tracker.tWins tr, tracker.team tr,
   tracker.games tr, tracker.maxEntryText tr).

(** What holds of a tracker whose entry reads the valid game score [g];
    [strict] says that no save has failed. *)
Definition coreInv (text : string) (g : Z) (strict : bool)
    (c : Z * Z * string * list database.Game * string) : Prop :=
  let '(ct, t, _, games, txt) := c in
  txt = text
  /\ 0 <= ct <= g
  /\ 0 <= t <= g
  /\ Forall (finished g) games
  /\ (strict = true -> ct < g /\ t < g /\ Forall (decided g) games).

Definition trackerInv (text : string) (g : Z) (strict : bool)
    (tr : tracker.Tracker) : Prop :=
  coreInv text g strict (core tr).

(** The team after [SwapTeams]. *)
Definition otherTeam (team : string) : string :=
  if String.eqb team database.TeamCT then database.TeamT
  else if String.eqb team database.TeamT then database.TeamCT
  else team.

(** The game [SaveGame] is called with. *)
Definition gameNow (g : Z) (tr : tracker.Tracker) : database.Game :=
  database.mkGame (tracker.ctWins tr) (tracker.tWins tr) g (tracker.team tr).

(** Whether [checkAutoSave] calls [HandleDone]. *)
Definition reached (g : Z) (tr : tracker.Tracker) : bool :=
  (g <=? tracker.ctWins tr) || (g <=? tracker.tWins tr).

(** The tracker with one more CT win, or one more T win. *)
Definition bumpCT (tr : tracker.Tracker) : tracker.Tracker :=
  tracker.emit (tracker.Play tracker.CTIncrementSound)
    (tracker.updateLabels
       (tracker.setScores (tracker.ctWins tr + 1) (tracker.tWins tr) tr)).

Definition bumpT (tr : tracker.Tracker) : tracker.Tracker :=
  tracker.emit (tracker.Play tracker.TIncrementSound)
    (tracker.updateLabels
       (tracker.setScores (tracker.ctWins tr) (tracker.tWins tr + 1) tr)).

(** The counters are not negative. *)
Definition nonneg (tr : tracker.Tracker) : Prop :=
  0 <= tracker.ctWins tr /\ 0 <= tracker.tWins tr.

(** With no valid game score in the entry: the saved games stay as they
    are and the counters do not add up to more than [total]. *)
Definition frozen (text : string) (saved : list database.Game) (total : Z)
    (tr : tracker.Tracker) : Prop :=
  tracker.maxEntryText tr = text
  /\ tracker.games tr = saved
  /\ nonneg tr
  /\ tracker.ctWins tr + tracker.tWins tr <= total.

(** [config.Save] is only ever given a positive game score. *)
Definition positiveSave (e : tracker.Effect) : Prop :=
  match e with
  | tracker.SaveConfig n => 0 < n
  | _ => True
  end.

(** [Config.GameScore] is positive and so is every score saved. *)
Definition configInv (tr : tracker.Tracker) : Prop :=
  0 < tracker.configGameScore tr
  /\ Forall positiveSave (tracker.effects tr).

(** The sound [playMatchEndSound] picks when CT has won. *)
Definition soundWhenCTWins (team : string) : tracker.Sound :=
  if String.eqb team database.TeamCT then tracker.WinSound
  else if String.eqb team database.TeamT then tracker.LoseSound
  else tracker.MatchEndSound.

(** Every held key is the name of a key-down event among [evs], or was
    held in [h0]. *)
Definition heldFrom (mapKeyToName : hook.Event -> string)
    (evs : list (hook.Event * (Z * Z))) (h0 h : Handler) : Prop :=
  forall key, key ∈ dom (pressedKeys h) ->
    key ∈ dom (pressedKeys h0)
    \/ (key <> ""
        /\ exists ev, ev ∈ map fst evs
                      /\ hook.Kind ev = hook.KeyDown
                      /\ mapKeyToName ev = key).

(** How the counters of [Stats] hang together. *)
Definition statsConsistent {float64 : Type} (s : database.Stats float64)
    : Prop :=
  database.TotalGames float64 s
  = database.Wins float64 s + database.Losses float64 s
    + database.Draws float64 s
  /\ database.Wins float64 s
     = database.CTWins float64 s + database.TWins float64 s
  /\ database.Losses float64 s
     = database.CTLosses float64 s + database.TLosses float64 s
  /\ 0 <= database.CTWins float64 s /\ 0 <= database.CTLosses float64 s
  /\ database.CTWins float64 s + database.CTLosses float64 s
     <= database.CTGames float64 s
  /\ 0 <= database.TWins float64 s /\ 0 <= database.TLosses float64 s
  /\ database.TWins float64 s + database.TLosses float64 s
     <= database.TGames float64 s
  /\ 0 <= database.Draws float64 s
  /\ database.CTGames float64 s + database.TGames float64 s
     <= database.TotalGames float64 s.

(** The first [i] positions of the slice are final: each holds a date
    no later than any date after it. *)
Definition sortedBefore (i : nat) (l : list database.DailyStats) : Prop :=
  forall p q x y, (p < i)%nat -> (p < q)%nat ->
    l !! p = Some x -> l !! q = Some y ->
    database.Date x <= database.Date y.

(** The sum of a count over the days of the map. *)
Definition totalOver (count : database.DailyStats -> Z)
    (m : gmap string database.DailyStats) : Z :=
  database.sumZ (map count (map snd (map_to_list m))).

(** What [GetStats] scans from the row [SaveGame] inserted for a game. *)
Definition rowOfGame (gm : database.Game) : database.StatsRow :=
  database.mkStatsRow (database.CTScore gm) (database.TScore gm)
    (database.GameScore gm) (database.Team gm).

(** A day with no game counted yet. *)
Definition newDay : database.DailyStats := database.mkDailyStats 0 0 0 0.

(** Every selected id is the id of a listed game, and the anchor is -1
    or the index of a listed game. *)
Definition selectionInv (h : HistoryTab.HistoryTab) : Prop :=
  (forall id, id ∈ dom (HistoryTab.selected h) ->
     exists g, g ∈ HistoryTab.games h /\ database.ID g = id)
  /\ (HistoryTab.lastClickedIdx h = -1
      \/ 0 <= HistoryTab.lastClickedIdx h < HistoryTab.len h).

(** Once the buttons exist, the two batch buttons are shown exactly
    when more than one game is selected, and then "Delete Selected"
    shows the number of selected games. *)
Definition toolbarInv (h : HistoryTab.HistoryTab) : Prop :=
  HistoryTab.hasButtons h = true ->
  HistoryTab.batchShown h
  = (1 <? Z.of_nat (size (HistoryTab.selected h)))
  /\ (HistoryTab.batchShown h = true ->
      HistoryTab.deleteCount h = Z.of_nat (size (HistoryTab.selected h))).

(** The ids of the rows [lo..hi] of the list. *)
Definition idsBetween (h : HistoryTab.HistoryTab) (lo hi : Z) (id : Z) : Prop :=
  exists i g, lo <= i <= hi /\ HistoryTab.game h i = Some g
              /\ database.ID g = id.

(** What the loop of an aggregation keeps true of its map and its key
    order: the order lists each key of the map once, and [result] holds
    the entries in that order. *)
Definition aggregated (m : gmap string StatsTab.AggregatedStats)
    (order : list string) (result : list StatsTab.AggregatedStats) : Prop :=
  NoDup order
  /\ (forall k, k ∈ order <-> is_Some (m !! k))
  /\ StatsTab.collect m order = Some result.

(** The game score an entry text stands for, 0 when it is not valid. *)
Definition scoreOf (Atoi : string -> option Z) (text : string) : Z :=
  match tracker.validScore Atoi text with
  | Some g => g
  | None => 0
  end.

(** The highest game score the entry has held: [acc] before the
    inputs, then the scores of the texts it is edited to. *)
Fixpoint highestScore (Atoi : string -> option Z) (ins : list tracker.Input)
    (acc : Z) : Z :=
  match ins with
  | [] => acc
  | tracker.DoEditEntry value :: rest =>
      highestScore Atoi rest (Z.max acc (scoreOf Atoi value))
  | _ :: rest => highestScore Atoi rest acc
  end.

(** A saved game whose game score is positive, in which a side has
    reached the game score or passed it, and with nothing above [top]. *)
Definition savedOk (top : Z) (gm : database.Game) : Prop :=
  0 < database.GameScore gm <= top
  /\ 0 <= database.CTScore gm <= top
  /\ 0 <= database.TScore gm <= top
  /\ (database.GameScore gm <= database.CTScore gm
      \/ database.GameScore gm <= database.TScore gm).

(** What holds of a tracker whose entry has held no game score above
    [top], whatever was edited. *)
Definition rangeInv (Atoi : string -> option Z) (top : Z)
    (c : Z * Z * string * list database.Game * string) : Prop :=
  let '(ct, t, _, games, txt) := c in
  0 <= ct <= top
  /\ 0 <= t <= top
  /\ scoreOf Atoi txt <= top
  /\ Forall (savedOk top) games.

(** ** More sample configurations and runs *)

(** Select-T bound to the same two keys as select-CT, in the other
    order and case. *)
Definition shadowedBindings : Bindings :=
  {| IncrementCT := [];
     DecrementCT := [];
     IncrementT := [];
     DecrementT := [];
     Reset := [];
     SelectCT := ["LeftControl"; "c"];
     SelectT := ["C"; "LeftControl"];
     SwapTeams := [] |}.

(** Numpad 0 down on a fresh handler with the Linux defaults. *)
Definition numpad0Held : Handler :=
  fst (run strings.ToLower [OpKeyDown "Numpad0" 0 0]
         (NewHandler linuxDefaultHotkeys)).

(** A key-down of numpad 0 and one of an unknown key (raw code 0, no
    character), as the Linux hook reports them. *)
Definition twoLinuxEvents : list (hook.Event * (Z * Z)) :=
  [(hook.mkEvent hook.KeyDown 65456 0, (0, 0));
   (hook.mkEvent hook.KeyDown 0 0, (1, 1))].

(** In the dialog: Ctrl down, C down, C up, C down again. *)
Definition ctrlCTwice : list DialogEvent :=
  [DialogKeyDown "LeftControl"; DialogKeyDown "C"; DialogKeyUp "C";
   DialogKeyDown "C"].

(** A configuration file that sets nothing: [json.Unmarshal] of ["{}"]
    leaves the zero [Config]; anything else is taken not to parse.  The
    sound volume is counted in hundredths here. *)
Definition zeroConfig : config.Config Z :=
  config.mkConfig Z 0 false 0 false
    (config.mkHotkeys [] [] [] [] [] [] [] []) "" "".

Definition unmarshalEmptyObject (data : string) : option (config.Config Z) :=
  if String.eqb data "{}" then Some zeroConfig else None.

(** A configuration file that sets everything. *)
Definition fullConfig : config.Config Z :=
  config.mkConfig Z 13 true 50 true config.defaultHotkeys_windows
    "Week" "By Week".

Definition unmarshalFull (data : string) : option (config.Config Z) :=
  if String.eqb data "full" then Some fullConfig else None.

(** CT goes from 0 to 2 with the game score at 2; then T scores once. *)
Definition shortGame : list tracker.Input :=
  [tracker.DoAction ActionSelectCT true;
   tracker.DoAction ActionIncrementCT true;
   tracker.DoAction ActionIncrementCT true;
   tracker.DoAction ActionIncrementT true].

(** The entry is edited to "16", then to "abc". *)
Definition twoEdits : list tracker.Input :=
  [tracker.DoEditEntry "16"; tracker.DoEditEntry "abc"].

(** One win short of the game score 2, playing CT. *)
Definition matchPoint : tracker.Tracker :=
  tracker.inputs strconv.Atoi (firstn 2 shortGame) (tracker.New 8 "2").

(** Three listed games, newest first, with ids 7, 5 and 2. *)
Definition threeGames : list database.GameStats :=
  [database.mkGameStats 7 (database.mkGame 8 3 8 "CT") 300;
   database.mkGameStats 5 (database.mkGame 6 8 8 "CT") 200;
   database.mkGameStats 2 (database.mkGame 8 8 8 "") 100].

(** The tab showing them, after a click on the first row. *)
Definition firstClicked : HistoryTab.HistoryTab :=
  HistoryTab.selectSingle 0
    (HistoryTab.Container (HistoryTab.NewHistoryTab (Some threeGames))).

(** A session in the tab; the shift-click on row 5 comes from a row
    widget that still carries an index of a longer list. *)
Definition someClicks : list HistoryTab.Event :=
  [HistoryTab.Tap false 1; HistoryTab.Tap true 2; HistoryTab.Drag 0;
   HistoryTab.SelectAll; HistoryTab.Refresh None; HistoryTab.Tap true 5;
   HistoryTab.ClearSelection; HistoryTab.Tap true 1;
   HistoryTab.Refresh (Some [])].

(** Three games on two days, the later day first. *)
Definition twoDays : list (string * database.StatsRow) :=
  [("2024-05-02", database.mkStatsRow 8 3 8 "CT");
   ("2024-05-01", database.mkStatsRow 8 5 8 "T");
   ("2024-05-02", database.mkStatsRow 4 4 8 "")].

(** The two days as day numbers. *)
Definition parseTwoDays (dayStr : string) : Z :=
  if String.eqb dayStr "2024-05-01" then 1
  else if String.eqb dayStr "2024-05-02" then 2
  else 0.

(** The map of the two days, ranged over with the later day first. *)
Definition laterDayFirst : list database.DailyStats :=
  [database.mkDailyStats 2 1 0 1; database.mkDailyStats 1 0 1 0].

(** Five CT wins, then the entry is edited to "3". *)
Definition loweredEntry : list tracker.Input :=
  repeat (tracker.DoAction ActionIncrementCT true) 5
  ++ [tracker.DoEditEntry "3"].

(** * Properties *)

(** ** [FormatHotkeys] *)

Lemma append_assoc3 (a b c : string) : (a +:+ b) +:+ c = a +:+ (b +:+ c).
Proof.
  induction a as [|x a IH]; [reflexivity|].
  unfold String.append in *; fold String.append in *. now rewrite IH.
Qed.

(** Past the first element the loop puts a ["+"] before every key. *)
Lemma formatLoop_later (keys : list string) :
  forall (i : nat) (result key : string),
    formatLoop (S i) result (key :: keys)
    = result +:+ "+" +:+ joinPlus (key :: keys).
Proof.
  induction keys as [|k2 rest IH]; intros i result key.
  - cbn. now rewrite append_assoc3.
  - change (formatLoop (S i) result (key :: k2 :: rest))
      with (formatLoop (S (S i)) ((result +:+ "+") +:+ key) (k2 :: rest)).
    rewrite IH. unfold joinPlus.
    change (String.concat "+" (key :: k2 :: rest))
      with (key +:+ "+" +:+ String.concat "+" (k2 :: rest)).
    now rewrite !append_assoc3.
Qed.

Lemma formatLoop_first (keys : list string) (key : string) :
  formatLoop 0 "" (key :: keys) = joinPlus (key :: keys).
Proof.
  destruct keys as [|k2 rest]; [reflexivity|].
  change (formatLoop 0 "" (key :: k2 :: rest))
    with (formatLoop 1 key (k2 :: rest)).
  now rewrite formatLoop_later.
Qed.

(** C9 (amended): for a binding with at least one key name
    [FormatHotkeys] returns exactly the key names joined with ["+"] in
    their original order; for the empty binding it returns the
    placeholder ["Not set"]. *)
Theorem FormatHotkeys_joins_nonempty (keys : list string) :
  FormatHotkeys keys
  = match keys with
    | [] => "Not set"
    | _ :: _ => joinPlus keys
    end.
Proof.
  destruct keys as [|key rest]; [reflexivity|].
  unfold FormatHotkeys. cbn [length Nat.eqb]. apply formatLoop_first.
Qed.

(** C9 as stated fails at the empty binding: joining no key names gives
    the empty string, [FormatHotkeys] gives ["Not set"]. *)
Lemma FormatHotkeys_empty_is_not_join :
  joinPlus [] = "" /\ FormatHotkeys [] = "Not set"
  /\ FormatHotkeys [] <> joinPlus [].
Proof. repeat split. discriminate. Qed.

(** ** The key translators *)

Lemma printable_range (c : Z) : printable c = true <-> 32 <= c <= 126.
Proof. unfold printable. rewrite andb_true_iff, !Z.leb_le. tauto. Qed.

(** [strings.ToUpper] on the one-character string of a printable rune. *)
Lemma ToUpper_rune (c : Z) :
  printable c = true ->
  strings.ToUpper (string_of_rune c) = string_of_rune (upper_code c).
Proof.
  intros Hp. apply printable_range in Hp.
  unfold strings.ToUpper, string_of_rune, upper_code. simpl. f_equal.
  unfold strings.upperByte.
  rewrite N_ascii_embedding by lia.
  destruct ((97 <=? c) && (c <=? 122)) eqn:Hz.
  - apply andb_true_iff in Hz. destruct Hz as [H1 H2].
    apply Z.leb_le in H1, H2.
    assert (Hn : ((97 <=? Z.to_N c) && (Z.to_N c <=? 122))%N = true).
    { apply andb_true_iff. split; apply N.leb_le; lia. }
    rewrite Hn. f_equal. lia.
  - assert (Hn : ((97 <=? Z.to_N c) && (Z.to_N c <=? 122))%N = false).
    { apply andb_false_iff. apply andb_false_iff in Hz.
      destruct Hz as [Hz|Hz]; [left|right];
        apply Z.leb_gt in Hz; apply N.leb_gt; lia. }
    now rewrite Hn.
Qed.

Lemma upper_code_not_letter (c : Z) :
  is_letter c = false -> upper_code c = c.
Proof.
  unfold is_letter, upper_code. intros H.
  apply orb_false_iff in H. destruct H as [_ H]. now rewrite H.
Qed.

(** C3 (amended): every physical key listed above has a case in both
    tables, and the two translators return the same name for it,
    whatever the fallback character, when the key is a modifier, a
    function key, one of Return, Backspace, Tab, Space and Escape, or the
    minus or equals key.  For a letter key the Windows name is the
    upper-case form of the lower-case Linux name, so the two are equal
    only up to case.  For a numpad key the names differ: Linux reports
    ["Numpad1"], ["NumpadAdd"], ..., Windows the character of the key. *)
Theorem translators_agree_by_class (k : PhysicalKey)
    (kind1 kind2 : hook.EventKind) (keychar1 keychar2 : Z) :
  keymap_linux.rawcodeSwitch (x11_keysym k) <> None
  /\ keymap_windows.mapRawcode (windows_vk k) <> ""
  /\
  match key_class k with
  | Modifier | FunctionKey | SpecialKey | SymbolKey =>
      linux_name k kind1 keychar1 = windows_name k kind2 keychar2
  | LetterKey =>
      windows_name k kind2 keychar2
      = strings.ToUpper (linux_name k kind1 keychar1)
      /\ strings.ToLower (windows_name k kind2 keychar2)
         = strings.ToLower (linux_name k kind1 keychar1)
      /\ linux_name k kind1 keychar1 <> windows_name k kind2 keychar2
  | NumpadKey =>
      linux_name k kind1 keychar1 <> windows_name k kind2 keychar2
  end.
Proof.
  destruct k; cbn; repeat split; discriminate.
Qed.

(** C3 as stated fails at the A key (Linux ["a"], Windows ["A"]) and at
    numpad 1 (Linux ["Numpad1"], Windows ["1"]). *)
Lemma letter_and_numpad_names_differ :
  linux_name KeyA hook.KeyDown 97 = "a"
  /\ windows_name KeyA hook.KeyDown 97 = "A"
  /\ linux_name KeyA hook.KeyDown 97 <> windows_name KeyA hook.KeyDown 97
  /\ linux_name KeyNumpad1 hook.KeyDown 49 = "Numpad1"
  /\ windows_name KeyNumpad1 hook.KeyDown 49 = "1"
  /\ linux_name KeyNumpad1 hook.KeyDown 49 <> windows_name KeyNumpad1 hook.KeyDown 49.
Proof. repeat split; discriminate. Qed.

(** C4 (amended): for an event whose raw code has no entry in the
    platform table and whose fallback character is printable ASCII, the
    Windows translator returns a letter in upper case and every other
    character as its literal one-character string; the Linux translator
    returns every printable character, letters included, as its literal
    one-character string, in the case it came in. *)
Theorem fallback_char_names (ev : hook.Event) :
  printable (hook.Keychar ev) = true ->
  (keymap_windows.mapRawcode (hook.Rawcode ev) = "" ->
   (is_letter (hook.Keychar ev) = true ->
    keymap_windows.mapKeyToName ev
    = string_of_rune (upper_code (hook.Keychar ev)))
   /\ (is_letter (hook.Keychar ev) = false ->
       keymap_windows.mapKeyToName ev = string_of_rune (hook.Keychar ev)))
  /\ (keymap_linux.rawcodeSwitch (hook.Rawcode ev) = None ->
      keymap_linux.mapKeyToName ev = string_of_rune (hook.Keychar ev)).
Proof.
  intros Hp. split.
  - intros Hraw.
    assert (Hw : keymap_windows.mapKeyToName ev
                 = string_of_rune (upper_code (hook.Keychar ev))).
    { unfold keymap_windows.mapKeyToName. rewrite Hraw, Hp. simpl.
      now apply ToUpper_rune. }
    split; intros Hl; [exact Hw|].
    rewrite Hw. now rewrite upper_code_not_letter.
  - intros Hraw. unfold keymap_linux.mapKeyToName. now rewrite Hraw, Hp.
Qed.

(** An unmapped raw code with the fallback character ['a']: ["A"] on
    Windows, ["a"] on Linux. *)
Lemma fallback_char_names_witness :
  keymap_windows.mapKeyToName (hook.mkEvent hook.KeyDown 0 97) = "A"
  /\ keymap_linux.mapKeyToName (hook.mkEvent hook.KeyDown 0 97) = "a".
Proof.
  destruct (fallback_char_names (hook.mkEvent hook.KeyDown 0 97) eq_refl)
    as [Hwin Hlin].
  split.
  - apply Hwin; reflexivity.
  - apply Hlin; reflexivity.
Defined.

(** C4 as stated fails on Linux: raw code 0 has no case in the switch,
    the fallback character ['a'] is a printable letter, and the name is
    ["a"], not the upper-case ["A"]. *)
Lemma linux_fallback_keeps_case :
  keymap_linux.rawcodeSwitch 0 = None
  /\ printable 97 = true
  /\ is_letter 97 = true
  /\ string_of_rune (upper_code 97) = "A"
  /\ keymap_linux.mapKeyToName (hook.mkEvent hook.KeyDown 0 97) = "a"
  /\ keymap_linux.mapKeyToName (hook.mkEvent hook.KeyDown 0 97)
     <> string_of_rune (upper_code 97).
Proof. repeat split. discriminate. Qed.

(** ** [matchesCombo] *)

Lemma size_list_to_set_le (l : list string) :
  (size (list_to_set (C := gset string) l) <= length l)%nat.
Proof.
  induction l as [|x l IH].
  - rewrite list_to_set_nil, size_empty. simpl. lia.
  - rewrite list_to_set_cons. simpl.
    pose proof (size_union_alt (C := gset string) {[x]} (list_to_set l)) as Hu.
    rewrite Hu, size_singleton.
    assert (Hs : list_to_set l ∖ {[x]} ⊆ (list_to_set l : gset string)).
    { intros y Hy. apply elem_of_difference in Hy. tauto. }
    apply subseteq_size in Hs. lia.
Qed.

Section MatchFacts.

Variable toLower : string -> string.

Lemma anyPressed_spec (keys : gmap string bool) (keyLower : string) :
  anyPressed toLower keys keyLower = true
  <-> exists pressedKey, pressedKey ∈ dom keys /\ toLower pressedKey = keyLower.
Proof.
  unfold anyPressed. rewrite existsb_exists. split.
  - intros (p & Hin & Heq). exists p. split.
    + apply in_map_iff in Hin. destruct Hin as ([p' v] & Hp & Hin).
      simpl in Hp. subst p'. apply list_elem_of_In in Hin.
      apply elem_of_map_to_list in Hin. apply elem_of_dom. eauto.
    + now apply String.eqb_eq.
  - intros (p & Hin & Heq). exists p. split.
    + apply elem_of_dom in Hin. destruct Hin as [v Hv].
      apply in_map_iff. exists (p, v). split; [reflexivity|].
      apply list_elem_of_In. now apply elem_of_map_to_list.
    + now apply String.eqb_eq.
Qed.

Lemma allPressed_spec (keys : gmap string bool) (comboKeys : list string) :
  allPressed toLower keys comboKeys = true
  <-> forall key, key ∈ comboKeys ->
        exists pressedKey,
          pressedKey ∈ dom keys /\ toLower pressedKey = toLower key.
Proof.
  induction comboKeys as [|key rest IH]; simpl.
  - split; [|reflexivity]. intros _ key Hin. inversion Hin.
  - destruct (anyPressed toLower keys (toLower key)) eqn:Hany.
    + rewrite IH. apply anyPressed_spec in Hany. split.
      * intros Hrest k Hin. apply elem_of_cons in Hin.
        destruct Hin as [-> | Hin]; [exact Hany | now apply Hrest].
      * intros Hall k Hin. apply Hall. apply elem_of_cons; now right.
    + split; [discriminate|]. intros Hall.
      assert (Hkey : key ∈ key :: rest) by (apply elem_of_cons; now left).
      apply Hall in Hkey. apply anyPressed_spec in Hkey. congruence.
Qed.

Lemma matchesCombo_spec (h : Handler) (comboKeys : list string) :
  matchesCombo toLower h comboKeys = true
  <-> (forall key, key ∈ comboKeys ->
         exists pressedKey,
           pressedKey ∈ dom (pressedKeys h)
           /\ toLower pressedKey = toLower key)
      /\ size (pressedKeys h) = length comboKeys.
Proof.
  unfold matchesCombo.
  destruct (allPressed toLower (pressedKeys h) comboKeys) eqn:Hall.
  - pose proof (proj1 (allPressed_spec _ _) Hall) as Hkeys.
    rewrite Nat.eqb_eq. tauto.
  - split; [discriminate|]. intros [Hkeys _].
    pose proof (proj2 (allPressed_spec _ _) Hkeys). congruence.
Qed.

(** The held keys have at most as many lowered names as there are held
    keys. *)
Lemma lowered_size (keys : gmap string bool) :
  (size (list_to_set (C := gset string)
           (map toLower (map fst (map_to_list keys))))
   <= size keys)%nat.
Proof.
  rewrite <- (length_map_to_list keys).
  replace (length (map_to_list keys))
    with (length (map toLower (map fst (map_to_list keys))))
    by (now rewrite !length_map).
  apply size_list_to_set_le.
Qed.

(** A map that holds, up to case, all the keys of a list whose keys
    differ up to case, and a key that is none of them up to case, is
    larger than the list is long. *)
Lemma lowered_superset_size (keys : gmap string bool)
    (comboKeys : list string) :
  NoDup (map toLower comboKeys) ->
  (forall key, key ∈ comboKeys ->
     exists pressedKey,
       pressedKey ∈ dom keys /\ toLower pressedKey = toLower key) ->
  (exists extra, extra ∈ dom keys
                 /\ forall key, key ∈ comboKeys ->
                      toLower extra <> toLower key) ->
  (length comboKeys < size keys)%nat.
Proof.
  intros Hnd Hsub (extra & Hin & Hnot).
  assert (Hheld : forall p, p ∈ dom keys ->
            toLower p ∈ (list_to_set (map toLower (map fst (map_to_list keys)))
                         : gset string)).
  { intros p Hp. apply elem_of_dom in Hp. destruct Hp as [v Hv].
    apply elem_of_list_to_set, list_elem_of_In, in_map, in_map_iff.
    exists (p, v). split; [reflexivity|].
    apply list_elem_of_In. now apply elem_of_map_to_list. }
  apply Nat.lt_le_trans with
    (size (list_to_set (C := gset string)
             (map toLower (map fst (map_to_list keys))))); [|apply lowered_size].
  rewrite <- (length_map toLower comboKeys).
  rewrite <- (size_list_to_set (C := gset string) (map toLower comboKeys) Hnd).
  apply subset_size. split.
  - intros l Hl. apply elem_of_list_to_set, list_elem_of_In, in_map_iff in Hl.
    destruct Hl as (key & <- & Hkey). apply list_elem_of_In in Hkey.
    destruct (Hsub key Hkey) as (p & Hp & <-). now apply Hheld.
  - intros Hrev. specialize (Hrev (toLower extra) (Hheld extra Hin)).
    apply elem_of_list_to_set, list_elem_of_In, in_map_iff in Hrev.
    destruct Hrev as (key & Heq & Hkey). apply list_elem_of_In in Hkey.
    now apply (Hnot key Hkey).
Qed.

Lemma matchesCombo_empty (h : Handler) :
  (1 <= size (pressedKeys h))%nat -> matchesCombo toLower h [] = false.
Proof.
  intros Hs. unfold matchesCombo; simpl. apply Nat.eqb_neq. lia.
Qed.

(** The action the chain settles on is one whose binding matched. *)
Lemma checkCombos_matches (h : Handler) (a : ActionType) :
  checkCombos toLower h = a -> a <> ActionNone ->
  matchesCombo toLower h (bindingOf (bindings h) a) = true.
Proof.
  unfold checkCombos. intros Hc Hne.
  repeat (match type of Hc with
          | (if ?c then _ else _) = _ => destruct c eqn:?
          end); subst a; simpl; congruence.
Qed.

End MatchFacts.

(** ** [handleKeyDown] *)

Section KeyDownFacts.

Variable toLower : string -> string.

Lemma handleKeyDown_case sinceNow setNow keyName h :
  KeyDownCase toLower sinceNow setNow keyName h
    (handleKeyDown toLower sinceNow setNow keyName h).
Proof.
  unfold handleKeyDown.
  destruct (isPressed h keyName) eqn:Hp; [now constructor|].
  destruct (timeSince sinceNow (lastActionTime (press keyName h)) <? cooldown)
    eqn:Hc.
  - apply Z.ltb_lt in Hc. now constructor.
  - apply Z.ltb_ge in Hc.
    destruct (decide (checkCombos toLower (press keyName h) = ActionNone))
      as [Hnone | Hsome].
    + now constructor.
    + unfold trySend.
      destruct (length (actionChan (stamp setNow (press keyName h)))
                <? actionChanCap)%nat eqn:Hlen.
      * apply Nat.ltb_lt in Hlen. now apply case_sent.
      * apply Nat.ltb_ge in Hlen. now apply case_dropped.
Qed.

Lemma isPressed_press keyName h : isPressed (press keyName h) keyName = true.
Proof. unfold isPressed, press; simpl. now rewrite lookup_insert_eq. Qed.

Lemma size_press keyName h : (1 <= size (pressedKeys (press keyName h)))%nat.
Proof.
  simpl. destruct (size (<[keyName:=true]> (pressedKeys h))) eqn:Hs; [|lia].
  apply map_size_empty_iff in Hs. now apply insert_non_empty in Hs.
Qed.

End KeyDownFacts.

(** Case analysis on the [handleKeyDown] call of the goal. *)
Ltac keydown_cases :=
  match goal with
  | |- context [handleKeyDown ?f ?t1 ?t2 ?k ?h] =>
      destruct (handleKeyDown_case f t1 t2 k h)
  end.

(** ** Runs and reachable states *)

Section RunFacts.

Variable toLower : string -> string.

Lemma handlerInv_new b : handlerInv (NewHandler b).
Proof.
  split; simpl.
  - intros key v Hl. now rewrite lookup_empty in Hl.
  - unfold actionChanCap. lia.
Qed.

Lemma handlerInv_press keyName h : handlerInv h -> handlerInv (press keyName h).
Proof.
  intros [Hv Hl]. split; simpl; [|exact Hl].
  intros key v. rewrite lookup_insert. case_decide.
  - congruence.
  - apply Hv.
Qed.

Lemma handlerInv_step op h :
  handlerInv h -> handlerInv (fst (step toLower op h)).
Proof.
  intros Hinv. destruct op as [keyName t1 t2|keyName|b| | |]; simpl.
  - keydown_cases; simpl;
      try exact Hinv; try (now apply handlerInv_press).
    destruct (handlerInv_press keyName h Hinv) as [Hv Hl].
    split; simpl; [exact Hv|]. rewrite length_app; simpl.
    unfold actionChanCap in *. lia.
  - destruct Hinv as [Hv Hl]. split; simpl; [|exact Hl].
    intros key v Hlk. apply lookup_delete_Some in Hlk. now apply (Hv key).
  - exact Hinv.
  - unfold Start. destruct (hookRunning h); exact Hinv.
  - unfold Stop. destruct (hookRunning h); exact Hinv.
  - unfold receive. destruct Hinv as [Hv Hl].
    destruct (actionChan h) as [|a rest] eqn:Hq; simpl.
    + split; [exact Hv | rewrite Hq; simpl; lia].
    + split; simpl; [exact Hv | simpl in Hl; lia].
Qed.

Lemma run_cons op ops h :
  run toLower (op :: ops) h
  = (fst (run toLower ops (fst (step toLower op h))),
     snd (step toLower op h)
     ++ snd (run toLower ops (fst (step toLower op h)))).
Proof.
  simpl. destruct (step toLower op h) as [h1 fs]. simpl.
  now destruct (run toLower ops h1).
Qed.

Lemma run_snoc ops : forall op h,
  fst (run toLower (ops ++ [op]) h)
  = fst (step toLower op (fst (run toLower ops h))).
Proof.
  induction ops as [|op' ops IH]; intros op h.
  - simpl. now destruct (step toLower op h).
  - change ((op' :: ops) ++ [op]) with (op' :: (ops ++ [op])).
    rewrite !run_cons. simpl. apply IH.
Qed.

Lemma handlerInv_run ops : forall h,
  handlerInv h -> handlerInv (fst (run toLower ops h)).
Proof.
  induction ops as [|op ops IH]; intros h Hinv; [exact Hinv|].
  rewrite run_cons; simpl. apply IH. now apply handlerInv_step.
Qed.

Lemma reachable_inv b h : reachable toLower b h -> handlerInv h.
Proof.
  intros [ops <-]. apply handlerInv_run, handlerInv_new.
Qed.

Lemma reachable_step b op h :
  reachable toLower b h -> reachable toLower b (fst (step toLower op h)).
Proof.
  intros [ops <-]. exists (ops ++ [op]). apply run_snoc.
Qed.

(** An event of the hook channel, handled by the goroutine of [Start],
    leads from a reachable state to a reachable state: it is a key-down
    step, a key-up step, or nothing. *)
Lemma onEvent_reachable b mapKeyToName sinceNow setNow ev h :
  reachable toLower b h ->
  reachable toLower b
    (fst (onEvent toLower mapKeyToName sinceNow setNow ev h)).
Proof.
  intros Hr. unfold onEvent.
  destruct (String.eqb (mapKeyToName ev) ""); [exact Hr|].
  destruct (hook.Kind ev); try exact Hr.
  - pose proof (reachable_step b
                  (OpKeyDown (mapKeyToName ev) sinceNow setNow) h Hr) as Hs.
    simpl in Hs.
    now destruct (handleKeyDown toLower sinceNow setNow (mapKeyToName ev) h).
  - exact (reachable_step b (OpKeyUp (mapKeyToName ev)) h Hr).
Qed.

Lemma drain_firstn n : forall h,
  fst (drain n h) = firstn n (actionChan h)
  /\ actionChan (snd (drain n h)) = skipn n (actionChan h).
Proof.
  induction n as [|n IH]; intros h; simpl; [now split|].
  unfold receive. destruct (actionChan h) as [|a rest] eqn:Hq; simpl.
  - now rewrite Hq.
  - match goal with |- context [drain n ?h1] => specialize (IH h1) end.
    simpl in IH. destruct (drain n _) as [seen h2]. simpl in *.
    destruct IH as [-> ->]. now split.
Qed.

(** A run whose key-downs all read the clock before [last + cooldown]
    fires nothing and leaves the timestamp alone. *)
Lemma run_inside_cooldown ops : forall h last,
  lastActionTime h = Some last ->
  allBefore (last + cooldown) ops ->
  snd (run toLower ops h) = []
  /\ lastActionTime (fst (run toLower ops h)) = Some last.
Proof.
  induction ops as [|op ops IH]; intros h last Hlast Hbefore; [now split|].
  rewrite run_cons; simpl.
  assert (Hstep : snd (step toLower op h) = []
                  /\ lastActionTime (fst (step toLower op h)) = Some last
                  /\ allBefore (last + cooldown) ops).
  { destruct op as [keyName t1 t2|keyName|b| | |]; simpl in *;
      try (split; [reflexivity | split; assumption]).
    - destruct Hbefore as [Ht Hrest].
      keydown_cases; simpl;
        try (split; [reflexivity | split; assumption]);
        rewrite Hlast in *; simpl in *; lia.
    - unfold Start. destruct (hookRunning h); simpl; repeat split; assumption.
    - unfold Stop. destruct (hookRunning h); simpl; repeat split; assumption.
    - unfold receive. destruct (actionChan h); simpl; repeat split; assumption. }
  destruct Hstep as (-> & Hl & Hb). simpl. now apply IH.
Qed.

End RunFacts.

(** ** The cooldown along a run *)

Section Spacing.

Variable toLower : string -> string.

(** Firings of a run with a monotone clock: spaced, not before the
    floor, and a cooldown after the timestamp the run started with. *)
Lemma run_spaced ops : forall h floor,
  clockMonotone floor ops ->
  (forall last, lastActionTime h = Some last -> last <= floor) ->
  promise h floor (snd (run toLower ops h)).
Proof.
  unfold promise.
  induction ops as [|op ops IH]; intros h floor Hclock Hfloor.
  - simpl. split; constructor.
  - rewrite run_cons.
    (* a step that fires nothing and keeps the timestamp *)
    assert (Hkeep : forall h1 floor',
               lastActionTime h1 = lastActionTime h ->
               floor <= floor' -> clockMonotone floor' ops ->
               promise h floor ([] ++ snd (run toLower ops h1))).
    { intros h1 floor' Hsame Hle Hrest. simpl.
      destruct (IH h1 floor' Hrest) as [Hsp Hall].
      - intros last Hl. rewrite Hsame in Hl. apply Hfloor in Hl. lia.
      - split; [exact Hsp|]. eapply List.Forall_impl; [|exact Hall].
        intros f [Hge Hcd]. split; [lia|].
        intros last Hl. apply Hcd. now rewrite Hsame. }
    destruct op as [keyName t1 t2|keyName|b| | |]; simpl in Hclock;
      simpl fst; simpl snd.
    + destruct Hclock as (Hf1 & H12 & Hrest).
      (* a step that fires at [t2] *)
      assert (Hfire : forall h1 a ok,
                 lastActionTime h1 = Some t2 ->
                 cooldown <= timeSince t1 (lastActionTime h) ->
                 promise h floor
                   ([mkFiring t2 a ok] ++ snd (run toLower ops h1))).
      { intros h1 a ok Hstamp Hcool. simpl.
        destruct (IH h1 t2 Hrest) as [Hsp Hall].
        - intros last Hl. rewrite Hstamp in Hl. injection Hl as <-. lia.
        - split.
          + constructor; [|exact Hsp]. eapply List.Forall_impl; [|exact Hall].
            intros f [_ Hcd]. simpl. now apply Hcd.
          + constructor.
            * simpl. split; [lia|]. intros last Hl. rewrite Hl in Hcool.
              simpl in Hcool. lia.
            * eapply List.Forall_impl; [|exact Hall].
              intros f [Hge Hcd]. split; [lia|].
              intros last Hl. specialize (Hcd t2 Hstamp).
              apply Hfloor in Hl. lia. }
      keydown_cases; simpl fst; simpl snd.
      * apply (Hkeep _ t2); [reflexivity | lia | exact Hrest].
      * apply (Hkeep _ t2); [reflexivity | lia | exact Hrest].
      * apply (Hkeep _ t2); [reflexivity | lia | exact Hrest].
      * apply Hfire; [reflexivity | assumption].
      * apply Hfire; [reflexivity | assumption].
    + apply (Hkeep _ floor); [reflexivity | lia | exact Hclock].
    + apply (Hkeep _ floor); [reflexivity | lia | exact Hclock].
    + apply (Hkeep _ floor); [|lia | exact Hclock].
      unfold Start. now destruct (hookRunning h).
    + apply (Hkeep _ floor); [|lia | exact Hclock].
      unfold Stop. now destruct (hookRunning h).
    + simpl. unfold receive. destruct (actionChan h); simpl;
        apply (Hkeep _ floor); try lia; try exact Hclock; reflexivity.
Qed.

Lemma run_from_new_spaced b ops floor :
  clockMonotone floor ops ->
  spaced (snd (run toLower ops (NewHandler b))).
Proof.
  intros Hclock.
  apply (run_spaced ops (NewHandler b) floor Hclock).
  intros last Hl. discriminate Hl.
Qed.

End Spacing.

Lemma spaced_filter (p : Firing -> bool) (fs : list Firing) :
  spaced fs -> spaced (List.filter p fs).
Proof.
  unfold spaced. induction 1 as [|f fs Hf Hfs IH]; simpl; [constructor|].
  destruct (p f); [|exact IH]. constructor; [|exact IH].
  apply List.Forall_forall. intros g Hg. apply List.filter_In in Hg.
  destruct Hg as [Hg _]. revert g Hg. now apply List.Forall_forall.
Qed.

(** ** The claims about the engine *)

(** C1 (amended): for every binding (a list of key names) and every
    held-key set, [matchesCombo] holds if and only if every key of the
    binding is present in the held-key set under case-insensitive
    comparison and the number of held keys equals the length of the
    binding; in particular, when no two keys of the binding are equal
    under that comparison, a held-key set that contains, under that
    comparison, the binding's keys and also a key that is none of them
    does not match it. *)
Theorem matchesCombo_exact (toLower : string -> string) (h : Handler)
    (comboKeys : list string) :
  (matchesCombo toLower h comboKeys = true
   <-> (forall key, key ∈ comboKeys ->
          exists pressedKey,
            pressedKey ∈ dom (pressedKeys h)
            /\ toLower pressedKey = toLower key)
       /\ size (pressedKeys h) = length comboKeys)
  /\ (NoDup (map toLower comboKeys) ->
      (forall key, key ∈ comboKeys ->
         exists pressedKey,
           pressedKey ∈ dom (pressedKeys h)
           /\ toLower pressedKey = toLower key) ->
      (exists extra, extra ∈ dom (pressedKeys h)
                     /\ forall key, key ∈ comboKeys ->
                          toLower extra <> toLower key) ->
      matchesCombo toLower h comboKeys = false).
Proof.
  split; [apply matchesCombo_spec|].
  intros Hnd Hsub Hextra.
  pose proof (lowered_superset_size toLower _ _ Hnd Hsub Hextra) as Hlt.
  destruct (matchesCombo toLower h comboKeys) eqn:Hm; [|reflexivity].
  apply matchesCombo_spec in Hm. lia.
Qed.

(** With left control, a lower-case c and left shift held, the binding
    [LeftControl; C] does not match. *)
Lemma matchesCombo_exact_witness :
  matchesCombo strings.ToLower chordHeldLower ["LeftControl"; "C"] = false.
Proof.
  apply (proj2 (matchesCombo_exact strings.ToLower chordHeldLower
                  ["LeftControl"; "C"])).
  - compute_done.
  - intros key Hkey. apply elem_of_cons in Hkey. destruct Hkey as [->|Hkey].
    + exists "LeftControl". split; compute_done.
    + apply elem_of_cons in Hkey. destruct Hkey as [->|Hkey];
        [|now apply elem_of_nil in Hkey].
      exists "c". split; compute_done.
  - exists "LeftShift". split; [compute_done|].
    apply Forall_forall. compute_done.
Defined.

(** C1 as stated fails for a binding that lists a key twice: with "a"
    and "b" held, the held-key set contains the one key of the binding
    [a; a] plus the extra key "b", and the binding matches.  So does
    the binding [a; A], whose two names are the same key under the
    comparison of the matcher. *)
Lemma repeated_combo_key_matches_superset :
  let h := fst (run strings.ToLower [OpKeyDown "a" 0 0; OpKeyDown "b" 1 1]
                    (NewHandler noBindings)) in
  dom (pressedKeys h) = {["a"; "b"]}
  /\ ("b" ∉ ["a"; "a"])
  /\ matchesCombo strings.ToLower h ["a"; "a"] = true
  /\ NoDup ["a"; "A"]
  /\ ("b" ∉ ["a"; "A"])
  /\ matchesCombo strings.ToLower h ["a"; "A"] = true.
Proof. repeat split; compute_done. Qed.

(** C5: in every state of the engine (so in every reachable one) and
    for every key-down, an action whose binding is empty is not matched
    and is not put on the channel: whenever the combos are checked the
    key just inserted is in the held-key set, the set has at least one
    entry, and the empty binding fails the test on the number of keys. *)
Theorem empty_binding_never_fires (toLower : string -> string) (h : Handler)
    (keyName : string) (sinceNow setNow : Z) (a : ActionType) :
  bindingOf (bindings h) a = [] ->
  matchesCombo toLower (press keyName h) (bindingOf (bindings h) a) = false
  /\ matched (snd (handleKeyDown toLower sinceNow setNow keyName h)) <> Some a
  /\ emitted (snd (handleKeyDown toLower sinceNow setNow keyName h)) <> Some a
  /\ (evaluated (snd (handleKeyDown toLower sinceNow setNow keyName h)) = true ->
      keyName ∈ dom (pressedKeys
                       (fst (handleKeyDown toLower sinceNow setNow keyName h)))
      /\ (1 <= size (pressedKeys
                       (fst (handleKeyDown toLower sinceNow setNow keyName h))))%nat).
Proof.
  intros Hempty.
  assert (Hno : matchesCombo toLower (press keyName h)
                  (bindingOf (bindings h) a) = false).
  { rewrite Hempty. apply matchesCombo_empty, size_press. }
  assert (Hne : forall a', checkCombos toLower (press keyName h) = a' ->
                           a' <> ActionNone -> a' <> a).
  { intros a' Hc Hn ->. apply checkCombos_matches in Hc; [|exact Hn].
    simpl in Hc. congruence. }
  assert (Hin : keyName ∈ dom (pressedKeys (press keyName h))).
  { simpl. apply elem_of_dom. rewrite lookup_insert_eq. eauto. }
  split; [exact Hno|].
  keydown_cases; simpl;
    repeat split; try discriminate; try exact Hin;
    try apply (size_press keyName h);
    try (intros [= <-]; eapply Hne; eauto).
Qed.

(** F5 is bound to increment-CT and every other binding is empty: the
    key-down of F5 matches increment-CT and not the disabled reset. *)
Lemma empty_binding_never_fires_witness :
  matched (snd (handleKeyDown strings.ToLower 0 0 "F5"
                  (NewHandler singleKeyBindings)))
  = Some ActionIncrementCT
  /\ matched (snd (handleKeyDown strings.ToLower 0 0 "F5"
                     (NewHandler singleKeyBindings)))
     <> Some ActionReset.
Proof.
  split; [reflexivity|].
  apply (empty_binding_never_fires strings.ToLower
           (NewHandler singleKeyBindings) "F5" 0 0 ActionReset).
  reflexivity.
Defined.

(** C6: in a reachable state, a key-down for a key name that is already
    in the held-key set returns at once: the handler (held-key set,
    cooldown timestamp, channel) is unchanged and the combos are not
    checked. *)
Theorem repeated_key_down_is_noop (toLower : string -> string)
    (b : Bindings) (h : Handler) (keyName : string) (sinceNow setNow : Z) :
  reachable toLower b h ->
  keyName ∈ dom (pressedKeys h) ->
  handleKeyDown toLower sinceNow setNow keyName h = (h, SkippedRepeat).
Proof.
  intros Hreach Hin. apply reachable_inv in Hreach. destruct Hreach as [Hv _].
  apply elem_of_dom in Hin. destruct Hin as [v Hlk].
  unfold handleKeyDown, isPressed. rewrite Hlk. simpl.
  now rewrite (Hv _ _ Hlk).
Qed.

(** With left control, C and left shift held, a second key-down of C,
    three seconds later, changes nothing. *)
Lemma repeated_key_down_is_noop_witness :
  handleKeyDown strings.ToLower (ms 3000) (ms 3000) "C" chordHeld
  = (chordHeld, SkippedRepeat).
Proof.
  apply (repeated_key_down_is_noop strings.ToLower noBindings chordHeld "C"
           (ms 3000) (ms 3000)).
  - exists chord. reflexivity.
  - compute_done.
Defined.

(** C7: the channel is made with capacity 10 and starts empty, and in
    every reachable state it holds at most ten actions.  When it holds
    ten, a send takes the [default] branch: [handleKeyDown] returns (it
    is a total function, there is nothing to wait for), a matched action
    is dropped, the channel is left as it was, and what the consumer
    receives afterwards, however many times it receives, is the ten
    actions that were already there: the dropped action is stored
    nowhere. *)
Theorem full_channel_drops (toLower : string -> string) (b : Bindings)
    (h : Handler) (keyName : string) (sinceNow setNow : Z) :
  reachable toLower b h ->
  actionChanCap = 10%nat
  /\ actionChan (NewHandler b) = []
  /\ (length (actionChan h) <= 10)%nat
  /\ (length (actionChan h) = 10%nat ->
      (forall a, trySend a h = (h, false))
      /\ (forall a,
            matched (snd (handleKeyDown toLower sinceNow setNow keyName h))
            = Some a ->
            snd (handleKeyDown toLower sinceNow setNow keyName h) = Dropped a)
      /\ emitted (snd (handleKeyDown toLower sinceNow setNow keyName h)) = None
      /\ actionChan (fst (handleKeyDown toLower sinceNow setNow keyName h))
         = actionChan h
      /\ (forall n,
            fst (drain n (fst (handleKeyDown toLower sinceNow setNow keyName h)))
            = firstn n (actionChan h)
            /\ actionChan
                 (snd (drain n
                         (fst (handleKeyDown toLower sinceNow setNow keyName h))))
               = skipn n (actionChan h))).
Proof.
  intros Hreach.
  split; [reflexivity|]. split; [reflexivity|].
  split; [now apply reachable_inv in Hreach as [_ Hl]|].
  intros Hfull.
  assert (Hsame :
    actionChan (fst (handleKeyDown toLower sinceNow setNow keyName h))
    = actionChan h
    /\ emitted (snd (handleKeyDown toLower sinceNow setNow keyName h)) = None
    /\ forall a,
         matched (snd (handleKeyDown toLower sinceNow setNow keyName h))
         = Some a ->
         snd (handleKeyDown toLower sinceNow setNow keyName h) = Dropped a).
  { keydown_cases; simpl; repeat split; try discriminate;
      try (unfold actionChanCap in *; lia).
    intros a0 [= <-]. reflexivity. }
  destruct Hsame as (Hq & Hem & Hdrop).
  split; [|split; [exact Hdrop|split; [exact Hem|split; [exact Hq|]]]].
  - intros a. unfold trySend. rewrite Hfull. reflexivity.
  - intros n. rewrite <- Hq. apply drain_firstn.
Qed.

(** After ten taps of F5 nobody received, an eleventh key-down of F5
    matches increment-CT, drops it, and the consumer then receives ten
    actions and no more. *)
Lemma full_channel_drops_witness :
  length (actionChan fullHandler) = 10%nat
  /\ snd (handleKeyDown strings.ToLower (ms 1000) (ms 1000) "F5" fullHandler)
     = Dropped ActionIncrementCT
  /\ fst (drain 11
            (fst (handleKeyDown strings.ToLower (ms 1000) (ms 1000) "F5"
                    fullHandler)))
     = firstn 11 (actionChan fullHandler).
Proof.
  split; [reflexivity|].
  destruct (full_channel_drops strings.ToLower singleKeyBindings fullHandler
              "F5" (ms 1000) (ms 1000)) as (_ & _ & _ & Hfull).
  - exists tenTaps. reflexivity.
  - destruct Hfull as (_ & Hdrop & _ & _ & Hdrain); [reflexivity|].
    split; [apply Hdrop; reflexivity | apply Hdrain].
Defined.

(** C10: when a key-down matches a binding, the handler returned is the
    one [trySend] leaves from the handler already stamped with the
    current time, so the timestamp is set whether or not the channel
    takes the action; when the channel is full the action is dropped,
    and all the same no later key-down that reads the clock less than
    100 ms after the stamp fires anything. *)
Theorem dropped_match_starts_cooldown (toLower : string -> string)
    (h : Handler) (keyName : string) (sinceNow setNow : Z) (a : ActionType)
    (ops : list Op) :
  matched (snd (handleKeyDown toLower sinceNow setNow keyName h)) = Some a ->
  allBefore (setNow + cooldown) ops ->
  handleKeyDown toLower sinceNow setNow keyName h
  = (fst (trySend a (stamp setNow (press keyName h))),
     if snd (trySend a (stamp setNow (press keyName h)))
     then Sent a else Dropped a)
  /\ lastActionTime (fst (handleKeyDown toLower sinceNow setNow keyName h))
     = Some setNow
  /\ ((actionChanCap <= length (actionChan h))%nat ->
      snd (handleKeyDown toLower sinceNow setNow keyName h) = Dropped a
      /\ actionChan (fst (handleKeyDown toLower sinceNow setNow keyName h))
         = actionChan h)
  /\ snd (run toLower ops
            (fst (handleKeyDown toLower sinceNow setNow keyName h)))
     = [].
Proof.
  intros Hm Hbefore.
  assert (Hst : lastActionTime
                  (fst (handleKeyDown toLower sinceNow setNow keyName h))
                = Some setNow).
  { keydown_cases; simpl in *; congruence. }
  split; [|split; [exact Hst|split]].
  - destruct (handleKeyDown_case toLower sinceNow setNow keyName h)
      as [| | |a' Hp Hc Hk Hn Hlen|a' Hp Hc Hk Hn Hlen];
      simpl in Hm; try discriminate; injection Hm as ->; unfold trySend; simpl.
    + apply Nat.ltb_lt in Hlen. now rewrite Hlen.
    + apply Nat.ltb_ge in Hlen. now rewrite Hlen.
  - intros Hfull.
    destruct (handleKeyDown_case toLower sinceNow setNow keyName h);
      simpl in *; try discriminate; try lia.
    injection Hm as ->. now split.
  - now apply (run_inside_cooldown toLower ops _ setNow).
Qed.

(** The eleventh F5 is dropped at 1000 ms; F5 released and pressed
    again at 1050 ms fires nothing. *)
Lemma dropped_match_starts_cooldown_witness :
  snd (handleKeyDown strings.ToLower (ms 1000) (ms 1000) "F5" fullHandler)
  = Dropped ActionIncrementCT
  /\ lastActionTime
       (fst (handleKeyDown strings.ToLower (ms 1000) (ms 1000) "F5" fullHandler))
     = Some (ms 1000)
  /\ snd (run strings.ToLower [OpKeyUp "F5"; OpKeyDown "F5" (ms 1050) (ms 1050)]
            (fst (handleKeyDown strings.ToLower (ms 1000) (ms 1000) "F5"
                    fullHandler)))
     = [].
Proof.
  split; [reflexivity|].
  destruct (dropped_match_starts_cooldown strings.ToLower fullHandler "F5"
              (ms 1000) (ms 1000) ActionIncrementCT
              [OpKeyUp "F5"; OpKeyDown "F5" (ms 1050) (ms 1050)])
    as (_ & Hstamp & _ & Hquiet).
  - reflexivity.
  - unfold ms, cooldown, Millisecond. simpl. lia.
  - split; [exact Hstamp | exact Hquiet].
Defined.

(** C2: along every run of the engine from [NewHandler], read off a
    clock that does not run backwards, any two firings (and so any two
    actions put on the channel) have emission times at least 100 ms
    apart; and a key-down that reads the clock less than 100 ms after
    the last emission leaves its key in the held-key set, does not check
    the combos, emits nothing, and leaves the channel and the timestamp
    as they were. *)
Theorem cooldown_spacing (toLower : string -> string) (b : Bindings)
    (ops : list Op) (floor : Z) (h : Handler) (keyName : string)
    (sinceNow setNow last : Z) :
  clockMonotone floor ops ->
  lastActionTime h = Some last ->
  sinceNow - last < cooldown ->
  cooldown = 100 * 1000000
  /\ spaced (snd (run toLower ops (NewHandler b)))
  /\ spaced (deliveredOnly (snd (run toLower ops (NewHandler b))))
  /\ isPressed (fst (handleKeyDown toLower sinceNow setNow keyName h)) keyName
     = true
  /\ evaluated (snd (handleKeyDown toLower sinceNow setNow keyName h)) = false
  /\ emitted (snd (handleKeyDown toLower sinceNow setNow keyName h)) = None
  /\ actionChan (fst (handleKeyDown toLower sinceNow setNow keyName h))
     = actionChan h
  /\ lastActionTime (fst (handleKeyDown toLower sinceNow setNow keyName h))
     = Some last.
Proof.
  intros Hclock Hlast Hclose.
  pose proof (run_from_new_spaced toLower b ops floor Hclock) as Hsp.
  split; [reflexivity|].
  split; [exact Hsp|]. split; [now apply spaced_filter|].
  destruct (handleKeyDown_case toLower sinceNow setNow keyName h) as
    [Hp|Hp Hc|Hp Hc Hk|a Hp Hc Hk Hn Hlen|a Hp Hc Hk Hn Hlen]; simpl;
    try (rewrite Hlast in Hc; simpl in Hc; lia).
  - repeat split; assumption.
  - repeat split; try assumption. apply isPressed_press.
Qed.

(** Ctrl+c fires select-CT at 2 ms; Ctrl+t at 50 ms is swallowed with
    "t" left held; Ctrl+t again at 102 ms fires select-T at 103 ms. *)
Lemma cooldown_spacing_witness :
  map firedAt (snd (run strings.ToLower twoCombos
                      (NewHandler linuxDefaultHotkeys)))
  = [ms 2; ms 103]
  /\ spaced (snd (run strings.ToLower twoCombos
                    (NewHandler linuxDefaultHotkeys)))
  /\ handleKeyDown strings.ToLower (ms 50) (ms 50) "t" afterSelectCT
     = (press "t" afterSelectCT, SkippedCooldown).
Proof.
  split; [reflexivity|].
  destruct (cooldown_spacing strings.ToLower linuxDefaultHotkeys twoCombos 0
              afterSelectCT "t" (ms 50) (ms 50) (ms 2))
    as (_ & Hsp & _).
  - unfold twoCombos, ms, Millisecond. simpl. lia.
  - reflexivity.
  - unfold ms, cooldown, Millisecond. lia.
  - split; [exact Hsp | reflexivity].
Defined.

(** C8 (amended): [Stop] and [Start] do not touch the held-key set:
    after a stop and a new start it is exactly what it was when the
    engine was stopped.  No operation other than the key-up of a key
    name takes that name out of the set. *)
Theorem restart_keeps_held_keys (toLower : string -> string) (h : Handler)
    (op : Op) (keyName : string) :
  pressedKeys (Stop h) = pressedKeys h
  /\ pressedKeys (Start h) = pressedKeys h
  /\ pressedKeys (Start (Stop h)) = pressedKeys h
  /\ (op <> OpKeyUp keyName ->
      keyName ∈ dom (pressedKeys h) ->
      keyName ∈ dom (pressedKeys (fst (step toLower op h)))).
Proof.
  assert (Hstop : forall h0, pressedKeys (Stop h0) = pressedKeys h0).
  { intros h0. unfold Stop. now destruct (hookRunning h0). }
  assert (Hstart : forall h0, pressedKeys (Start h0) = pressedKeys h0).
  { intros h0. unfold Start. now destruct (hookRunning h0). }
  split; [apply Hstop|]. split; [apply Hstart|].
  split; [now rewrite Hstart, Hstop|].
  intros Hop Hin.
  destruct op as [k t1 t2|k|b'| | |]; simpl.
  - keydown_cases; simpl; try exact Hin; rewrite dom_insert_L; set_solver.
  - rewrite dom_delete_L. apply elem_of_difference. split; [exact Hin|].
    intros Hk. apply elem_of_singleton in Hk. congruence.
  - exact Hin.
  - now rewrite Hstart.
  - now rewrite Hstop.
  - unfold receive. now destruct (actionChan h).
Qed.

(** With left control, C and left shift held, [Stop] leaves C held. *)
Lemma restart_keeps_held_keys_witness :
  "C" ∈ dom (pressedKeys (fst (step strings.ToLower OpStop chordHeld))).
Proof.
  apply (restart_keeps_held_keys strings.ToLower chordHeld OpStop "C").
  - discriminate.
  - compute_done.
Defined.

(** C8 as stated fails: "a" goes down during the first activation, the
    engine is stopped and started again, and "a" is still in the
    held-key set of the running engine. *)
Lemma stale_key_survives_restart :
  let h := fst (run strings.ToLower restart (NewHandler noBindings)) in
  hookRunning h = true
  /\ pressedKeys h !! "a" = Some true
  /\ pressedKeys h <> ∅.
Proof. repeat split. compute_done. Qed.

(** ** More about [matchesCombo] and the priority chain *)

Section MoreMatchFacts.

Variable toLower : string -> string.

Lemma lowered_elem (keys keys' : list string) (key : string) :
  Permutation (map toLower keys) (map toLower keys') ->
  key ∈ keys ->
  exists key', key' ∈ keys' /\ toLower key' = toLower key.
Proof.
  intros Hperm Hin.
  assert (Hl : toLower key ∈ map toLower keys').
  { rewrite <- Hperm. apply list_elem_of_In, in_map, list_elem_of_In, Hin. }
  apply list_elem_of_In, in_map_iff in Hl. destruct Hl as (key' & Heq & Hin').
  exists key'. split; [now apply list_elem_of_In | exact Heq].
Qed.

Lemma matchesCombo_perm_true (h : Handler) (keys keys' : list string) :
  Permutation (map toLower keys) (map toLower keys') ->
  matchesCombo toLower h keys = true -> matchesCombo toLower h keys' = true.
Proof.
  intros Hperm Hm. apply matchesCombo_spec in Hm. destruct Hm as [Hall Hsize].
  apply matchesCombo_spec. split.
  - intros key' Hin'.
    destruct (lowered_elem keys' keys key' (Permutation_sym Hperm) Hin')
      as (key & Hin & Heq).
    destruct (Hall key Hin) as (p & Hp & Hpl). exists p. split; congruence.
  - apply Permutation_length in Hperm. rewrite !length_map in Hperm. lia.
Qed.

Lemma matchesCombo_perm (h : Handler) (keys keys' : list string) :
  Permutation (map toLower keys) (map toLower keys') ->
  matchesCombo toLower h keys = matchesCombo toLower h keys'.
Proof.
  intros Hperm.
  destruct (matchesCombo toLower h keys) eqn:H1;
    destruct (matchesCombo toLower h keys') eqn:H2; try reflexivity.
  - apply (matchesCombo_perm_true h keys keys' Hperm) in H1. congruence.
  - apply (matchesCombo_perm_true h keys' keys (Permutation_sym Hperm)) in H2.
    congruence.
Qed.

(** X1 ([matchesCombo]): when the keys held are exactly the keys of a
    binding that lists no key twice, the binding matches. *)
Theorem exact_hold_matches (h : Handler) (keys : list string) :
  NoDup keys ->
  dom (pressedKeys h) = list_to_set keys ->
  matchesCombo toLower h keys = true.
Proof.
  intros Hnd Hdom. apply matchesCombo_spec. split.
  - intros key Hin. exists key. split; [|reflexivity].
    rewrite Hdom. now apply elem_of_list_to_set.
  - rewrite <- (size_dom (pressedKeys h)), Hdom.
    now apply size_list_to_set.
Qed.

Lemma rank_inj (a a' : ActionType) : rank a = rank a' -> a = a'.
Proof. destruct a, a'; simpl; intros H; congruence. Qed.

(** What [checkCombos] returns: the first action, in the order of the
    constants, whose binding matches. *)
Lemma checkCombos_first (h : Handler) (a : ActionType) :
  checkCombos toLower h = a ->
  (a <> ActionNone -> matchesCombo toLower h (bindingOf (bindings h) a) = true)
  /\ (forall a', a' <> ActionNone ->
                 (a = ActionNone \/ rank a' < rank a)%nat ->
                 matchesCombo toLower h (bindingOf (bindings h) a') = false).
Proof.
  intros Hc. split; [now apply checkCombos_matches|].
  unfold checkCombos in Hc.
  repeat (match type of Hc with
          | (if ?c then _ else _) = _ => destruct c eqn:?
          end); subst a; intros a' Hne Hr;
    destruct a'; simpl in *; try congruence;
    destruct Hr as [Hr|Hr]; try discriminate; try lia.
Qed.

Lemma checkCombos_is (h : Handler) (a : ActionType) :
  a <> ActionNone ->
  matchesCombo toLower h (bindingOf (bindings h) a) = true ->
  (forall a', a' <> ActionNone -> (rank a' < rank a)%nat ->
              matchesCombo toLower h (bindingOf (bindings h) a') = false) ->
  checkCombos toLower h = a.
Proof.
  intros Hne Hm Hfirst.
  destruct (checkCombos_first h (checkCombos toLower h) eq_refl) as [Hc1 Hc2].
  destruct (decide (checkCombos toLower h = ActionNone)) as [Hnone|Hsome].
  - rewrite (Hc2 a Hne (or_introl Hnone)) in Hm. discriminate.
  - apply rank_inj.
    destruct (lt_eq_lt_dec (rank (checkCombos toLower h)) (rank a))
      as [[Hlt|Heq]|Hgt]; [|exact Heq|].
    + rewrite (Hfirst _ Hsome Hlt) in Hc1. now specialize (Hc1 Hsome).
    + rewrite (Hc2 a Hne (or_intror Hgt)) in Hm. discriminate.
Qed.

End MoreMatchFacts.

Section MoreKeyDownFacts.

Variable toLower : string -> string.

(** A key-down that matched has checked the combos and found [a]. *)
Lemma matched_checkCombos sinceNow setNow keyName h a :
  matched (snd (handleKeyDown toLower sinceNow setNow keyName h)) = Some a ->
  checkCombos toLower (press keyName h) = a /\ a <> ActionNone.
Proof.
  intros Hm.
  destruct (handleKeyDown_case toLower sinceNow setNow keyName h);
    simpl in Hm; try discriminate; injection Hm as <-; now split.
Qed.

Lemma nomatch_checkCombos sinceNow setNow keyName h :
  snd (handleKeyDown toLower sinceNow setNow keyName h) = NoMatch ->
  checkCombos toLower (press keyName h) = ActionNone.
Proof.
  intros Hno.
  destruct (handleKeyDown_case toLower sinceNow setNow keyName h);
    simpl in Hno; try discriminate. assumption.
Qed.

End MoreKeyDownFacts.

(** X2 ([handleKeyDown], the chain of [if]/[else if] over the
    bindings): the action a key-down finds is never [ActionNone], its
    binding matches the keys held after the press, and no binding earlier
    in the chain matches; when the key-down finds nothing, no binding
    matches at all. *)
Theorem first_matching_binding_wins (toLower : string -> string)
    (h : Handler) (keyName : string) (sinceNow setNow : Z) :
  (forall a,
     matched (snd (handleKeyDown toLower sinceNow setNow keyName h)) = Some a ->
     a <> ActionNone
     /\ matchesCombo toLower (press keyName h) (bindingOf (bindings h) a) = true
     /\ forall a', a' <> ActionNone -> (rank a' < rank a)%nat ->
          matchesCombo toLower (press keyName h) (bindingOf (bindings h) a')
          = false)
  /\ (snd (handleKeyDown toLower sinceNow setNow keyName h) = NoMatch ->
      forall a', a' <> ActionNone ->
        matchesCombo toLower (press keyName h) (bindingOf (bindings h) a')
        = false).
Proof.
  split.
  - intros a Hm. apply matched_checkCombos in Hm. destruct Hm as [Hc Hne].
    destruct (checkCombos_first toLower _ _ Hc) as [H1 H2].
    split; [exact Hne|]. split; [now apply H1|].
    intros a' Hne' Hr. apply H2; [exact Hne' | now right].
  - intros Hno a' Hne'. apply nomatch_checkCombos in Hno.
    destruct (checkCombos_first toLower _ _ Hno) as [_ H2].
    apply H2; [exact Hne' | now left].
Qed.

(** X3 ([handleKeyDown]): when two actions are bound to the same keys (up
    to order and case), no key-down ever finds the one that comes later
    in the chain. *)
Theorem shadowed_binding_never_fires (toLower : string -> string)
    (h : Handler) (keyName : string) (sinceNow setNow : Z)
    (a a' : ActionType) :
  a <> ActionNone ->
  (rank a < rank a')%nat ->
  Permutation (map toLower (bindingOf (bindings h) a))
              (map toLower (bindingOf (bindings h) a')) ->
  matched (snd (handleKeyDown toLower sinceNow setNow keyName h)) <> Some a'.
Proof.
  intros Hne Hr Hperm Hm.
  apply matched_checkCombos in Hm. destruct Hm as [Hc Hne'].
  destruct (checkCombos_first toLower _ _ Hc) as [Hyes Hno].
  specialize (Hyes Hne').
  change (bindings (press keyName h)) with (bindings h) in *.
  rewrite <- (matchesCombo_perm toLower _ _ _ Hperm) in Hyes.
  rewrite (Hno a Hne (or_intror Hr)) in Hyes. discriminate.
Qed.

(** X4 ([matchesCombo]): the order in which a binding lists its keys, and
    the case it writes them in, do not change what it matches. *)
Theorem matchesCombo_order_and_case (toLower : string -> string)
    (h : Handler) (keys keys' : list string) :
  Permutation (map toLower keys) (map toLower keys') ->
  matchesCombo toLower h keys = matchesCombo toLower h keys'.
Proof. apply matchesCombo_perm. Qed.

(** X5 ([handleKeyDown]): a first key-down, outside the cooldown and with
    room on the channel, whose press completes a binding that no earlier
    binding shadows, records the key, stamps the time and appends exactly
    that action to the channel. *)
Theorem matching_combo_fires (toLower : string -> string) (h : Handler)
    (keyName : string) (sinceNow setNow : Z) (a : ActionType) :
  isPressed h keyName = false ->
  cooldown <= timeSince sinceNow (lastActionTime h) ->
  (length (actionChan h) < 10)%nat ->
  a <> ActionNone ->
  matchesCombo toLower (press keyName h) (bindingOf (bindings h) a) = true ->
  (forall a', a' <> ActionNone -> (rank a' < rank a)%nat ->
     matchesCombo toLower (press keyName h) (bindingOf (bindings h) a') = false) ->
  handleKeyDown toLower sinceNow setNow keyName h
  = (enqueue a (stamp setNow (press keyName h)), Sent a)
  /\ actionChan (fst (handleKeyDown toLower sinceNow setNow keyName h))
     = actionChan h ++ [a]
  /\ lastActionTime (fst (handleKeyDown toLower sinceNow setNow keyName h))
     = Some setNow.
Proof.
  intros Hp Hcool Hroom Hne Hm Hfirst.
  pose proof (checkCombos_is toLower (press keyName h) a Hne Hm Hfirst) as Hc.
  assert (Heq : handleKeyDown toLower sinceNow setNow keyName h
                = (enqueue a (stamp setNow (press keyName h)), Sent a)).
  { destruct (handleKeyDown_case toLower sinceNow setNow keyName h)
      as [Hp'|Hp' Hc'|Hp' Hc' Hk|a0 Hp' Hc' Hk Hn Hlen|a0 Hp' Hc' Hk Hn Hlen];
      try congruence; try lia.
    unfold actionChanCap in Hlen. lia. }
  rewrite Heq. now repeat split.
Qed.

Section HeldKeys.

Variable toLower : string -> string.

(** After [handleKeyDown] the key is in the map, whichever way the
    function was left, and no other key has come or gone. *)
Lemma dom_handleKeyDown sinceNow setNow keyName h :
  dom (pressedKeys (fst (handleKeyDown toLower sinceNow setNow keyName h)))
  = {[keyName]} ∪ dom (pressedKeys h).
Proof.
  destruct (handleKeyDown_case toLower sinceNow setNow keyName h) as
    [Hp| | | |]; simpl; try apply dom_insert_L.
  unfold isPressed in Hp.
  destruct (pressedKeys h !! keyName) as [v|] eqn:Hl; [|discriminate].
  assert (keyName ∈ dom (pressedKeys h)) by (apply elem_of_dom; eauto).
  set_solver.
Qed.

Lemma dom_step op h keyName :
  keyName ∈ dom (pressedKeys (fst (step toLower op h)))
  <-> match op with
      | OpKeyDown k _ _ => k = keyName \/ keyName ∈ dom (pressedKeys h)
      | OpKeyUp k => k <> keyName /\ keyName ∈ dom (pressedKeys h)
      | _ => keyName ∈ dom (pressedKeys h)
      end.
Proof.
  destruct op as [k t1 t2|k|b| | |]; simpl.
  - pose proof (dom_handleKeyDown t1 t2 k h) as Hd.
    destruct (handleKeyDown toLower t1 t2 k h) as [h1 o]. simpl in *.
    rewrite Hd. set_solver.
  - rewrite dom_delete_L. set_solver.
  - reflexivity.
  - unfold Start. now destruct (hookRunning h).
  - unfold Stop. now destruct (hookRunning h).
  - unfold receive. now destruct (actionChan h).
Qed.

Lemma heldAfter_run ops : forall h keyName held,
  (held = true <-> keyName ∈ dom (pressedKeys h)) ->
  (heldAfter keyName held ops = true
   <-> keyName ∈ dom (pressedKeys (fst (run toLower ops h)))).
Proof.
  induction ops as [|op ops IH]; intros h keyName held Hheld; [exact Hheld|].
  rewrite run_cons. simpl fst.
  pose proof (dom_step op h keyName) as Hstep.
  destruct op as [k t1 t2|k|b| | |]; simpl heldAfter; apply IH;
    try (rewrite Hstep; exact Hheld).
  - rewrite Hstep. destruct (String.eqb_spec k keyName) as [->|Hne].
    + split; [now left | reflexivity].
    + rewrite Hheld. split; [now right | now intros [?|?]].
  - rewrite Hstep. destruct (String.eqb_spec k keyName) as [->|Hne].
    + split; [discriminate | now intros [? _]].
    + rewrite Hheld. split; [now split | now intros [_ ?]].
Qed.

End HeldKeys.

(** X6 ([handleKeyDown], [handleKeyUp]): along any run from a new
    handler, a key is in [pressedKeys] exactly when its last key event
    was a key-down; updating the bindings, starting, stopping and
    receiving never touch the map. *)
Theorem held_iff_last_event_down (toLower : string -> string)
    (b : Bindings) (ops : list Op) (keyName : string) :
  keyName ∈ dom (pressedKeys (fst (run toLower ops (NewHandler b))))
  <-> heldAfter keyName false ops = true.
Proof.
  symmetry. apply heldAfter_run. simpl. rewrite dom_empty_L.
  split; [discriminate | intros H; inversion H].
Qed.

(** X7 ([handleKeyUp]): a key-up of a key that is not held changes
    nothing; a key-up after a key-down of a key that was not held restores
    the map; in general a key-up removes its own key from the map, leaves
    every other key as it was, and touches neither the bindings, nor the
    time of the last action, nor the channel. *)
Theorem key_up_removes_only_its_key (toLower : string -> string)
    (h : Handler) (keyName : string) (sinceNow setNow : Z) :
  (keyName ∉ dom (pressedKeys h) -> handleKeyUp keyName h = h)
  /\ (keyName ∉ dom (pressedKeys h) ->
      pressedKeys
        (handleKeyUp keyName
           (fst (handleKeyDown toLower sinceNow setNow keyName h)))
      = pressedKeys h)
  /\ dom (pressedKeys (handleKeyUp keyName h))
     = dom (pressedKeys h) ∖ {[keyName]}
  /\ (forall other, other <> keyName ->
        pressedKeys (handleKeyUp keyName h) !! other
        = pressedKeys h !! other)
  /\ bindings (handleKeyUp keyName h) = bindings h
  /\ lastActionTime (handleKeyUp keyName h) = lastActionTime h
  /\ actionChan (handleKeyUp keyName h) = actionChan h.
Proof.
  split; [|split; [|split; [|split]]].
  - intros Hnot. apply not_elem_of_dom in Hnot.
    unfold handleKeyUp. rewrite (delete_id _ _ Hnot). now destruct h.
  - intros Hnot. apply not_elem_of_dom in Hnot.
    destruct (handleKeyDown_case toLower sinceNow setNow keyName h) as
      [Hp| | | |]; simpl;
      try (rewrite delete_insert_eq; now apply delete_id).
    unfold isPressed in Hp. rewrite Hnot in Hp. discriminate.
  - simpl. apply dom_delete_L.
  - intros other Hne. simpl. now apply lookup_delete_ne.
  - now repeat split.
Qed.

Section Channel.

Variable toLower : string -> string.

Lemma sentBy_app fs fs' : sentBy (fs ++ fs') = sentBy fs ++ sentBy fs'.
Proof. unfold sentBy, deliveredOnly. now rewrite List.filter_app, map_app. Qed.

Lemma received_cons op ops h :
  received toLower (op :: ops) h
  = match op with
    | OpReceive => match receive h with
                   | Some (a, _) => [a]
                   | None => []
                   end
    | _ => []
    end ++ received toLower ops (fst (step toLower op h)).
Proof.
  destruct op; simpl; try reflexivity.
  unfold receive. now destruct (actionChan h).
Qed.

(** One step: what was on the channel, then what the step sent, is what
    the step received, then what is on the channel now. *)
Lemma step_conserves op h :
  actionChan h ++ sentBy (snd (step toLower op h))
  = match op with
    | OpReceive => match receive h with
                   | Some (a, _) => [a]
                   | None => []
                   end
    | _ => []
    end ++ actionChan (fst (step toLower op h)).
Proof.
  unfold sentBy. destruct op as [k t1 t2|k|b| | |]; simpl.
  - keydown_cases; simpl; now rewrite ?app_nil_r.
  - now rewrite app_nil_r.
  - now rewrite app_nil_r.
  - unfold Start. destruct (hookRunning h); simpl; now rewrite app_nil_r.
  - unfold Stop. destruct (hookRunning h); simpl; now rewrite app_nil_r.
  - unfold receive. destruct (actionChan h) eqn:Hq; simpl;
      now rewrite ?Hq, ?app_nil_r.
Qed.

Lemma run_conserves ops : forall h,
  actionChan h ++ sentBy (snd (run toLower ops h))
  = received toLower ops h ++ actionChan (fst (run toLower ops h)).
Proof.
  induction ops as [|op ops IH]; intros h; [simpl; now rewrite app_nil_r|].
  rewrite run_cons, received_cons. simpl fst; simpl snd.
  rewrite sentBy_app, app_assoc, step_conserves, <- !app_assoc.
  f_equal. apply IH.
Qed.

(** No step puts [ActionNone] on the channel. *)
Lemma no_ActionNone_step op h :
  ActionNone ∉ actionChan h ->
  ActionNone ∉ actionChan (fst (step toLower op h)).
Proof.
  intros Hno. destruct op as [k t1 t2|k|b| | |]; simpl; try exact Hno.
  - keydown_cases; simpl; try exact Hno.
    intros Hin. apply elem_of_app in Hin. destruct Hin as [Hin|Hin].
    + now apply Hno.
    + apply list_elem_of_singleton in Hin. congruence.
  - unfold Start. now destruct (hookRunning h).
  - unfold Stop. now destruct (hookRunning h).
  - unfold receive. destruct (actionChan h) as [|a q] eqn:Hq; simpl.
    + now rewrite Hq.
    + intros Hin. apply Hno. apply elem_of_cons. now right.
Qed.

Lemma no_ActionNone_run ops : forall h,
  ActionNone ∉ actionChan h ->
  (ActionNone ∉ actionChan (fst (run toLower ops h)))
  /\ (ActionNone ∉ received toLower ops h).
Proof.
  induction ops as [|op ops IH]; intros h Hno.
  - split; [exact Hno | intros Hin; inversion Hin].
  - rewrite run_cons, received_cons. simpl fst.
    destruct (IH _ (no_ActionNone_step op h Hno)) as [Hq Hr].
    split; [exact Hq|].
    intros Hin. apply elem_of_app in Hin. destruct Hin as [Hin|Hin];
      [|now apply Hr].
    destruct op; try (now inversion Hin).
    unfold receive in Hin. destruct (actionChan h) as [|a q] eqn:Ha;
      [now inversion Hin|].
    apply list_elem_of_singleton in Hin. subst a.
    apply Hno. apply elem_of_cons. now left.
Qed.

End Channel.

(** X8 (the channel between [handleKeyDown] and [Actions]): along any
    run, what the consumer has received followed by what still waits on
    the channel is the sequence of actions that were sent, in the order
    they were sent: nothing is lost, duplicated or reordered. *)
Theorem channel_is_fifo (toLower : string -> string) (b : Bindings)
    (ops : list Op) :
  received toLower ops (NewHandler b)
  ++ actionChan (fst (run toLower ops (NewHandler b)))
  = map firedAction (deliveredOnly (snd (run toLower ops (NewHandler b)))).
Proof.
  symmetry. apply (run_conserves toLower ops (NewHandler b)).
Qed.

(** X9 ([handleKeyDown]): [ActionNone] is never put on the channel, so
    the consumer never receives it. *)
Theorem consumer_never_sees_ActionNone (toLower : string -> string)
    (b : Bindings) (ops : list Op) :
  (ActionNone ∉ received toLower ops (NewHandler b))
  /\ (ActionNone ∉ actionChan (fst (run toLower ops (NewHandler b)))).
Proof.
  destruct (no_ActionNone_run toLower ops (NewHandler b)) as [Hq Hr].
  - simpl. intros Hin. inversion Hin.
  - now split.
Qed.

(** ** Events that never reach the engine *)

Lemma linux_table_names_nonempty (r : Z) (name : string) :
  keymap_linux.rawcodeSwitch r = Some name -> name <> "".
Proof.
  unfold keymap_linux.rawcodeSwitch.
  destruct r as [|p|p]; try discriminate.
  do 17 (try (destruct p as [p|p|]; try discriminate));
    intros [= <-]; discriminate.
Qed.

Lemma string_of_rune_nonempty (c : Z) :
  string_of_rune c <> "" /\ strings.ToUpper (string_of_rune c) <> "".
Proof. split; discriminate. Qed.

(** The Linux translator gives the empty name exactly to a raw code
    outside its table with a character outside 32..126. *)
Lemma linux_name_empty_iff (ev : hook.Event) :
  keymap_linux.mapKeyToName ev = ""
  <-> keymap_linux.rawcodeSwitch (hook.Rawcode ev) = None
      /\ printable (hook.Keychar ev) = false.
Proof.
  unfold keymap_linux.mapKeyToName.
  destruct (keymap_linux.rawcodeSwitch (hook.Rawcode ev)) as [name|] eqn:Hr.
  - split; [|intros [? _]; discriminate].
    intros ->. now apply linux_table_names_nonempty in Hr.
  - destruct (printable (hook.Keychar ev)); split; try tauto.
    + intros H. now apply string_of_rune_nonempty in H.
    + intros [_ ?]. discriminate.
Qed.

Lemma windows_name_empty_iff (ev : hook.Event) :
  keymap_windows.mapKeyToName ev = ""
  <-> keymap_windows.mapRawcode (hook.Rawcode ev) = ""
      /\ printable (hook.Keychar ev) = false.
Proof.
  unfold keymap_windows.mapKeyToName.
  destruct (String.eqb_spec (keymap_windows.mapRawcode (hook.Rawcode ev)) "")
    as [Hr|Hr]; simpl.
  - rewrite Hr. destruct (printable (hook.Keychar ev)); split; try tauto.
    + intros H. now apply string_of_rune_nonempty in H.
    + intros [_ ?]. discriminate.
  - split; [intros H; contradiction | intros [? _]; contradiction].
Qed.

Section Events.

Variable toLower : string -> string.

(** An event changes the handler only if it is a key-down or a key-up
    with a name. *)
Lemma onEvent_ignores mapKeyToName sinceNow setNow ev h :
  mapKeyToName ev = ""
  \/ (hook.Kind ev <> hook.KeyDown /\ hook.Kind ev <> hook.KeyUp) ->
  onEvent toLower mapKeyToName sinceNow setNow ev h = (h, None).
Proof.
  unfold onEvent. intros [Hname|[Hd Hu]].
  - now rewrite Hname.
  - destruct (String.eqb (mapKeyToName ev) ""); [reflexivity|].
    destruct (hook.Kind ev); congruence.
Qed.

End Events.

(** X10 (the event loop of [Start] with either [mapKeyToName]): an event
    whose key character is not printable and whose raw code is not in
    the platform's table changes nothing in the handler, whatever its
    kind; and for such a character the translator gives the empty name
    exactly when the raw code is not in the table. *)
Theorem unmapped_events_are_invisible (toLower : string -> string)
    (sinceNow setNow : Z) (ev : hook.Event) (h : Handler) :
  printable (hook.Keychar ev) = false ->
  (keymap_linux.rawcodeSwitch (hook.Rawcode ev) = None ->
   onEvent toLower keymap_linux.mapKeyToName sinceNow setNow ev h = (h, None))
  /\ (keymap_windows.mapRawcode (hook.Rawcode ev) = "" ->
      onEvent toLower keymap_windows.mapKeyToName sinceNow setNow ev h
      = (h, None))
  /\ (keymap_linux.mapKeyToName ev = ""
      <-> keymap_linux.rawcodeSwitch (hook.Rawcode ev) = None)
  /\ (keymap_windows.mapKeyToName ev = ""
      <-> keymap_windows.mapRawcode (hook.Rawcode ev) = "").
Proof.
  intros Hp. repeat split.
  - intros Hr. apply onEvent_ignores. left. now apply linux_name_empty_iff.
  - intros Hr. apply onEvent_ignores. left. now apply windows_name_empty_iff.
  - intros H. now apply linux_name_empty_iff in H.
  - intros H. now apply linux_name_empty_iff.
  - intros H. now apply windows_name_empty_iff in H.
  - intros H. now apply windows_name_empty_iff.
Qed.

(** ** The capture dialog *)

Lemma containsKey_spec (keys : list string) (key : string) :
  containsKey keys key = true <-> key ∈ keys.
Proof.
  induction keys as [|k rest IH]; simpl.
  - split; [discriminate | intros H; inversion H].
  - rewrite elem_of_cons. destruct (String.eqb_spec k key) as [->|Hne].
    + split; [now left | reflexivity].
    + rewrite IH. split; [now right | intros [?|?]; congruence].
Qed.

Lemma addToCombo_NoDup keyStr combo :
  NoDup combo -> NoDup (addToCombo keyStr combo).
Proof.
  intros Hnd. unfold addToCombo.
  destruct (containsKey combo keyStr) eqn:Hc; [exact Hnd|].
  apply NoDup_app. split; [exact Hnd|]. split.
  - intros x Hx Hx'. apply list_elem_of_singleton in Hx'. subst x.
    apply containsKey_spec in Hx. congruence.
  - apply NoDup_singleton.
Qed.

Lemma addToCombo_elem keyStr combo key :
  key ∈ addToCombo keyStr combo <-> key = keyStr \/ key ∈ combo.
Proof.
  unfold addToCombo. destruct (containsKey combo keyStr) eqn:Hc.
  - apply containsKey_spec in Hc. split; [now right|].
    intros [->|?]; assumption.
  - rewrite elem_of_app, list_elem_of_singleton. tauto.
Qed.

Lemma addToCombo_nonempty keyStr combo : addToCombo keyStr combo <> [].
Proof.
  unfold addToCombo. destruct (containsKey combo keyStr) eqn:Hc.
  - destruct combo; [discriminate Hc | discriminate].
  - destruct combo; discriminate.
Qed.

Lemma captureInv_add keyStr acc combo held ok held' :
  captureInv acc (mkCapture combo held ok) ->
  captureInv (acc ++ [keyStr]) (mkCapture (addToCombo keyStr combo) held' true).
Proof.
  intros (Hnd & Hel & Hok). simpl in *. repeat split; simpl.
  - now apply addToCombo_NoDup.
  - rewrite addToCombo_elem, elem_of_app, list_elem_of_singleton, Hel. tauto.
  - rewrite addToCombo_elem, elem_of_app, list_elem_of_singleton, Hel. tauto.
  - intros _. apply addToCombo_nonempty.
Qed.

Lemma captureInv_run evs : forall acc c,
  captureInv acc c ->
  captureInv (namesSinceClear evs acc) (dialogRun evs c).
Proof.
  induction evs as [|ev evs IH]; intros acc c Hinv; [exact Hinv|].
  destruct c as [combo held ok].
  destruct ev as [k|k|k|]; simpl; apply IH.
  - now apply (captureInv_add k acc combo held ok).
  - exact Hinv.
  - now apply (captureInv_add k acc combo held ok).
  - repeat split; simpl; try constructor; try discriminate; auto.
Qed.

Lemma captureInv_new : captureInv [] newCapture.
Proof. repeat split; simpl; try constructor; try discriminate; auto. Qed.

(** X11 ([CaptureHotkey], [containsKey]): whatever the user does in the
    dialog, the captured combination lists no key twice and holds exactly
    the names given since the last clear; when OK is enabled the
    combination is not empty, and pressing OK stores it and shows it on
    the button. *)
Theorem captured_combo_has_no_repeats (evs : list DialogEvent)
    (target : list string) :
  NoDup (capturedCombo (dialogRun evs newCapture))
  /\ (forall key, key ∈ capturedCombo (dialogRun evs newCapture)
                  <-> key ∈ namesSinceClear evs [])
  /\ (okEnabled (dialogRun evs newCapture) = true ->
      capturedCombo (dialogRun evs newCapture) <> []
      /\ dialogOk target (dialogRun evs newCapture)
         = (capturedCombo (dialogRun evs newCapture),
            Some (FormatHotkeys (capturedCombo (dialogRun evs newCapture))))).
Proof.
  destruct (captureInv_run evs [] newCapture captureInv_new)
    as (Hnd & Hel & Hok).
  split; [exact Hnd|]. split; [exact Hel|].
  intros Hen. specialize (Hok Hen). split; [exact Hok|].
  unfold dialogOk.
  destruct (capturedCombo (dialogRun evs newCapture)); [contradiction|].
  reflexivity.
Qed.

Lemma NoDup_map_on {A B : Type} (f : A -> B) (l : list A) :
  (forall x y, x ∈ l -> y ∈ l -> f x = f y -> x = y) ->
  NoDup l -> NoDup (map f l).
Proof.
  induction l as [|x l IH]; intros Hinj Hnd; simpl; [apply NoDup_nil_2|].
  apply NoDup_cons in Hnd. destruct Hnd as [Hx Hnd].
  apply NoDup_cons. split.
  - intros Hin. apply list_elem_of_In, in_map_iff in Hin.
    destruct Hin as (y & Heq & Hy). apply list_elem_of_In in Hy.
    assert (y = x); [|now subst].
    apply Hinj; [apply elem_of_cons; now right | apply elem_of_cons; now left
                |exact Heq].
  - apply IH; [|exact Hnd]. intros a b Ha Hb. apply Hinj; apply elem_of_cons;
      now right.
Qed.

(** X12 ([CaptureHotkey] with [matchesCombo]): the dialog keeps equal
    names out of a combination, not names that differ in case only.
    When no two names given to the dialog since the last clear differ
    in case only, the binding that comes out of it does not match a
    held-key set that contains, up to case, its keys and also a key
    that is none of them up to case. *)
Theorem captured_binding_rejects_supersets (toLower : string -> string)
    (evs : list DialogEvent) (h : Handler) :
  (forall name name', name ∈ namesSinceClear evs [] ->
     name' ∈ namesSinceClear evs [] ->
     toLower name = toLower name' -> name = name') ->
  (forall key, key ∈ capturedCombo (dialogRun evs newCapture) ->
     exists pressedKey,
       pressedKey ∈ dom (pressedKeys h)
       /\ toLower pressedKey = toLower key) ->
  (exists extra, extra ∈ dom (pressedKeys h)
                 /\ forall key, key ∈ capturedCombo (dialogRun evs newCapture) ->
                      toLower extra <> toLower key) ->
  matchesCombo toLower h (capturedCombo (dialogRun evs newCapture)) = false.
Proof.
  intros Hcase Hsub Hextra.
  destruct (captureInv_run evs [] newCapture captureInv_new) as (Hnd & Hmem & _).
  assert (Hlow : NoDup (map toLower (capturedCombo (dialogRun evs newCapture)))).
  { apply NoDup_map_on; [|exact Hnd].
    intros x y Hx Hy. apply Hcase; now apply Hmem. }
  pose proof (lowered_superset_size toLower _ _ Hlow Hsub Hextra) as Hlt.
  destruct (matchesCombo toLower h _) eqn:Hm; [|reflexivity].
  apply matchesCombo_spec in Hm. lia.
Qed.

(** ** Loading the configuration *)

Lemma orDefault_nonempty keys def :
  def <> [] -> config.orDefault keys def <> [].
Proof.
  intros Hd. unfold config.orDefault. destruct keys; simpl; [exact Hd|discriminate].
Qed.

Lemma orDefault_keeps keys def :
  keys <> [] -> config.orDefault keys def = keys.
Proof.
  intros Hk. unfold config.orDefault. destruct keys; simpl; [contradiction|reflexivity].
Qed.

Section LoadFacts.

Variable float64 : Type.
Variable one : float64.
Variable isZero : float64 -> bool.
Variable defaultHotkeys : config.Hotkeys.
Variable Unmarshal : string -> option (config.Config float64).

Lemma fillHotkeys_allBound hk :
  allBound defaultHotkeys ->
  allBound (config.fillHotkeys float64 one defaultHotkeys hk).
Proof.
  intros (H1 & H2 & H3 & H4 & H5 & H6 & H7 & H8).
  repeat split; simpl; now apply orDefault_nonempty.
Qed.

End LoadFacts.

(** X13 ([config.Load]): when the platform's defaults bind every action,
    a configuration that [Load] returns without error binds every action
    to at least one key and names a statistics period and grouping; its
    volume is not zero (as long as the default volume is not); so the
    handler built from it has no empty binding. *)
Theorem Load_leaves_nothing_unset (float64 : Type) (one : float64)
    (isZero : float64 -> bool) (defaultHotkeys : config.Hotkeys)
    (Unmarshal : string -> option (config.Config float64))
    (file : config.ReadResult) (cfg : config.Config float64) :
  allBound defaultHotkeys ->
  config.Load float64 one isZero defaultHotkeys Unmarshal file
  = config.Loaded float64 cfg ->
  allBound (config.Hotkeys_ float64 cfg)
  /\ config.StatsPeriod float64 cfg <> ""
  /\ config.StatsGroup float64 cfg <> ""
  /\ (isZero one = false -> isZero (config.SoundVolume float64 cfg) = false)
  /\ (forall a, bindingOf (bindingsOfHotkeys (config.Hotkeys_ float64 cfg)) a = []
                -> a = ActionNone).
Proof.
  intros Hdef Hload.
  assert (Hcfg : allBound (config.Hotkeys_ float64 cfg)
                 /\ config.StatsPeriod float64 cfg <> ""
                 /\ config.StatsGroup float64 cfg <> ""
                 /\ (isZero one = false ->
                     isZero (config.SoundVolume float64 cfg) = false)).
  { unfold config.Load in Hload. destruct file as [data| |].
    - destruct (Unmarshal data) as [parsed|]; [|discriminate].
      injection Hload as <-. simpl. split; [now apply fillHotkeys_allBound|].
      split; [|split].
      + destruct (String.eqb_spec (config.StatsPeriod float64 parsed) "");
          [discriminate | assumption].
      + destruct (String.eqb_spec (config.StatsGroup float64 parsed) "");
          [discriminate | assumption].
      + intros Hone.
        destruct (isZero (config.SoundVolume float64 parsed)) eqn:Hz;
          [exact Hone | exact Hz].
    - injection Hload as <-. simpl. split; [exact Hdef|].
      split; [discriminate|]. split; [discriminate|]. tauto.
    - discriminate. }
  destruct Hcfg as (Hb & Hp & Hg & Hv).
  repeat split; try assumption; try apply Hb.
  intros a Ha. destruct Hb as (H1 & H2 & H3 & H4 & H5 & H6 & H7 & H8).
  destruct a; simpl in Ha; congruence.
Qed.

(** X14 ([config.Load]): a file whose configuration sets every hotkey,
    the volume, the period and the grouping is returned as parsed. *)
Theorem Load_keeps_what_is_set (float64 : Type) (one : float64)
    (isZero : float64 -> bool) (defaultHotkeys : config.Hotkeys)
    (Unmarshal : string -> option (config.Config float64))
    (data : string) (parsed : config.Config float64) :
  Unmarshal data = Some parsed ->
  allBound (config.Hotkeys_ float64 parsed) ->
  isZero (config.SoundVolume float64 parsed) = false ->
  config.StatsPeriod float64 parsed <> "" ->
  config.StatsGroup float64 parsed <> "" ->
  config.Load float64 one isZero defaultHotkeys Unmarshal (config.ReadData data)
  = config.Loaded float64 parsed.
Proof.
  intros Hu (H1 & H2 & H3 & H4 & H5 & H6 & H7 & H8) Hv Hp Hg.
  unfold config.Load. rewrite Hu. f_equal.
  unfold config.fillMissing, config.fillHotkeys. rewrite Hv.
  rewrite !orDefault_keeps by assumption.
  destruct (String.eqb_spec (config.StatsPeriod float64 parsed) "");
    [contradiction|].
  destruct (String.eqb_spec (config.StatsGroup float64 parsed) "");
    [contradiction|].
  destruct parsed as [g se sv mt hk sp sg]. simpl. now destruct hk.
Qed.

(** ** The default hotkeys *)

(** X15 ([defaultHotkeys] with [mapKeyToName], per platform): every key
    name in the default bindings of a platform is, up to case, a name
    that platform's translator gives to some key. *)
Theorem default_hotkeys_are_typeable (a : ActionType) (key : string) :
  (key ∈ bindingOf (bindingsOfHotkeys config.defaultHotkeys_linux) a ->
   typeable (fun k => linux_name k hook.KeyDown 0) key = true)
  /\ (key ∈ bindingOf (bindingsOfHotkeys config.defaultHotkeys_windows) a ->
      typeable (fun k => windows_name k hook.KeyDown 0) key = true).
Proof.
  split; intros Hin; destruct a; simpl in Hin;
    repeat (apply elem_of_cons in Hin; destruct Hin as [->|Hin];
            [vm_compute; reflexivity|]);
    inversion Hin.
Qed.

Section Exclusive.

Variable toLower : string -> string.

Lemma matches_lowered_subset (h : Handler) (keys : list string) :
  matchesCombo toLower h keys = true ->
  forall l, l ∈ map toLower keys -> l ∈ loweredHeld toLower h.
Proof.
  intros Hm l Hl. apply matchesCombo_spec in Hm. destruct Hm as [Hall _].
  apply list_elem_of_In, in_map_iff in Hl. destruct Hl as (key & <- & Hin).
  apply list_elem_of_In in Hin.
  destruct (Hall key Hin) as (p & Hp & Hpl). rewrite <- Hpl.
  apply elem_of_dom in Hp. destruct Hp as [v Hv].
  unfold loweredHeld. apply list_elem_of_In, in_map, in_map_iff.
  exists (p, v). split; [reflexivity|].
  apply list_elem_of_In. now apply elem_of_map_to_list.
Qed.

(** Two bindings that match the same held-key set have, between them,
    no more distinct lowered names than there are held keys. *)
Lemma both_match_bound (h : Handler) (keys keys' : list string) :
  matchesCombo toLower h keys = true ->
  matchesCombo toLower h keys' = true ->
  (size (list_to_set (C := gset string) (map toLower (keys ++ keys')))
   <= length keys)%nat.
Proof.
  intros Hm Hm'.
  pose proof (matches_lowered_subset h keys Hm) as Hs.
  pose proof (matches_lowered_subset h keys' Hm') as Hs'.
  apply matchesCombo_spec in Hm. destruct Hm as [_ Hsize].
  rewrite <- Hsize.
  transitivity (size (list_to_set (C := gset string) (loweredHeld toLower h))).
  - apply subseteq_size. intros l Hl. apply elem_of_list_to_set in Hl.
    apply elem_of_list_to_set. rewrite map_app in Hl.
    apply elem_of_app in Hl. destruct Hl as [Hl|Hl]; [now apply Hs | now apply Hs'].
  - rewrite <- (length_map_to_list (pressedKeys h)).
    replace (length (map_to_list (pressedKeys h)))
      with (length (loweredHeld toLower h)) by (unfold loweredHeld; now rewrite !length_map).
    apply size_list_to_set_le.
Qed.

(** Two actions whose bindings have more distinct names between them
    than the first binding has keys never match together. *)
Lemma exclusive_by_count (h : Handler) (keys keys' : list string) :
  (length keys
   < size (list_to_set (C := gset string) (map toLower (keys ++ keys'))))%nat ->
  matchesCombo toLower h keys = true ->
  matchesCombo toLower h keys' = false.
Proof.
  intros Hlt Hm. destruct (matchesCombo toLower h keys') eqn:Hm'; [|reflexivity].
  pose proof (both_match_bound h keys keys' Hm Hm'). lia.
Qed.

End Exclusive.

(** X16 ([defaultHotkeys] with [matchesCombo]): with the default hotkeys
    of either platform, no set of held keys matches the bindings of two
    different actions. *)
Theorem default_hotkeys_are_exclusive (h : Handler) (a a' : ActionType) :
  bindings h = bindingsOfHotkeys config.defaultHotkeys_linux
  \/ bindings h = bindingsOfHotkeys config.defaultHotkeys_windows ->
  a <> ActionNone -> a' <> ActionNone -> a <> a' ->
  matchesCombo strings.ToLower h (bindingOf (bindings h) a) = true ->
  matchesCombo strings.ToLower h (bindingOf (bindings h) a') = false.
Proof.
  intros Hb Ha Ha' Hne.
  apply exclusive_by_count.
  destruct Hb as [-> | ->]; destruct a, a'; try congruence;
    vm_compute; lia.
Qed.

(** ** The tracker *)

Lemma core_emit e tr : core (tracker.emit e tr) = core tr.
Proof. reflexivity. Qed.

Lemma core_notifyTeam x tr : core (tracker.notifyTeam x tr) = core tr.
Proof. unfold tracker.notifyTeam. now destruct (tracker.hasOnTeamChange tr). Qed.

Lemma core_SelectCT tr :
  core (tracker.SelectCT tr)
  = (tracker.ctWins tr, tracker.tWins tr, database.TeamCT,
     tracker.games tr, tracker.maxEntryText tr).
Proof. unfold tracker.SelectCT. now rewrite core_notifyTeam. Qed.

Lemma core_SelectT tr :
  core (tracker.SelectT tr)
  = (tracker.ctWins tr, tracker.tWins tr, database.TeamT,
     tracker.games tr, tracker.maxEntryText tr).
Proof. unfold tracker.SelectT. now rewrite core_notifyTeam. Qed.

Lemma core_SwapTeams tr :
  core (tracker.SwapTeams tr)
  = (tracker.tWins tr, tracker.ctWins tr, otherTeam (tracker.team tr),
     tracker.games tr, tracker.maxEntryText tr).
Proof.
  unfold tracker.SwapTeams, otherTeam. simpl.
  destruct (String.eqb (tracker.team tr) database.TeamCT);
    [now rewrite core_notifyTeam|].
  destruct (String.eqb (tracker.team tr) database.TeamT);
    [now rewrite core_notifyTeam | reflexivity].
Qed.

Lemma core_DecrementCT tr :
  core (tracker.DecrementCT tr)
  = (if 0 <? tracker.ctWins tr then tracker.ctWins tr - 1 else tracker.ctWins tr,
     tracker.tWins tr, tracker.team tr, tracker.games tr,
     tracker.maxEntryText tr).
Proof. unfold tracker.DecrementCT. now destruct (0 <? tracker.ctWins tr). Qed.

Lemma core_DecrementT tr :
  core (tracker.DecrementT tr)
  = (tracker.ctWins tr,
     if 0 <? tracker.tWins tr then tracker.tWins tr - 1 else tracker.tWins tr,
     tracker.team tr, tracker.games tr, tracker.maxEntryText tr).
Proof. unfold tracker.DecrementT. now destruct (0 <? tracker.tWins tr). Qed.

Lemma core_Reset tr :
  core (tracker.Reset tr)
  = (0, 0, tracker.team tr, tracker.games tr, tracker.maxEntryText tr).
Proof. reflexivity. Qed.

Lemma core_playMatchEndSound tr :
  core (tracker.playMatchEndSound tr) = core tr.
Proof.
  unfold tracker.playMatchEndSound.
  destruct (String.eqb (tracker.team tr) database.TeamCT).
  - now destruct (tracker.tWins tr <? tracker.ctWins tr).
  - destruct (String.eqb (tracker.team tr) database.TeamT); [|reflexivity].
    now destruct (tracker.ctWins tr <? tracker.tWins tr).
Qed.

Section TrackerFacts.


Variable Atoi : string -> option Z.

Lemma validScore_pos text g : tracker.validScore Atoi text = Some g -> 0 < g.
Proof.
  unfold tracker.validScore. destruct (Atoi text) as [n|]; [|discriminate].
  destruct (n <=? 0) eqn:Hn; [discriminate|].
  intros [= <-]. now apply Z.leb_gt in Hn.
Qed.

Lemma core_HandleDone dbOk tr :
  core (tracker.HandleDone Atoi dbOk tr)
  = match tracker.validScore Atoi (tracker.maxEntryText tr) with
    | Some g =>
        if dbOk
        then (0, 0, tracker.team tr, tracker.games tr ++ [gameNow g tr],
              tracker.maxEntryText tr)
        else core tr
    | None => core tr
    end.
Proof.
  unfold tracker.HandleDone.
  destruct (tracker.validScore Atoi (tracker.maxEntryText tr)) as [g|];
    [|reflexivity].
  destruct dbOk; [|reflexivity].
  unfold tracker.resetScores, tracker.updateLabels.
  rewrite core_emit. unfold core at 1. simpl.
  pose proof (core_playMatchEndSound (tracker.saveGame g tr)) as Hc.
  unfold core in Hc. simpl in Hc. injection Hc as _ _ -> -> ->. reflexivity.
Qed.

Lemma core_checkAutoSave dbOk tr :
  core (tracker.checkAutoSave Atoi dbOk tr)
  = match tracker.validScore Atoi (tracker.maxEntryText tr) with
    | Some g =>
        if reached g tr && dbOk
        then (0, 0, tracker.team tr, tracker.games tr ++ [gameNow g tr],
              tracker.maxEntryText tr)
        else core tr
    | None => core tr
    end.
Proof.
  unfold tracker.checkAutoSave, reached.
  destruct (tracker.validScore Atoi (tracker.maxEntryText tr)) as [g|] eqn:Hg;
    [|reflexivity].
  destruct ((g <=? tracker.ctWins tr) || (g <=? tracker.tWins tr));
    [|reflexivity].
  rewrite core_HandleDone, Hg. now destruct dbOk.
Qed.

Lemma core_IncrementCT dbOk tr :
  core (tracker.IncrementCT Atoi dbOk tr)
  = match tracker.validScore Atoi (tracker.maxEntryText tr) with
    | Some g =>
        if g <=? tracker.ctWins tr then core tr
        else if reached g (bumpCT tr) && dbOk
        then (0, 0, tracker.team tr,
              tracker.games tr ++ [gameNow g (bumpCT tr)],
              tracker.maxEntryText tr)
        else core (bumpCT tr)
    | None => core tr
    end.
Proof.
  unfold tracker.IncrementCT.
  destruct (tracker.validScore Atoi (tracker.maxEntryText tr)) as [g|] eqn:Hg;
    [|reflexivity].
  destruct (g <=? tracker.ctWins tr); [reflexivity|].
  fold (bumpCT tr). rewrite core_checkAutoSave.
  change (tracker.maxEntryText (bumpCT tr)) with (tracker.maxEntryText tr).
  now rewrite Hg.
Qed.

Lemma core_IncrementT dbOk tr :
  core (tracker.IncrementT Atoi dbOk tr)
  = match tracker.validScore Atoi (tracker.maxEntryText tr) with
    | Some g =>
        if g <=? tracker.tWins tr then core tr
        else if reached g (bumpT tr) && dbOk
        then (0, 0, tracker.team tr,
              tracker.games tr ++ [gameNow g (bumpT tr)],
              tracker.maxEntryText tr)
        else core (bumpT tr)
    | None => core tr
    end.
Proof.
  unfold tracker.IncrementT.
  destruct (tracker.validScore Atoi (tracker.maxEntryText tr)) as [g|] eqn:Hg;
    [|reflexivity].
  destruct (g <=? tracker.tWins tr); [reflexivity|].
  fold (bumpT tr). rewrite core_checkAutoSave.
  change (tracker.maxEntryText (bumpT tr)) with (tracker.maxEntryText tr).
  now rewrite Hg.
Qed.

Lemma reached_spec g tr :
  reached g tr = true <-> g <= tracker.ctWins tr \/ g <= tracker.tWins tr.
Proof. unfold reached. rewrite orb_true_iff, !Z.leb_le. tauto. Qed.

Lemma trackerInv_increment text g strict dbOk tr (ct' t' : Z) :
  0 < g ->
  (strict = true -> dbOk = true) ->
  trackerInv text g strict tr ->
  (ct' = tracker.ctWins tr + 1 /\ t' = tracker.tWins tr /\ tracker.ctWins tr < g
   \/ ct' = tracker.ctWins tr /\ t' = tracker.tWins tr + 1 /\ tracker.tWins tr < g) ->
  coreInv text g strict
    (if ((g <=? ct') || (g <=? t')) && dbOk
     then (0, 0, tracker.team tr,
           tracker.games tr ++ [database.mkGame ct' t' g (tracker.team tr)],
           tracker.maxEntryText tr)
     else (ct', t', tracker.team tr, tracker.games tr, tracker.maxEntryText tr)).
Proof.
  intros Hpos Hok (Htext & Hct & Ht & Hgames & Hstrict) Hbump.
  destruct (((g <=? ct') || (g <=? t')) && dbOk) eqn:Hsave.
  - apply andb_true_iff in Hsave. destruct Hsave as [Hr _].
    apply orb_true_iff in Hr. rewrite !Z.leb_le in Hr.
    split; [exact Htext|]. split; [lia|]. split; [lia|]. split.
    + apply Forall_app. split; [exact Hgames|].
      apply List.Forall_cons; [|apply List.Forall_nil].
      unfold finished; simpl. lia.
    + intros Hs. destruct (Hstrict Hs) as (Hc & Htt & Hdec).
      split; [lia|]. split; [lia|].
      apply Forall_app. split; [exact Hdec|].
      apply List.Forall_cons; [|apply List.Forall_nil].
      unfold decided, finished; simpl. lia.
  - split; [exact Htext|]. split; [lia|]. split; [lia|].
    split; [exact Hgames|].
    intros Hs. destruct (Hstrict Hs) as (Hc & Htt & Hdec).
    rewrite (Hok Hs), andb_true_r in Hsave.
    apply orb_false_iff in Hsave. rewrite !Z.leb_gt in Hsave.
    split; [lia|]. split; [lia|]. exact Hdec.
Qed.

Lemma trackerInv_onAction text g strict action dbOk tr :
  tracker.validScore Atoi text = Some g ->
  (strict = true -> dbOk = true) ->
  trackerInv text g strict tr ->
  trackerInv text g strict (tracker.onAction Atoi action dbOk tr).
Proof.
  intros Hg Hok Hinv.
  pose proof (validScore_pos text g Hg) as Hpos.
  pose proof Hinv as (Htext & Hct & Ht & Hgames & Hstrict).
  simpl in Htext. subst text.
  unfold trackerInv. destruct action; cbn [tracker.onAction].
  - exact Hinv.
  - rewrite core_IncrementCT, Hg.
    destruct (g <=? tracker.ctWins tr) eqn:Hfull; [exact Hinv|].
    apply Z.leb_gt in Hfull.
    apply (trackerInv_increment _ g strict dbOk tr
             (tracker.ctWins tr + 1) (tracker.tWins tr) Hpos Hok Hinv).
    left. now repeat split.
  - rewrite core_DecrementCT. split; [reflexivity|].
    destruct (0 <? tracker.ctWins tr) eqn:Hz;
      [apply Z.ltb_lt in Hz | apply Z.ltb_ge in Hz];
      (split; [lia|]; split; [lia|]; split; [exact Hgames|];
       intros Hs; destruct (Hstrict Hs) as (? & ? & ?);
       split; [lia|]; split; [lia|]; assumption).
  - rewrite core_IncrementT, Hg.
    destruct (g <=? tracker.tWins tr) eqn:Hfull; [exact Hinv|].
    apply Z.leb_gt in Hfull.
    apply (trackerInv_increment _ g strict dbOk tr
             (tracker.ctWins tr) (tracker.tWins tr + 1) Hpos Hok Hinv).
    right. now repeat split.
  - rewrite core_DecrementT. split; [reflexivity|].
    destruct (0 <? tracker.tWins tr) eqn:Hz;
      [apply Z.ltb_lt in Hz | apply Z.ltb_ge in Hz];
      (split; [lia|]; split; [lia|]; split; [exact Hgames|];
       intros Hs; destruct (Hstrict Hs) as (? & ? & ?);
       split; [lia|]; split; [lia|]; assumption).
  - rewrite core_Reset. split; [reflexivity|].
    split; [lia|]. split; [lia|]. split; [exact Hgames|].
    intros Hs. destruct (Hstrict Hs) as (? & ? & ?).
    split; [lia|]. split; [lia|]. assumption.
  - rewrite core_SelectCT. exact Hinv.
  - rewrite core_SelectT. exact Hinv.
  - rewrite core_SwapTeams. split; [reflexivity|].
    split; [lia|]. split; [lia|]. split; [exact Hgames|].
    intros Hs. destruct (Hstrict Hs) as (? & ? & ?).
    split; [lia|]. split; [lia|]. assumption.
Qed.

Lemma core_saveGameScoreConfig value tr :
  core (tracker.saveGameScoreConfig Atoi value tr) = core tr.
Proof.
  unfold tracker.saveGameScoreConfig.
  destruct (tracker.validScore Atoi value) as [n|]; [|reflexivity].
  now destruct (n =? tracker.configGameScore tr).
Qed.

Lemma trackerInv_input text g strict i tr :
  tracker.validScore Atoi text = Some g ->
  tracker.keepsEntry i = true ->
  (strict = true -> tracker.saveSucceeds i = true) ->
  trackerInv text g strict tr ->
  trackerInv text g strict (tracker.input Atoi i tr).
Proof.
  intros Hg Hkeep Hok Hinv.
  destruct i as [action dbOk|newTeam|value|]; cbn [tracker.input].
  - now apply trackerInv_onAction.
  - exact Hinv.
  - discriminate Hkeep.
  - exact Hinv.
Qed.

Lemma trackerInv_inputs text g strict ins : forall tr,
  tracker.validScore Atoi text = Some g ->
  forallb tracker.keepsEntry ins = true ->
  (strict = true -> forallb tracker.saveSucceeds ins = true) ->
  trackerInv text g strict tr ->
  trackerInv text g strict (tracker.inputs Atoi ins tr).
Proof.
  induction ins as [|i ins IH]; intros tr Hg Hkeep Hok Hinv; [exact Hinv|].
  simpl in Hkeep. apply andb_true_iff in Hkeep. destruct Hkeep as [Hk Hks].
  simpl. apply IH; try assumption.
  - intros Hs. specialize (Hok Hs). simpl in Hok.
    now apply andb_true_iff in Hok.
  - apply trackerInv_input; try assumption.
    intros Hs. specialize (Hok Hs). simpl in Hok.
    now apply andb_true_iff in Hok.
Qed.

End TrackerFacts.

Section MoreTrackerFacts.

Variable Atoi : string -> option Z.

Lemma nonneg_of_core tr (c : Z * Z * string * list database.Game * string) :
  core tr = c ->
  (let '(ct, t, _, _, _) := c in 0 <= ct /\ 0 <= t) -> nonneg tr.
Proof.
  destruct c as [[[[ct t] tm] gs] txt]. unfold core.
  intros [= <- <- _ _ _] H. exact H.
Qed.

Lemma nonneg_increment g dbOk tr tr' :
  nonneg tr -> nonneg tr' ->
  (let '(ct, t, _, _, _) :=
     if reached g tr' && dbOk
     then (0, 0, tracker.team tr, tracker.games tr ++ [gameNow g tr'],
           tracker.maxEntryText tr)
     else core tr' in
   0 <= ct /\ 0 <= t).
Proof.
  intros Hn Hn'. destruct (reached g tr' && dbOk); [lia | exact Hn'].
Qed.

Lemma nonneg_input i tr : nonneg tr -> nonneg (tracker.input Atoi i tr).
Proof.
  intros Hn. pose proof Hn as [Hc Ht].
  destruct i as [action dbOk|newTeam|value|]; cbn [tracker.input].
  - destruct action; cbn [tracker.onAction].
    + exact Hn.
    + apply (nonneg_of_core _ _ (core_IncrementCT Atoi dbOk tr)).
      destruct (tracker.validScore Atoi _) as [g|]; [|exact Hn].
      destruct (_ <=? _); [exact Hn|].
      apply nonneg_increment; [exact Hn|]. unfold nonneg; simpl. lia.
    + apply (nonneg_of_core _ _ (core_DecrementCT tr)).
      destruct (0 <? tracker.ctWins tr) eqn:Hz;
        [apply Z.ltb_lt in Hz|]; lia.
    + apply (nonneg_of_core _ _ (core_IncrementT Atoi dbOk tr)).
      destruct (tracker.validScore Atoi _) as [g|]; [|exact Hn].
      destruct (_ <=? _); [exact Hn|].
      apply nonneg_increment; [exact Hn|]. unfold nonneg; simpl. lia.
    + apply (nonneg_of_core _ _ (core_DecrementT tr)).
      destruct (0 <? tracker.tWins tr) eqn:Hz;
        [apply Z.ltb_lt in Hz|]; lia.
    + apply (nonneg_of_core _ _ (core_Reset tr)). lia.
    + apply (nonneg_of_core _ _ (core_SelectCT tr)). lia.
    + apply (nonneg_of_core _ _ (core_SelectT tr)). lia.
    + apply (nonneg_of_core _ _ (core_SwapTeams tr)). lia.
  - exact Hn.
  - unfold tracker.entryChanged.
    apply (nonneg_of_core _ _ (core_saveGameScoreConfig Atoi value _)).
    exact Hn.
  - exact Hn.
Qed.

Lemma nonneg_inputs ins : forall tr,
  nonneg tr -> nonneg (tracker.inputs Atoi ins tr).
Proof.
  induction ins as [|i ins IH]; intros tr Hn; [exact Hn|].
  simpl. apply IH. now apply nonneg_input.
Qed.

Lemma frozen_of_core text saved total tr
    (c : Z * Z * string * list database.Game * string) :
  core tr = c ->
  (let '(ct, t, _, gs, txt) := c in
   txt = text /\ gs = saved /\ (0 <= ct /\ 0 <= t) /\ ct + t <= total) ->
  frozen text saved total tr.
Proof.
  destruct c as [[[[ct t] tm] gs] txt]. unfold core.
  intros [= <- <- _ <- <-] H. exact H.
Qed.

Lemma frozen_input text saved total i tr :
  tracker.validScore Atoi text = None ->
  tracker.keepsEntry i = true ->
  frozen text saved total tr ->
  frozen text saved total (tracker.input Atoi i tr).
Proof.
  intros Hbad Hkeep Hf. pose proof Hf as (Htext & Hgames & [Hc Ht] & Hsum).
  destruct i as [action dbOk|newTeam|value|]; cbn [tracker.input];
    [|exact Hf|discriminate Hkeep|exact Hf].
  destruct action; cbn [tracker.onAction].
  - exact Hf.
  - apply (frozen_of_core _ _ _ _ _ (core_IncrementCT Atoi dbOk tr)).
    rewrite Htext, Hbad. exact Hf.
  - apply (frozen_of_core _ _ _ _ _ (core_DecrementCT tr)).
    destruct (0 <? tracker.ctWins tr) eqn:Hz;
      [apply Z.ltb_lt in Hz|]; repeat split; try assumption; lia.
  - apply (frozen_of_core _ _ _ _ _ (core_IncrementT Atoi dbOk tr)).
    rewrite Htext, Hbad. exact Hf.
  - apply (frozen_of_core _ _ _ _ _ (core_DecrementT tr)).
    destruct (0 <? tracker.tWins tr) eqn:Hz;
      [apply Z.ltb_lt in Hz|]; repeat split; try assumption; lia.
  - apply (frozen_of_core _ _ _ _ _ (core_Reset tr)).
    repeat split; try assumption; lia.
  - apply (frozen_of_core _ _ _ _ _ (core_SelectCT tr)).
    repeat split; try assumption; lia.
  - apply (frozen_of_core _ _ _ _ _ (core_SelectT tr)).
    repeat split; try assumption; lia.
  - apply (frozen_of_core _ _ _ _ _ (core_SwapTeams tr)).
    repeat split; try assumption; lia.
Qed.

Lemma frozen_inputs text saved total ins : forall tr,
  tracker.validScore Atoi text = None ->
  forallb tracker.keepsEntry ins = true ->
  frozen text saved total tr ->
  frozen text saved total (tracker.inputs Atoi ins tr).
Proof.
  induction ins as [|i ins IH]; intros tr Hbad Hkeep Hf; [exact Hf|].
  simpl in Hkeep. apply andb_true_iff in Hkeep. destruct Hkeep as [Hk Hks].
  simpl. apply IH; try assumption. now apply frozen_input.
Qed.

Lemma configInv_emit e tr :
  positiveSave e -> configInv tr -> configInv (tracker.emit e tr).
Proof.
  intros He [Hc Hf]. split; [exact Hc|]. simpl.
  apply Forall_app. split; [exact Hf|].
  apply List.Forall_cons; [exact He | apply List.Forall_nil].
Qed.

Lemma configInv_same tr tr' :
  tracker.configGameScore tr' = tracker.configGameScore tr ->
  tracker.effects tr' = tracker.effects tr ->
  configInv tr -> configInv tr'.
Proof. unfold configInv. intros -> ->. tauto. Qed.

Lemma configInv_notifyTeam x tr :
  configInv tr -> configInv (tracker.notifyTeam x tr).
Proof.
  intros H. unfold tracker.notifyTeam.
  destruct (tracker.hasOnTeamChange tr); [|exact H].
  now apply configInv_emit.
Qed.

Lemma configInv_playMatchEndSound tr :
  configInv tr -> configInv (tracker.playMatchEndSound tr).
Proof.
  intros H. unfold tracker.playMatchEndSound.
  repeat match goal with
         | |- context [if ?c then _ else _] => destruct c
         end; now apply configInv_emit.
Qed.

Lemma configInv_HandleDone dbOk tr :
  configInv tr -> configInv (tracker.HandleDone Atoi dbOk tr).
Proof.
  intros H. unfold tracker.HandleDone.
  destruct (tracker.validScore Atoi _); [|now apply configInv_emit].
  destruct dbOk; [|now apply configInv_emit].
  unfold tracker.resetScores, tracker.updateLabels.
  apply configInv_emit; [exact I|].
  eapply configInv_same with (tr := tracker.playMatchEndSound _);
    [reflexivity | reflexivity |].
  apply configInv_playMatchEndSound.
  eapply configInv_same; [| |exact H]; reflexivity.
Qed.

Lemma configInv_checkAutoSave dbOk tr :
  configInv tr -> configInv (tracker.checkAutoSave Atoi dbOk tr).
Proof.
  intros H. unfold tracker.checkAutoSave.
  destruct (tracker.validScore Atoi _); [|exact H].
  destruct (_ || _); [now apply configInv_HandleDone | exact H].
Qed.

Lemma configInv_input i tr :
  configInv tr -> configInv (tracker.input Atoi i tr).
Proof.
  intros H. destruct i as [action dbOk|newTeam|value|]; cbn [tracker.input].
  - destruct action; cbn [tracker.onAction].
    + exact H.
    + unfold tracker.IncrementCT.
      destruct (tracker.validScore Atoi _); [|exact H].
      destruct (_ <=? _); [exact H|].
      apply configInv_checkAutoSave. unfold tracker.updateLabels.
      repeat (apply configInv_emit; [exact I|]).
      eapply configInv_same; [| |exact H]; reflexivity.
    + unfold tracker.DecrementCT. destruct (0 <? _); [|exact H].
      unfold tracker.updateLabels.
      repeat (apply configInv_emit; [exact I|]).
      eapply configInv_same; [| |exact H]; reflexivity.
    + unfold tracker.IncrementT.
      destruct (tracker.validScore Atoi _); [|exact H].
      destruct (_ <=? _); [exact H|].
      apply configInv_checkAutoSave. unfold tracker.updateLabels.
      repeat (apply configInv_emit; [exact I|]).
      eapply configInv_same; [| |exact H]; reflexivity.
    + unfold tracker.DecrementT. destruct (0 <? _); [|exact H].
      unfold tracker.updateLabels.
      repeat (apply configInv_emit; [exact I|]).
      eapply configInv_same; [| |exact H]; reflexivity.
    + unfold tracker.Reset, tracker.updateLabels.
      repeat (apply configInv_emit; [exact I|]).
      eapply configInv_same; [| |exact H]; reflexivity.
    + unfold tracker.SelectCT. apply configInv_notifyTeam.
      apply configInv_emit; [exact I|].
      eapply configInv_same; [| |exact H]; reflexivity.
    + unfold tracker.SelectT. apply configInv_notifyTeam.
      apply configInv_emit; [exact I|].
      eapply configInv_same; [| |exact H]; reflexivity.
    + unfold tracker.SwapTeams, tracker.updateLabels.
      assert (Hs : configInv
                (tracker.emit tracker.UpdateLabels
                   (tracker.setScores (tracker.tWins tr) (tracker.ctWins tr) tr))).
      { apply configInv_emit; [exact I|].
        eapply configInv_same; [| |exact H]; reflexivity. }
      cbv zeta.
      repeat match goal with
             | |- context [if String.eqb ?a ?b then _ else _] =>
                 destruct (String.eqb a b)
             end; try exact Hs;
        apply configInv_notifyTeam; apply configInv_emit; try exact I;
        (eapply configInv_same; [| |exact Hs]; reflexivity).
  - eapply configInv_same; [| |exact H]; reflexivity.
  - unfold tracker.entryChanged, tracker.saveGameScoreConfig.
    destruct (tracker.validScore Atoi value) as [n|] eqn:Hv;
      [|eapply configInv_same; [| |exact H]; reflexivity].
    cbn [tracker.configGameScore].
    destruct (n =? tracker.configGameScore tr);
      [eapply configInv_same; [| |exact H]; reflexivity|].
    pose proof (validScore_pos Atoi value n Hv) as Hpos.
    apply configInv_emit; [exact Hpos|].
    destruct H as [_ Hf]. split; [exact Hpos | exact Hf].
  - eapply configInv_same; [| |exact H]; reflexivity.
Qed.

Lemma configInv_inputs ins : forall tr,
  configInv tr -> configInv (tracker.inputs Atoi ins tr).
Proof.
  induction ins as [|i ins IH]; intros tr H; [exact H|].
  simpl. apply IH. now apply configInv_input.
Qed.

End MoreTrackerFacts.

(** *** With the entry edited along the way *)

Lemma savedOk_mono top top' gm : top <= top' -> savedOk top gm -> savedOk top' gm.
Proof. unfold savedOk. lia. Qed.

Section RangeFacts.

Variable Atoi : string -> option Z.

Lemma scoreOf_nonneg text : 0 <= scoreOf Atoi text.
Proof.
  unfold scoreOf. destruct (tracker.validScore Atoi text) as [g|] eqn:Hg; [|lia].
  pose proof (validScore_pos Atoi text g Hg). lia.
Qed.

Lemma rangeInv_mono top top' c :
  top <= top' -> rangeInv Atoi top c -> rangeInv Atoi top' c.
Proof.
  destruct c as [[[[ct t] team] games] txt]. intros Hle (Hc & Ht & Hs & Hg).
  split; [lia|]. split; [lia|]. split; [lia|].
  revert Hg. apply List.Forall_impl. intros gm. now apply savedOk_mono.
Qed.

(** An increment, and the save it may trigger. *)
Lemma rangeInv_increment top g dbOk tr (ct' t' : Z) :
  tracker.validScore Atoi (tracker.maxEntryText tr) = Some g ->
  rangeInv Atoi top (core tr) ->
  (ct' = tracker.ctWins tr + 1 /\ t' = tracker.tWins tr /\ tracker.ctWins tr < g
   \/ ct' = tracker.ctWins tr /\ t' = tracker.tWins tr + 1 /\ tracker.tWins tr < g) ->
  rangeInv Atoi top
    (if ((g <=? ct') || (g <=? t')) && dbOk
     then (0, 0, tracker.team tr,
           tracker.games tr ++ [database.mkGame ct' t' g (tracker.team tr)],
           tracker.maxEntryText tr)
     else (ct', t', tracker.team tr, tracker.games tr, tracker.maxEntryText tr)).
Proof.
  intros Hg (Hc & Ht & Hs & Hgames) Hbump.
  pose proof (validScore_pos Atoi _ g Hg) as Hpos.
  unfold scoreOf in Hs. rewrite Hg in Hs.
  destruct (((g <=? ct') || (g <=? t')) && dbOk) eqn:Hsave.
  - apply andb_true_iff in Hsave. destruct Hsave as [Hr _].
    apply orb_true_iff in Hr. rewrite !Z.leb_le in Hr.
    split; [lia|]. split; [lia|].
    split; [unfold scoreOf; rewrite Hg; lia|].
    apply Forall_app. split; [exact Hgames|].
    apply List.Forall_cons; [|apply List.Forall_nil].
    unfold savedOk; simpl. lia.
  - split; [lia|]. split; [lia|].
    split; [unfold scoreOf; rewrite Hg; lia|]. exact Hgames.
Qed.

Lemma rangeInv_onAction top action dbOk tr :
  rangeInv Atoi top (core tr) ->
  rangeInv Atoi top (core (tracker.onAction Atoi action dbOk tr)).
Proof.
  intros Hinv. pose proof Hinv as (Hc & Ht & Hs & Hgames).
  destruct action; cbn [tracker.onAction].
  - exact Hinv.
  - rewrite core_IncrementCT.
    destruct (tracker.validScore Atoi (tracker.maxEntryText tr)) as [g|] eqn:Hg;
      [|exact Hinv].
    destruct (g <=? tracker.ctWins tr) eqn:Hfull; [exact Hinv|].
    apply Z.leb_gt in Hfull.
    apply (rangeInv_increment top g dbOk tr
             (tracker.ctWins tr + 1) (tracker.tWins tr) Hg Hinv).
    left. now repeat split.
  - rewrite core_DecrementCT.
    destruct (0 <? tracker.ctWins tr) eqn:Hz;
      [apply Z.ltb_lt in Hz | apply Z.ltb_ge in Hz];
      (split; [lia|]; split; [lia|]; split; assumption).
  - rewrite core_IncrementT.
    destruct (tracker.validScore Atoi (tracker.maxEntryText tr)) as [g|] eqn:Hg;
      [|exact Hinv].
    destruct (g <=? tracker.tWins tr) eqn:Hfull; [exact Hinv|].
    apply Z.leb_gt in Hfull.
    apply (rangeInv_increment top g dbOk tr
             (tracker.ctWins tr) (tracker.tWins tr + 1) Hg Hinv).
    right. now repeat split.
  - rewrite core_DecrementT.
    destruct (0 <? tracker.tWins tr) eqn:Hz;
      [apply Z.ltb_lt in Hz | apply Z.ltb_ge in Hz];
      (split; [lia|]; split; [lia|]; split; assumption).
  - rewrite core_Reset. split; [lia|]. split; [lia|]. now split.
  - rewrite core_SelectCT. exact Hinv.
  - rewrite core_SelectT. exact Hinv.
  - rewrite core_SwapTeams. split; [lia|]. split; [lia|]. now split.
Qed.

Lemma rangeInv_inputs ins : forall top tr,
  rangeInv Atoi top (core tr) ->
  rangeInv Atoi (highestScore Atoi ins top)
    (core (tracker.inputs Atoi ins tr)).
Proof.
  induction ins as [|i ins IH]; intros top tr Hinv; [exact Hinv|].
  destruct i as [action dbOk|newTeam|value|]; simpl.
  - apply IH. now apply rangeInv_onAction.
  - apply IH. exact Hinv.
  - apply IH. unfold tracker.entryChanged.
    rewrite core_saveGameScoreConfig.
    destruct Hinv as (Hc & Ht & Hs & Hgames).
    pose proof (Z.le_max_l top (scoreOf Atoi value)).
    pose proof (Z.le_max_r top (scoreOf Atoi value)).
    split; [simpl; lia|]. split; [simpl; lia|]. split; [simpl; lia|].
    simpl. revert Hgames. apply List.Forall_impl. intros gm.
    now apply savedOk_mono.
  - apply IH. exact Hinv.
Qed.

Lemma rangeInv_from_New cfgScore text ins :
  rangeInv Atoi (highestScore Atoi ins (scoreOf Atoi text))
    (core (tracker.inputs Atoi ins (tracker.New cfgScore text))).
Proof.
  apply rangeInv_inputs. pose proof (scoreOf_nonneg text).
  split; [simpl; lia|]. split; [simpl; lia|]. split; [simpl; lia|].
  apply List.Forall_nil.
Qed.

(** With no edit among the inputs, the highest score is the one the
    entry started with. *)
Lemma highestScore_keepsEntry ins : forall acc,
  forallb tracker.keepsEntry ins = true -> highestScore Atoi ins acc = acc.
Proof.
  induction ins as [|i ins IH]; intros acc Hkeep; [reflexivity|].
  simpl in Hkeep. apply andb_true_iff in Hkeep. destruct Hkeep as [Hk Hks].
  destruct i; simpl; try discriminate; now apply IH.
Qed.

End RangeFacts.

Lemma trackerInv_New text g strict cfgScore :
  0 < g -> trackerInv text g strict (tracker.New cfgScore text).
Proof.
  intros Hpos. unfold trackerInv, core; simpl.
  split; [reflexivity|]. split; [lia|]. split; [lia|].
  split; [constructor|]. intros _. split; [lia|]. split; [lia|constructor].
Qed.

Lemma trackerInv_from_New (Atoi : string -> option Z) text g strict cfgScore ins :
  tracker.validScore Atoi text = Some g ->
  forallb tracker.keepsEntry ins = true ->
  (strict = true -> forallb tracker.saveSucceeds ins = true) ->
  trackerInv text g strict (tracker.inputs Atoi ins (tracker.New cfgScore text)).
Proof.
  intros Hg Hkeep Hok. apply trackerInv_inputs; try assumption.
  apply trackerInv_New. exact (validScore_pos Atoi text g Hg).
Qed.

(** X17 (the tracker's methods as [StartHotkeys], the buttons and the
    entry call them): from a new tracker, whatever is done and whatever
    the entry is edited to, the counters never go negative and never
    exceed the highest valid game score the entry has held.  When the
    entry is never edited and holds the valid game score [g], they
    never exceed [g], and as long as no save fails they stay below
    it. *)
Theorem scores_stay_in_range (Atoi : string -> option Z) (cfgScore : Z)
    (text : string) (ins : list tracker.Input) :
  0 <= tracker.ctWins (tracker.inputs Atoi ins (tracker.New cfgScore text))
    <= highestScore Atoi ins (scoreOf Atoi text)
  /\ 0 <= tracker.tWins (tracker.inputs Atoi ins (tracker.New cfgScore text))
       <= highestScore Atoi ins (scoreOf Atoi text)
  /\ (forall g,
        tracker.validScore Atoi text = Some g ->
        forallb tracker.keepsEntry ins = true ->
        tracker.ctWins (tracker.inputs Atoi ins (tracker.New cfgScore text)) <= g
        /\ tracker.tWins (tracker.inputs Atoi ins (tracker.New cfgScore text)) <= g
        /\ (forallb tracker.saveSucceeds ins = true ->
            tracker.ctWins (tracker.inputs Atoi ins (tracker.New cfgScore text)) < g
            /\ tracker.tWins (tracker.inputs Atoi ins (tracker.New cfgScore text)) < g)).
Proof.
  destruct (rangeInv_from_New Atoi cfgScore text ins) as (Hc & Ht & _).
  split; [exact Hc|]. split; [exact Ht|].
  intros g Hg Hkeep.
  destruct (trackerInv_from_New Atoi text g false cfgScore ins Hg Hkeep)
    as (_ & Hct & Htt & _); [discriminate|].
  split; [lia|]. split; [lia|].
  intros Hok.
  destruct (trackerInv_from_New Atoi text g true cfgScore ins Hg Hkeep)
    as (_ & _ & _ & _ & Hs); [tauto|].
  destruct (Hs eq_refl) as (? & ? & _). now split.
Qed.

(** X18 ([checkAutoSave], [HandleDone]): from a new tracker, whatever
    is done and whatever the entry is edited to, every game saved has a
    positive game score, scores that are not negative, a side that has
    reached the game score or passed it, and nothing above the highest
    valid game score the entry has held.  When the entry is never
    edited and holds the valid game score [g], every game saved has
    that game score, scores between 0 and [g], and a side at [g]; as
    long as no save fails, only one side is at [g]. *)
Theorem saved_games_have_a_winner (Atoi : string -> option Z) (cfgScore : Z)
    (text : string) (ins : list tracker.Input) :
  Forall (savedOk (highestScore Atoi ins (scoreOf Atoi text)))
    (tracker.games (tracker.inputs Atoi ins (tracker.New cfgScore text)))
  /\ (forall g,
        tracker.validScore Atoi text = Some g ->
        forallb tracker.keepsEntry ins = true ->
        Forall (finished g)
          (tracker.games (tracker.inputs Atoi ins (tracker.New cfgScore text)))
        /\ (forallb tracker.saveSucceeds ins = true ->
            Forall (decided g)
              (tracker.games
                 (tracker.inputs Atoi ins (tracker.New cfgScore text))))).
Proof.
  split.
  - now destruct (rangeInv_from_New Atoi cfgScore text ins) as (_ & _ & _ & Hg).
  - intros g Hg Hkeep. split.
    + destruct (trackerInv_from_New Atoi text g false cfgScore ins Hg Hkeep)
        as (_ & _ & _ & Hf & _); [discriminate | exact Hf].
    + intros Hok.
      destruct (trackerInv_from_New Atoi text g true cfgScore ins Hg Hkeep)
        as (_ & _ & _ & _ & Hs); [tauto|].
      now destruct (Hs eq_refl) as (_ & _ & ?).
Qed.

(** The two bounds cannot be put in terms of the entry as it reads now:
    after five CT wins at game score 8 the entry is edited to 3, which
    leaves CT at 5; the next T win is then saved as 5:1 at game score
    3. *)
Lemma lowered_entry_is_passed :
  tracker.ctWins (tracker.inputs strconv.Atoi loweredEntry (tracker.New 8 "8"))
  = 5
  /\ tracker.validScore strconv.Atoi
       (tracker.maxEntryText
          (tracker.inputs strconv.Atoi loweredEntry (tracker.New 8 "8")))
     = Some 3
  /\ tracker.games
       (tracker.inputs strconv.Atoi
          (loweredEntry ++ [tracker.DoAction ActionIncrementT true])
          (tracker.New 8 "8"))
     = [database.mkGame 5 1 3 database.TeamNone]
  /\ highestScore strconv.Atoi loweredEntry (scoreOf strconv.Atoi "8") = 8.
Proof. repeat split. Qed.

(** X19 ([IncrementCT], [IncrementT], [checkAutoSave]): while the entry
    holds no valid game score, no game is saved and the counters do not
    add up to more than before. *)
Theorem invalid_entry_freezes_the_game (Atoi : string -> option Z)
    (text : string) (ins : list tracker.Input) (tr : tracker.Tracker) :
  tracker.maxEntryText tr = text ->
  tracker.validScore Atoi text = None ->
  forallb tracker.keepsEntry ins = true ->
  0 <= tracker.ctWins tr -> 0 <= tracker.tWins tr ->
  tracker.games (tracker.inputs Atoi ins tr) = tracker.games tr
  /\ tracker.ctWins (tracker.inputs Atoi ins tr)
     + tracker.tWins (tracker.inputs Atoi ins tr)
     <= tracker.ctWins tr + tracker.tWins tr.
Proof.
  intros Htext Hbad Hkeep Hc Ht.
  destruct (frozen_inputs Atoi text (tracker.games tr)
              (tracker.ctWins tr + tracker.tWins tr) ins tr)
    as (_ & Hg & _ & Hs); try assumption.
  - repeat split; try assumption; lia.
  - now split.
Qed.

(** X20 ([saveGameScoreConfig]): starting from a positive configured
    game score, the configured game score stays positive, and every
    configuration written by [config.Save] carries a positive one. *)
Theorem config_game_score_stays_positive (Atoi : string -> option Z)
    (cfgScore : Z) (text : string) (ins : list tracker.Input) :
  0 < cfgScore ->
  0 < tracker.configGameScore (tracker.inputs Atoi ins (tracker.New cfgScore text))
  /\ forall n,
       tracker.SaveConfig n
         ∈ tracker.effects (tracker.inputs Atoi ins (tracker.New cfgScore text)) ->
       0 < n.
Proof.
  intros Hpos.
  destruct (configInv_inputs Atoi ins (tracker.New cfgScore text)) as [Hc Hf].
  - split; [exact Hpos | constructor].
  - split; [exact Hc|]. intros n Hin.
    rewrite Forall_forall in Hf. exact (Hf _ Hin).
Qed.

(** X21 ([IncrementCT] through [checkAutoSave] and [HandleDone]): the
    increment that brings CT to the game score saves the game with the
    scores of that moment, plays the increment sound and then the end
    sound for the player's team, and resets both counters; when the save
    fails the counters stay, an error is shown, and further CT
    increments do nothing. *)
Theorem reaching_the_score_saves_the_game (Atoi : string -> option Z)
    (tr : tracker.Tracker) (g : Z) :
  tracker.validScore Atoi (tracker.maxEntryText tr) = Some g ->
  tracker.ctWins tr + 1 = g ->
  tracker.tWins tr < g ->
  (tracker.ctWins (tracker.IncrementCT Atoi true tr) = 0
   /\ tracker.tWins (tracker.IncrementCT Atoi true tr) = 0
   /\ tracker.games (tracker.IncrementCT Atoi true tr)
      = tracker.games tr
        ++ [database.mkGame g (tracker.tWins tr) g (tracker.team tr)]
   /\ tracker.effects (tracker.IncrementCT Atoi true tr)
      = tracker.effects tr
        ++ [tracker.UpdateLabels; tracker.Play tracker.CTIncrementSound;
            tracker.Play (soundWhenCTWins (tracker.team tr));
            tracker.UpdateLabels])
  /\ (tracker.ctWins (tracker.IncrementCT Atoi false tr) = g
      /\ tracker.tWins (tracker.IncrementCT Atoi false tr) = tracker.tWins tr
      /\ tracker.games (tracker.IncrementCT Atoi false tr) = tracker.games tr
      /\ tracker.effects (tracker.IncrementCT Atoi false tr)
         = tracker.effects tr
           ++ [tracker.UpdateLabels; tracker.Play tracker.CTIncrementSound;
               tracker.ShowSaveError]
      /\ forall dbOk,
           tracker.IncrementCT Atoi dbOk (tracker.IncrementCT Atoi false tr)
           = tracker.IncrementCT Atoi false tr).
Proof.
  intros Hg Hreach Hless.
  pose proof (validScore_pos Atoi _ g Hg) as Hpos.
  assert (Hfull : (g <=? tracker.ctWins tr) = false) by (apply Z.leb_gt; lia).
  assert (Hnow : (g <=? tracker.ctWins tr + 1) = true) by (apply Z.leb_le; lia).
  assert (Hinc : forall dbOk,
            tracker.IncrementCT Atoi dbOk tr
            = tracker.HandleDone Atoi dbOk (bumpCT tr)).
  { intros dbOk. unfold tracker.IncrementCT. rewrite Hg, Hfull.
    fold (bumpCT tr). unfold tracker.checkAutoSave.
    change (tracker.maxEntryText (bumpCT tr)) with (tracker.maxEntryText tr).
    rewrite Hg. change (tracker.ctWins (bumpCT tr)) with (tracker.ctWins tr + 1).
    now rewrite Hnow. }
  assert (Hdone : forall dbOk,
            tracker.HandleDone Atoi dbOk (bumpCT tr)
            = if dbOk
              then tracker.resetScores
                     (tracker.playMatchEndSound (tracker.saveGame g (bumpCT tr)))
              else tracker.emit tracker.ShowSaveError (bumpCT tr)).
  { intros dbOk. unfold tracker.HandleDone.
    change (tracker.maxEntryText (bumpCT tr)) with (tracker.maxEntryText tr).
    now rewrite Hg. }
  split.
  - rewrite Hinc, Hdone.
    assert (Hsound : tracker.playMatchEndSound (tracker.saveGame g (bumpCT tr))
                     = tracker.emit
                         (tracker.Play (soundWhenCTWins (tracker.team tr)))
                         (tracker.saveGame g (bumpCT tr))).
    { unfold tracker.playMatchEndSound, soundWhenCTWins. simpl.
      destruct (String.eqb (tracker.team tr) database.TeamCT).
      - assert (Hw : (tracker.tWins tr <? tracker.ctWins tr + 1) = true)
          by (apply Z.ltb_lt; lia).
        now rewrite Hw.
      - destruct (String.eqb (tracker.team tr) database.TeamT); [|reflexivity].
        assert (Hl : (tracker.ctWins tr + 1 <? tracker.tWins tr) = false)
          by (apply Z.ltb_ge; lia).
        now rewrite Hl. }
    rewrite Hsound. simpl. rewrite Hreach.
    repeat split. now rewrite <- !app_assoc.
  - rewrite Hinc, Hdone. simpl. rewrite Hreach.
    repeat split; [now rewrite <- !app_assoc|].
    intros dbOk. unfold tracker.IncrementCT at 1. simpl. rewrite Hg.
    simpl. rewrite Hreach. now rewrite Z.leb_refl.
Qed.

Lemma otherTeam_involutive team : otherTeam (otherTeam team) = team.
Proof.
  unfold otherTeam.
  destruct (String.eqb_spec team database.TeamCT) as [->|Hct]; [reflexivity|].
  destruct (String.eqb_spec team database.TeamT) as [->|Ht]; [reflexivity|].
  destruct (String.eqb_spec team database.TeamCT); [contradiction|].
  destruct (String.eqb_spec team database.TeamT); [contradiction|reflexivity].
Qed.

(** X22 ([SwapTeams]): the two counters change places and the team
    changes side; no game is saved; swapping twice restores counters and
    team; with no team selected only the labels are refreshed. *)
Theorem SwapTeams_swaps_back (tr : tracker.Tracker) :
  tracker.ctWins (tracker.SwapTeams tr) = tracker.tWins tr
  /\ tracker.tWins (tracker.SwapTeams tr) = tracker.ctWins tr
  /\ tracker.team (tracker.SwapTeams tr) = otherTeam (tracker.team tr)
  /\ tracker.games (tracker.SwapTeams tr) = tracker.games tr
  /\ tracker.ctWins (tracker.SwapTeams (tracker.SwapTeams tr)) = tracker.ctWins tr
  /\ tracker.tWins (tracker.SwapTeams (tracker.SwapTeams tr)) = tracker.tWins tr
  /\ tracker.team (tracker.SwapTeams (tracker.SwapTeams tr)) = tracker.team tr
  /\ (tracker.team tr <> database.TeamCT ->
      tracker.team tr <> database.TeamT ->
      tracker.effects (tracker.SwapTeams tr)
      = tracker.effects tr ++ [tracker.UpdateLabels]).
Proof.
  pose proof (core_SwapTeams tr) as H1.
  pose proof (core_SwapTeams (tracker.SwapTeams tr)) as H2.
  unfold core in H1, H2.
  injection H1 as Hc Ht Hteam Hg _.
  injection H2 as Hc2 Ht2 Hteam2 _ _.
  rewrite Hc2, Ht2, Hteam2, Hc, Ht, Hteam, otherTeam_involutive.
  repeat split; try assumption.
  intros Hnct Hnt. unfold tracker.SwapTeams. simpl.
  destruct (String.eqb_spec (tracker.team tr) database.TeamCT); [contradiction|].
  destruct (String.eqb_spec (tracker.team tr) database.TeamT); [contradiction|].
  reflexivity.
Qed.

Section Delivered.

Variable toLower : string -> string.
Variable mapKeyToName : hook.Event -> string.

Lemma deliver_heldFrom evs : forall seen h0 h,
  heldFrom mapKeyToName seen h0 h ->
  heldFrom mapKeyToName (seen ++ evs) h0 (deliver toLower mapKeyToName evs h).
Proof.
  induction evs as [|[ev [t1 t2]] evs IH]; intros seen h0 h Hh.
  - now rewrite app_nil_r.
  - simpl. replace (seen ++ (ev, (t1, t2)) :: evs)
      with ((seen ++ [(ev, (t1, t2))]) ++ evs) by now rewrite <- app_assoc.
    apply IH. intros key Hin.
    assert (Hold : key ∈ dom (pressedKeys h) ->
              key ∈ dom (pressedKeys h0)
              \/ (key <> ""
                  /\ exists ev0, ev0 ∈ map fst (seen ++ [(ev, (t1, t2))])
                                 /\ hook.Kind ev0 = hook.KeyDown
                                 /\ mapKeyToName ev0 = key)).
    { intros Hk. destruct (Hh key Hk) as [?|(Hne & ev0 & Hev & Hkd & Hnm)];
        [now left|].
      right. split; [exact Hne|]. exists ev0. split; [|now split].
      rewrite map_app. apply elem_of_app. now left. }
    unfold onEvent in Hin.
    destruct (String.eqb_spec (mapKeyToName ev) "") as [He|He];
      [now apply Hold|].
    destruct (hook.Kind ev) eqn:Hkind; try (now apply Hold).
    + pose proof (dom_handleKeyDown toLower t1 t2 (mapKeyToName ev) h) as Hd.
      destruct (handleKeyDown toLower t1 t2 (mapKeyToName ev) h) as [h1 o].
      simpl in *. rewrite Hd in Hin. apply elem_of_union in Hin.
      destruct Hin as [Hin|Hin]; [|now apply Hold].
      apply elem_of_singleton in Hin. subst key.
      right. split; [exact He|]. exists ev. split; [|now split].
      rewrite map_app. apply elem_of_app. right. simpl.
      apply elem_of_cons. now left.
    + simpl in Hin. rewrite dom_delete_L in Hin.
      apply elem_of_difference in Hin. now apply Hold.
Qed.

End Delivered.

(** X23 (the event loop of [Start]): every key held after a sequence of
    hook events is the non-empty name the translator gave to one of the
    key-down events delivered. *)
Theorem held_keys_are_delivered_names (toLower : string -> string)
    (mapKeyToName : hook.Event -> string) (b : Bindings)
    (evs : list (hook.Event * (Z * Z))) (key : string) :
  key ∈ dom (pressedKeys (deliver toLower mapKeyToName evs (NewHandler b))) ->
  key <> ""
  /\ exists ev, ev ∈ map fst evs
                /\ hook.Kind ev = hook.KeyDown
                /\ mapKeyToName ev = key.
Proof.
  intros Hin.
  destruct (deliver_heldFrom toLower mapKeyToName evs [] (NewHandler b)
              (NewHandler b)) with (key := key) as [Hold|Hnew].
  - intros k Hk. now left.
  - exact Hin.
  - simpl in Hold. rewrite dom_empty_L in Hold. inversion Hold.
  - exact Hnew.
Qed.

(** ** The statistics *)

Section StatsFacts.

Variable float64 : Type.
Variable zeroRate : float64.
Variable percent : Z -> Z -> float64.


(** What the counters of [GetStats] keep true, row after row. *)
Lemma scanStats_consistent (s : database.Stats float64) (r : database.StatsRow) :
  statsConsistent s -> statsConsistent ((database.scanStats float64) s r).
Proof.
  unfold statsConsistent, database.scanStats, database.countOutcome.
  intros H.
  destruct (String.eqb _ database.TeamCT);
    [|destruct (String.eqb _ database.TeamT)];
    repeat match goal with |- context [if ?b then _ else _] => destruct b end;
    simpl; lia.
Qed.

Lemma fold_scanStats_consistent rows : forall s : database.Stats float64,
  statsConsistent s ->
  statsConsistent (fold_left (database.scanStats float64) rows s).
Proof.
  induction rows as [|r rows IH]; intros s H; simpl; [exact H|].
  apply IH, scanStats_consistent, H.
Qed.

Lemma fold_scanStats_total rows : forall s : database.Stats float64,
  database.TotalGames float64 (fold_left (database.scanStats float64) rows s)
  = database.TotalGames float64 s + Z.of_nat (length rows).
Proof.
  induction rows as [|r rows IH]; intros s; simpl length; simpl fold_left;
    [lia|].
  rewrite IH.
  assert (database.TotalGames float64 ((database.scanStats float64) s r)
          = database.TotalGames float64 s + 1); [|lia].
  unfold database.scanStats, database.countOutcome.
  destruct (String.eqb _ database.TeamCT);
    [|destruct (String.eqb _ database.TeamT)];
    repeat match goal with |- context [if ?b then _ else _] => destruct b end;
    simpl; lia.
Qed.

End StatsFacts.

(** ** The sort of [GetDailyStats] *)

Lemma insert_head_Permutation {A : Type} (a b : A) (l : list A) : forall j,
  l !! j = Some b -> b :: <[j := a]> l ≡ₚ a :: l.
Proof.
  induction l as [|y l IH]; intros [|j] Hj; simpl in *; try discriminate.
  - injection Hj as ->. apply perm_swap.
  - etransitivity; [apply perm_swap|].
    etransitivity; [apply perm_skip, (IH j Hj)|]. apply perm_swap.
Qed.

(** Exchanging two elements of a slice permutes it. *)
Lemma swap_Permutation {A : Type} (l : list A) : forall (i j : nat) (a b : A),
  i <> j -> l !! i = Some a -> l !! j = Some b ->
  <[j := a]> (<[i := b]> l) ≡ₚ l.
Proof.
  induction l as [|x l IH]; intros [|i] [|j] a b Hne Hi Hj; simpl in *;
    try discriminate; try congruence.
  - injection Hi as ->. now apply insert_head_Permutation.
  - injection Hj as ->. now apply insert_head_Permutation.
  - apply perm_skip. apply IH; [congruence|assumption|assumption].
Qed.

Lemma exchange_spec (i j : nat) (l : list database.DailyStats)
    (a b : database.DailyStats) :
  i <> j -> l !! i = Some a -> l !! j = Some b ->
  exists l' a' b',
    database.exchange i j l = Some l'
    /\ l' ≡ₚ l
    /\ length l' = length l
    /\ (forall p, p <> i -> p <> j -> l' !! p = l !! p)
    /\ l' !! i = Some a' /\ l' !! j = Some b'
    /\ database.Date a' <= database.Date b'
    /\ database.Date a' <= database.Date a.
Proof.
  intros Hne Hi Hj. unfold database.exchange. rewrite Hi, Hj.
  assert (Hli : (i < length l)%nat) by (apply lookup_lt_is_Some; eauto).
  assert (Hlj : (j < length l)%nat) by (apply lookup_lt_is_Some; eauto).
  destruct (Z.ltb_spec (database.Date b) (database.Date a)) as [Hlt|Hge].
  - exists (<[j := a]> (<[i := b]> l)), b, a.
    split; [reflexivity|]. split; [now apply swap_Permutation|].
    split; [now rewrite !length_insert|].
    split.
    { intros p Hpi Hpj. rewrite list_lookup_insert_ne by congruence.
      now rewrite list_lookup_insert_ne by congruence. }
    split.
    { rewrite list_lookup_insert_ne by congruence.
      now apply list_lookup_insert_eq. }
    split.
    { apply list_lookup_insert_eq. now rewrite length_insert. }
    lia.
  - exists l, a, b. repeat split; try assumption; try reflexivity; lia.
Qed.

(** The inner loop from [j0] on: the slice is permuted, the part before
    [i] stays, and [result[i]] ends up no later than anything after it. *)
Lemma inner_from (i : nat) : forall (k j0 : nat) (l : list database.DailyStats),
  (i < j0)%nat -> (j0 + k)%nat = length l ->
  (exists x, l !! i = Some x
             /\ forall q y, (i < q < j0)%nat -> l !! q = Some y ->
                  database.Date x <= database.Date y) ->
  exists l',
    database.forEach (database.exchange i) (seq j0 k) l = Some l'
    /\ l' ≡ₚ l
    /\ length l' = length l
    /\ (forall p, (p < i)%nat -> l' !! p = l !! p)
    /\ exists x, l' !! i = Some x
                 /\ forall q y, (i < q)%nat -> l' !! q = Some y ->
                      database.Date x <= database.Date y.
Proof.
  induction k as [|k IH]; intros j0 l Hij Hlen (x & Hx & Hmin).
  - exists l. simpl. repeat split; try reflexivity.
    exists x. split; [exact Hx|]. intros q y Hq Hy. apply (Hmin q y); [|exact Hy].
    assert ((q < length l)%nat) by (apply lookup_lt_is_Some; eauto). lia.
  - assert (Hj : is_Some (l !! j0)) by (apply lookup_lt_is_Some; lia).
    destruct Hj as [b Hb].
    destruct (exchange_spec i j0 l x b) as
      (l1 & a' & b' & He & Hp1 & Hl1 & Hrest & Hi1 & Hj1 & Hab & Hax);
      [lia|exact Hx|exact Hb|].
    destruct (IH (S j0) l1) as (l' & Hrun & Hp & Hl & Hpre & Hpost);
      [lia|lia| |].
    { exists a'. split; [exact Hi1|]. intros q y Hq Hy.
      destruct (decide (q = j0)) as [->|Hqj].
      - rewrite Hj1 in Hy. injection Hy as <-. exact Hab.
      - rewrite Hrest in Hy by lia.
        pose proof (Hmin q y ltac:(lia) Hy). lia. }
    exists l'. simpl. rewrite He. split; [exact Hrun|].
    split; [now rewrite Hp|]. split; [lia|].
    split; [|exact Hpost].
    intros p Hpi. rewrite Hpre by exact Hpi. apply Hrest; lia.
Qed.

Lemma innerLoop_spec (i : nat) (l : list database.DailyStats) :
  (i < length l)%nat ->
  exists l',
    database.innerLoop i l = Some l'
    /\ l' ≡ₚ l
    /\ length l' = length l
    /\ (forall p, (p < i)%nat -> l' !! p = l !! p)
    /\ exists x, l' !! i = Some x
                 /\ forall q y, (i < q)%nat -> l' !! q = Some y ->
                      database.Date x <= database.Date y.
Proof.
  intros Hi. unfold database.innerLoop.
  destruct (lookup_lt_is_Some_2 l i Hi) as [x Hx].
  apply inner_from; [lia|lia|].
  exists x. split; [exact Hx|]. intros q y Hq. lia.
Qed.

(** With a common part before [i], two permutations of each other have
    the same elements from [i] on. *)
Lemma suffix_elem (i : nat) (l l' : list database.DailyStats) :
  l' ≡ₚ l -> (forall p, (p < i)%nat -> l' !! p = l !! p) ->
  forall q y, (i <= q)%nat -> l' !! q = Some y ->
    exists q', (i <= q')%nat /\ l !! q' = Some y.
Proof.
  intros Hp Hpre q y Hq Hy.
  assert (Htake : take i l' = take i l).
  { apply list_eq. intros p. destruct (decide (p < i)%nat) as [Hlt|Hge].
    - rewrite !lookup_take_lt by exact Hlt. now apply Hpre.
    - rewrite !lookup_take_ge by lia. reflexivity. }
  assert (Hdrop : drop i l' ≡ₚ drop i l).
  { apply (Permutation_app_inv_l (take i l)).
    rewrite <- Htake at 1. now rewrite !take_drop. }
  assert (Hin : y ∈ drop i l').
  { apply list_elem_of_lookup. exists (q - i)%nat. rewrite lookup_drop.
    now replace (i + (q - i))%nat with q by lia. }
  rewrite Hdrop in Hin. apply list_elem_of_lookup in Hin.
  destruct Hin as [j Hj]. rewrite lookup_drop in Hj.
  exists (i + j)%nat. split; [lia|exact Hj].
Qed.

Lemma outer_from : forall (k i0 : nat) (l : list database.DailyStats),
  (k = 0 \/ i0 + k + 1 = length l)%nat ->
  sortedBefore i0 l ->
  exists l',
    database.forEach database.innerLoop (seq i0 k) l = Some l'
    /\ l' ≡ₚ l
    /\ sortedBefore (i0 + k) l'.
Proof.
  induction k as [|k IH]; intros i0 l Hk Hq.
  - exists l. simpl. split; [reflexivity|]. split; [reflexivity|].
    now replace (i0 + 0)%nat with i0 by lia.
  - destruct Hk as [Hk|Hk]; [discriminate|].
    destruct (innerLoop_spec i0 l) as (l1 & He & Hp1 & Hl1 & Hpre & x & Hx & Hmin);
      [lia|].
    destruct (IH (S i0) l1) as (l' & Hrun & Hp & Hs); [right; lia| |].
    { intros p q a b Hp Hpq Ha Hb.
      destruct (decide (p = i0)) as [->|Hne].
      - rewrite Hx in Ha. injection Ha as <-. now apply (Hmin q b).
      - assert (Hlt : (p < i0)%nat) by lia.
        rewrite Hpre in Ha by exact Hlt.
        destruct (decide (q < i0)%nat) as [Hq0|Hq0].
        + rewrite Hpre in Hb by exact Hq0. now apply (Hq p q a b).
        + destruct (suffix_elem i0 l l1 Hp1 Hpre q b) as (q' & Hq' & Hb');
            [lia|exact Hb|].
          apply (Hq p q' a b); [exact Hlt|lia|exact Ha|exact Hb']. }
    exists l'. simpl. rewrite He. split; [exact Hrun|].
    split; [now rewrite Hp|].
    now replace (i0 + S k)%nat with (S i0 + k)%nat by lia.
Qed.

Lemma sorted_exists (result : list database.DailyStats) :
  exists sorted,
    database.sortByDate result = Some sorted
    /\ sorted ≡ₚ result
    /\ database.ascending sorted.
Proof.
  destruct (outer_from (length result - 1) 0 result) as (l' & Hrun & Hp & Hs).
  { destruct result; simpl; [now left|right; lia]. }
  { intros p q a b Hp. lia. }
  exists l'. split; [exact Hrun|]. split; [exact Hp|].
  intros p q x y Hpq Hx Hy.
  apply (Hs p q x y); [|exact Hpq|exact Hx|exact Hy].
  assert ((q < length l')%nat) by (apply lookup_lt_is_Some; eauto).
  rewrite Hp in H. simpl. lia.
Qed.

(** X26 (the nested loops at the end of [GetDailyStats]): whatever order
    the map was ranged over in, the sort runs without an index error,
    returns the same entries, and returns them in ascending order of
    date. *)
Theorem sortByDate_sorts (result : list database.DailyStats) :
  exists sorted,
    database.sortByDate result = Some sorted
    /\ sorted ≡ₚ result
    /\ database.ascending sorted.
Proof. apply sorted_exists. Qed.

Lemma sumZ_Permutation (l l' : list Z) :
  l ≡ₚ l' -> database.sumZ l = database.sumZ l'.
Proof.
  induction 1; simpl; unfold database.sumZ in *; simpl; lia.
Qed.

Section DailyFacts.

Variable parseDay : string -> Z.

(** A count of [DailyStats] that [countDay] adds to. *)
Variable count : database.DailyStats -> Z.
Hypothesis count_new : forall d, count (database.mkDailyStats d 0 0 0) = 0.
Hypothesis count_add : forall r ds,
  count (database.countDay r ds)
  = count ds + count (database.countDay r (database.mkDailyStats 0 0 0 0)).

Lemma totalOver_insert_new (m : gmap string database.DailyStats) day ds :
  m !! day = None ->
  totalOver count (<[day := ds]> m) = count ds + totalOver count m.
Proof.
  intros Hnone. unfold totalOver.
  rewrite (sumZ_Permutation _ (map count (map snd ((day, ds) :: map_to_list m)))).
  - reflexivity.
  - now rewrite (map_to_list_insert m day ds Hnone).
Qed.

Lemma totalOver_insert_old (m : gmap string database.DailyStats) day ds old :
  m !! day = Some old ->
  totalOver count (<[day := ds]> m) = count ds - count old + totalOver count m.
Proof.
  intros Hsome.
  rewrite <- (insert_delete_eq m day ds).
  rewrite totalOver_insert_new by apply lookup_delete_eq.
  assert (totalOver count m = count old + totalOver count (delete day m)); [|lia].
  unfold totalOver.
  rewrite <- (sumZ_Permutation _ _
    (Permutation_map count (Permutation_map snd (map_to_list_delete m day old Hsome)))).
  reflexivity.
Qed.

Lemma totalOver_scanDaily (m : gmap string database.DailyStats) r :
  totalOver count (database.scanDaily parseDay m r)
  = totalOver count m
    + count (database.countDay r (database.mkDailyStats 0 0 0 0)).
Proof.
  unfold database.scanDaily.
  destruct (m !! database.dayStr r) as [old|] eqn:Hl.
  - rewrite Hl. rewrite (totalOver_insert_old m _ _ old Hl), count_add. lia.
  - rewrite lookup_insert_eq, insert_insert_eq.
    rewrite totalOver_insert_new by exact Hl. rewrite count_add, count_new. lia.
Qed.

Lemma totalOver_fold rows : forall m,
  totalOver count (fold_left (database.scanDaily parseDay) rows m)
  = totalOver count m
    + database.sumZ
        (map (fun r => count (database.countDay r (database.mkDailyStats 0 0 0 0)))
             rows).
Proof.
  induction rows as [|r rows IH]; intros m; simpl.
  - unfold database.sumZ; simpl; lia.
  - rewrite IH, totalOver_scanDaily. unfold database.sumZ; simpl; lia.
Qed.

End DailyFacts.

Lemma dWins_add r ds :
  database.dWins (database.countDay r ds)
  = database.dWins ds
    + database.dWins (database.countDay r (database.mkDailyStats 0 0 0 0)).
Proof.
  unfold database.countDay.
  repeat match goal with |- context [if ?b then _ else _] => destruct b end;
    simpl; lia.
Qed.

Lemma dLosses_add r ds :
  database.dLosses (database.countDay r ds)
  = database.dLosses ds
    + database.dLosses (database.countDay r (database.mkDailyStats 0 0 0 0)).
Proof.
  unfold database.countDay.
  repeat match goal with |- context [if ?b then _ else _] => destruct b end;
    simpl; lia.
Qed.

Lemma dDraws_add r ds :
  database.dDraws (database.countDay r ds)
  = database.dDraws ds
    + database.dDraws (database.countDay r (database.mkDailyStats 0 0 0 0)).
Proof.
  unfold database.countDay.
  repeat match goal with |- context [if ?b then _ else _] => destruct b end;
    simpl; lia.
Qed.

Lemma dom_scanDaily (parseDay : string -> Z) (m : gmap string database.DailyStats) r :
  dom (database.scanDaily parseDay m r) = {[database.dayStr r]} ∪ dom m.
Proof.
  unfold database.scanDaily.
  destruct (m !! database.dayStr r) as [old|] eqn:Hl.
  - rewrite Hl. now rewrite dom_insert_L.
  - rewrite lookup_insert_eq, insert_insert_eq. now rewrite dom_insert_L.
Qed.

Lemma dom_fold_scanDaily (parseDay : string -> Z) rows : forall (m : gmap string database.DailyStats),
  dom (fold_left (database.scanDaily parseDay) rows m)
  = list_to_set (map database.dayStr rows) ∪ dom m.
Proof.
  induction rows as [|r rows IH]; intros m; simpl.
  - set_solver.
  - rewrite IH, dom_scanDaily. set_solver.
Qed.

Section StatsAndDaily.

Variable float64 : Type.
Variable zeroRate : float64.
Variable percent : Z -> Z -> float64.
Variable parseDay : string -> Z.


(** One row counts the same way in both loops. *)
Lemma scanStats_as_countDay s (dr : string * database.StatsRow) :
  database.Wins float64 ((database.scanStats float64) s (snd dr))
  = database.Wins float64 s
    + database.dWins (database.countDay (database.dailyRowOf dr) newDay)
  /\ database.Losses float64 ((database.scanStats float64) s (snd dr))
     = database.Losses float64 s
       + database.dLosses (database.countDay (database.dailyRowOf dr) newDay)
  /\ database.Draws float64 ((database.scanStats float64) s (snd dr))
     = database.Draws float64 s
       + database.dDraws (database.countDay (database.dailyRowOf dr) newDay).
Proof.
  unfold database.scanStats, database.countDay, database.countOutcome,
    database.dailyRowOf, newDay. simpl.
  destruct (String.eqb _ database.TeamCT);
    [|destruct (String.eqb _ database.TeamT)];
    repeat match goal with |- context [if ?b then _ else _] => destruct b end;
    simpl; lia.
Qed.

Lemma fold_scanStats_as_countDay (table : list (string * database.StatsRow)) :
  forall s,
  database.Wins float64 (fold_left (database.scanStats float64) (map snd table) s)
  = database.Wins float64 s
    + database.sumZ
        (map (fun dr => database.dWins
                          (database.countDay (database.dailyRowOf dr) newDay))
             table)
  /\ database.Losses float64 (fold_left (database.scanStats float64) (map snd table) s)
     = database.Losses float64 s
       + database.sumZ
           (map (fun dr => database.dLosses
                             (database.countDay (database.dailyRowOf dr) newDay))
                table)
  /\ database.Draws float64 (fold_left (database.scanStats float64) (map snd table) s)
     = database.Draws float64 s
       + database.sumZ
           (map (fun dr => database.dDraws
                             (database.countDay (database.dailyRowOf dr) newDay))
                table).
Proof.
  induction table as [|dr table IH]; intros s; simpl.
  - unfold database.sumZ; simpl. lia.
  - destruct (IH ((database.scanStats float64) s (snd dr))) as (H1 & H2 & H3).
    destruct (scanStats_as_countDay s dr) as (W & L & D).
    rewrite H1, H2, H3, W, L, D. unfold database.sumZ; simpl. lia.
Qed.

End StatsAndDaily.

(** X24 (the row loop of [GetStats]): the total is the number of rows,
    every row is counted as exactly one of win, loss and draw, the wins
    and the losses are those as CT plus those as T, and per side the
    wins and losses do not exceed the games. *)
Theorem GetStats_counters_add_up (float64 : Type) (zeroRate : float64)
    (percent : Z -> Z -> float64) (rows : list database.StatsRow) :
  database.TotalGames float64 (database.GetStats float64 zeroRate percent rows)
  = Z.of_nat (length rows)
  /\ statsConsistent (database.GetStats float64 zeroRate percent rows).
Proof.
  unfold database.GetStats. split.
  - unfold database.withRates; simpl.
    rewrite fold_scanStats_total. simpl. lia.
  - pose proof (fold_scanStats_consistent float64 rows
                  (database.emptyStats float64 zeroRate)) as H.
    unfold statsConsistent in *. unfold database.withRates; simpl.
    apply H. simpl. lia.
Qed.

(** X25 ([playMatchEndSound] against the [switch] of [GetStats]): the
    win sound is played exactly for a game the statistics count as a
    win; a game counted as a loss gets the lose sound; the generic sound
    goes with a draw; and the lose sound is also played for a tie with a
    team selected, which the statistics count as a draw. *)
Theorem end_sound_agrees_with_stats (float64 : Type) (zeroRate : float64)
    (percent : Z -> Z -> float64) (tr : tracker.Tracker) (g : Z) :
  (database.Wins float64
     (database.GetStats float64 zeroRate percent [rowOfGame (gameNow g tr)]) = 1
   <-> tracker.effects (tracker.playMatchEndSound tr)
       = tracker.effects tr ++ [tracker.Play tracker.WinSound])
  /\ (database.Losses float64
        (database.GetStats float64 zeroRate percent [rowOfGame (gameNow g tr)]) = 1
      -> tracker.effects (tracker.playMatchEndSound tr)
         = tracker.effects tr ++ [tracker.Play tracker.LoseSound])
  /\ (tracker.effects (tracker.playMatchEndSound tr)
      = tracker.effects tr ++ [tracker.Play tracker.MatchEndSound]
      -> database.Draws float64
           (database.GetStats float64 zeroRate percent [rowOfGame (gameNow g tr)])
         = 1)
  /\ (tracker.effects (tracker.playMatchEndSound tr)
      = tracker.effects tr ++ [tracker.Play tracker.LoseSound]
      -> database.Losses float64
           (database.GetStats float64 zeroRate percent [rowOfGame (gameNow g tr)])
         = 1
         \/ (tracker.ctWins tr = tracker.tWins tr
             /\ database.Draws float64
                  (database.GetStats float64 zeroRate percent
                     [rowOfGame (gameNow g tr)]) = 1)).
Proof.
  unfold database.GetStats, database.withRates, database.scanStats,
    database.countOutcome, tracker.playMatchEndSound, rowOfGame, gameNow.
  simpl.
  destruct (String.eqb (tracker.team tr) database.TeamCT);
    [|destruct (String.eqb (tracker.team tr) database.TeamT)].
  - destruct (Z.ltb_spec (tracker.tWins tr) (tracker.ctWins tr));
      [|destruct (Z.ltb_spec (tracker.ctWins tr) (tracker.tWins tr))];
      simpl; repeat split; intros; try reflexivity; try lia;
      try (match goal with H : _ ++ _ = _ ++ _ |- _ =>
             apply app_inv_head in H; discriminate end);
      try (left; reflexivity); try (right; split; [lia|reflexivity]).
  - destruct (Z.ltb_spec (tracker.ctWins tr) (tracker.tWins tr));
      [|destruct (Z.ltb_spec (tracker.tWins tr) (tracker.ctWins tr))];
      simpl; repeat split; intros; try reflexivity; try lia;
      try (match goal with H : _ ++ _ = _ ++ _ |- _ =>
             apply app_inv_head in H; discriminate end);
      try (left; reflexivity); try (right; split; [lia|reflexivity]).
  - simpl; repeat split; intros; try reflexivity; try lia;
      try (match goal with H : _ ++ _ = _ ++ _ |- _ =>
             apply app_inv_head in H; discriminate end).
Qed.

(** X27 ([GetDailyStats] against [GetStats], on the same games): in
    whatever order the map is ranged over, [GetDailyStats] returns, in
    ascending order of date, one entry per distinct day, and the wins,
    losses and draws of the days add up to those of [GetStats]. *)
Theorem daily_stats_add_up (float64 : Type) (zeroRate : float64)
    (percent : Z -> Z -> float64) (parseDay : string -> Z)
    (table : list (string * database.StatsRow))
    (result : list database.DailyStats) :
  database.rangesOver
    (database.accumulate parseDay (map database.dailyRowOf table)) result ->
  exists sorted,
    database.sortByDate result = Some sorted
    /\ database.ascending sorted
    /\ length sorted = size (list_to_set (map fst table) : gset string)
    /\ database.sumZ (map database.dWins sorted)
       = database.Wins float64
           (database.GetStats float64 zeroRate percent (map snd table))
    /\ database.sumZ (map database.dLosses sorted)
       = database.Losses float64
           (database.GetStats float64 zeroRate percent (map snd table))
    /\ database.sumZ (map database.dDraws sorted)
       = database.Draws float64
           (database.GetStats float64 zeroRate percent (map snd table)).
Proof.
  intros Hrange. unfold database.rangesOver in Hrange.
  destruct (sorted_exists result) as (sorted & Hrun & Hperm & Hasc).
  exists sorted. split; [exact Hrun|]. split; [exact Hasc|].
  assert (Hall : sorted ≡ₚ
            map snd (map_to_list
                       (database.accumulate parseDay
                          (map database.dailyRowOf table))))
    by (now rewrite Hperm).
  destruct (fold_scanStats_as_countDay float64 table
              (database.emptyStats float64 zeroRate)) as (W & L & D).
  split.
  { rewrite Hall, length_map, length_map_to_list, <- size_dom.
    unfold database.accumulate. rewrite dom_fold_scanDaily, map_map.
    rewrite dom_empty_L, (right_id_L ∅ (∪)). reflexivity. }
  unfold database.GetStats, database.withRates; simpl.
  rewrite W, L, D. simpl.
  split; [|split].
  - rewrite (sumZ_Permutation _ _ (Permutation_map database.dWins Hall)).
    change (database.sumZ (map database.dWins (map snd (map_to_list ?m))))
      with (totalOver database.dWins m).
    unfold database.accumulate.
    rewrite (totalOver_fold parseDay database.dWins) by
      (first [reflexivity | apply dWins_add]).
    rewrite map_map. unfold totalOver, newDay.
    rewrite map_to_list_empty. reflexivity.
  - rewrite (sumZ_Permutation _ _ (Permutation_map database.dLosses Hall)).
    change (database.sumZ (map database.dLosses (map snd (map_to_list ?m))))
      with (totalOver database.dLosses m).
    unfold database.accumulate.
    rewrite (totalOver_fold parseDay database.dLosses) by
      (first [reflexivity | apply dLosses_add]).
    rewrite map_map. unfold totalOver, newDay.
    rewrite map_to_list_empty. reflexivity.
  - rewrite (sumZ_Permutation _ _ (Permutation_map database.dDraws Hall)).
    change (database.sumZ (map database.dDraws (map snd (map_to_list ?m))))
      with (totalOver database.dDraws m).
    unfold database.accumulate.
    rewrite (totalOver_fold parseDay database.dDraws) by
      (first [reflexivity | apply dDraws_add]).
    rewrite map_map. unfold totalOver, newDay.
    rewrite map_to_list_empty. reflexivity.
Qed.

(** ** The history tab *)

Lemma updateToolbar_keeps h :
  HistoryTab.games (HistoryTab.updateToolbar h) = HistoryTab.games h
  /\ HistoryTab.selected (HistoryTab.updateToolbar h) = HistoryTab.selected h
  /\ HistoryTab.lastClickedIdx (HistoryTab.updateToolbar h)
     = HistoryTab.lastClickedIdx h
  /\ HistoryTab.hasButtons (HistoryTab.updateToolbar h)
     = HistoryTab.hasButtons h.
Proof.
  unfold HistoryTab.updateToolbar.
  destruct (HistoryTab.hasButtons h) eqn:Hb; simpl; [|now rewrite Hb].
  destruct (1 <? _); simpl; now rewrite ?Hb.
Qed.

Lemma toolbarInv_updateToolbar h : toolbarInv (HistoryTab.updateToolbar h).
Proof.
  unfold toolbarInv, HistoryTab.updateToolbar.
  destruct (HistoryTab.hasButtons h) eqn:Hb; simpl; [|congruence].
  destruct (1 <? Z.of_nat (size (HistoryTab.selected h))) eqn:Hc; simpl;
    intros _; rewrite Hc; split; congruence.
Qed.

Lemma selectionInv_updateToolbar h :
  selectionInv h -> selectionInv (HistoryTab.updateToolbar h).
Proof.
  destruct (updateToolbar_keeps h) as (Hg & Hs & Hl & _).
  unfold selectionInv, HistoryTab.len. now rewrite Hg, Hs, Hl.
Qed.

Lemma game_Some h i g :
  HistoryTab.game h i = Some g ->
  0 <= i < HistoryTab.len h /\ g ∈ HistoryTab.games h.
Proof.
  unfold HistoryTab.game, HistoryTab.len.
  destruct (Z.ltb_spec i 0); [discriminate|]. intros Hl.
  split; [|now apply list_elem_of_lookup_2 in Hl].
  apply lookup_lt_Some in Hl. lia.
Qed.

Lemma game_in_range h i :
  0 <= i < HistoryTab.len h -> exists g, HistoryTab.game h i = Some g.
Proof.
  unfold HistoryTab.game, HistoryTab.len. intros Hi.
  destruct (Z.ltb_spec i 0); [lia|].
  apply lookup_lt_is_Some. lia.
Qed.

(** The loop of [selectRange] over indices of listed games. *)
Lemma rangeLoop_spec idx : forall h,
  (forall i, i ∈ idx -> 0 <= i < HistoryTab.len h) ->
  exists h',
    HistoryTab.rangeLoop idx h = Some h'
    /\ HistoryTab.games h' = HistoryTab.games h
    /\ HistoryTab.lastClickedIdx h' = HistoryTab.lastClickedIdx h
    /\ HistoryTab.hasButtons h' = HistoryTab.hasButtons h
    /\ forall id, id ∈ dom (HistoryTab.selected h')
         <-> id ∈ dom (HistoryTab.selected h)
             \/ exists i g, i ∈ idx /\ HistoryTab.game h i = Some g
                            /\ database.ID g = id.
Proof.
  induction idx as [|i idx IH]; intros h Hidx; simpl.
  - exists h. repeat split; try reflexivity.
    + now left.
    + intros [?|(i & g & Hi & _)]; [assumption|]. now apply elem_of_nil in Hi.
  - destruct (game_in_range h i) as [g Hg];
      [apply Hidx, elem_of_cons; now left|].
    unfold HistoryTab.selectAt. rewrite Hg.
    set (h1 := HistoryTab.select (database.ID g) h).
    destruct (IH h1) as (h' & Hrun & Hgames & Hlast & Hbtn & Hsel).
    { intros j Hj. apply (Hidx j), elem_of_cons. now right. }
    exists h'. split; [exact Hrun|]. split; [exact Hgames|].
    split; [exact Hlast|]. split; [exact Hbtn|].
    intros id. rewrite Hsel. unfold h1; simpl. rewrite dom_insert_L.
    unfold HistoryTab.game in *; simpl. split.
    + intros [Hin|(j & g' & Hj & Hg' & Hid)].
      * apply elem_of_union in Hin. destruct Hin as [Hin|Hin]; [|now left].
        apply elem_of_singleton in Hin. subst id. right. exists i, g.
        split; [apply elem_of_cons; now left|now split].
      * right. exists j, g'. split; [apply elem_of_cons; now right|now split].
    + intros [Hin|(j & g' & Hj & Hg' & Hid)].
      * left. apply elem_of_union. now right.
      * apply elem_of_cons in Hj. destruct Hj as [->|Hj].
        -- left. apply elem_of_union. left. apply elem_of_singleton.
           rewrite Hg in Hg'. injection Hg' as <-. now symmetry.
        -- right. exists j, g'. now repeat split.
Qed.

(** [selectRange] with a valid anchor and a row of the list widget. *)
Lemma selectRange_spec toIdx h :
  0 <= HistoryTab.lastClickedIdx h < HistoryTab.len h ->
  0 <= toIdx ->
  exists h',
    HistoryTab.selectRange toIdx h = Some h'
    /\ HistoryTab.games h' = HistoryTab.games h
    /\ HistoryTab.lastClickedIdx h' = HistoryTab.lastClickedIdx h
    /\ toolbarInv h'
    /\ forall id,
         id ∈ dom (HistoryTab.selected h')
         <-> id ∈ dom (HistoryTab.selected h)
             \/ idsBetween h (Z.min (HistoryTab.lastClickedIdx h) toIdx)
                  (Z.max (HistoryTab.lastClickedIdx h) toIdx) id.
Proof.
  intros Hlast Hto. unfold HistoryTab.selectRange.
  destruct (Z.ltb_spec (HistoryTab.lastClickedIdx h) 0); [lia|].
  destruct (Z.leb_spec (HistoryTab.len h) (HistoryTab.lastClickedIdx h));
    [lia|]. simpl.
  set (start := if toIdx <? HistoryTab.lastClickedIdx h then toIdx
                else HistoryTab.lastClickedIdx h).
  set (end_ := if toIdx <? HistoryTab.lastClickedIdx h
               then HistoryTab.lastClickedIdx h else toIdx).
  assert (Hs : start = Z.min (HistoryTab.lastClickedIdx h) toIdx)
    by (unfold start; destruct (Z.ltb_spec toIdx (HistoryTab.lastClickedIdx h)); lia).
  assert (He : end_ = Z.max (HistoryTab.lastClickedIdx h) toIdx)
    by (unfold end_; destruct (Z.ltb_spec toIdx (HistoryTab.lastClickedIdx h)); lia).
  destruct (rangeLoop_spec
              (seqZ start (Z.min end_ (HistoryTab.len h - 1) - start + 1)) h)
    as (h1 & Hrun & Hgames & Hl & Hbtn & Hsel).
  { intros i Hi. apply elem_of_seqZ in Hi. lia. }
  rewrite Hrun. exists (HistoryTab.updateToolbar h1).
  destruct (updateToolbar_keeps h1) as (Hg' & Hs' & Hl' & _).
  split; [reflexivity|]. split; [congruence|]. split; [congruence|].
  split; [apply toolbarInv_updateToolbar|].
  intros id. rewrite Hs', Hsel. unfold idsBetween. rewrite <- Hs, <- He.
  split; (intros [Hin|(i & g & Hi & Hg & Hid)]; [now left|right]);
    exists i, g; (split; [|now split]).
  - apply elem_of_seqZ in Hi. lia.
  - apply elem_of_seqZ. apply game_Some in Hg. lia.
Qed.

(** [selectRange] does not guard a negative row index the way
    [selectSingle] does. *)
Lemma selectRange_negative toIdx h :
  0 <= HistoryTab.lastClickedIdx h < HistoryTab.len h ->
  toIdx < 0 ->
  HistoryTab.selectRange toIdx h = None.
Proof.
  intros Hlast Hto. unfold HistoryTab.selectRange.
  destruct (Z.ltb_spec (HistoryTab.lastClickedIdx h) 0); [lia|].
  destruct (Z.leb_spec (HistoryTab.len h) (HistoryTab.lastClickedIdx h));
    [lia|]. simpl.
  destruct (Z.ltb_spec toIdx (HistoryTab.lastClickedIdx h)); [|lia].
  replace (Z.min (HistoryTab.lastClickedIdx h) (HistoryTab.len h - 1) - toIdx + 1)
    with (Z.succ (HistoryTab.lastClickedIdx h - toIdx)) by lia.
  rewrite seqZ_cons by lia. simpl.
  unfold HistoryTab.selectAt, HistoryTab.game.
  destruct (Z.ltb_spec toIdx 0); [reflexivity|lia].
Qed.

Lemma selectionInv_select h g :
  g ∈ HistoryTab.games h ->
  (forall id, id ∈ dom (HistoryTab.selected h) ->
     exists g, g ∈ HistoryTab.games h /\ database.ID g = id) ->
  forall id, id ∈ dom (<[database.ID g := true]> (HistoryTab.selected h)) ->
    exists g, g ∈ HistoryTab.games h /\ database.ID g = id.
Proof.
  intros Hg Hsel id Hin. rewrite dom_insert_L in Hin.
  apply elem_of_union in Hin. destruct Hin as [Hin|Hin]; [|now apply Hsel].
  apply elem_of_singleton in Hin. subst id. now exists g.
Qed.

Lemma inv_selectSingle idx h :
  selectionInv h ->
  selectionInv (HistoryTab.selectSingle idx h)
  /\ (toolbarInv h -> toolbarInv (HistoryTab.selectSingle idx h)).
Proof.
  intros Hinv. unfold HistoryTab.selectSingle.
  destruct (Z.ltb_spec idx 0); simpl; [now split|].
  destruct (Z.leb_spec (HistoryTab.len h) idx); simpl; [now split|].
  destruct (HistoryTab.game h idx) as [g|] eqn:Hg; [|now split].
  apply game_Some in Hg. destruct Hg as [Hi Hg].
  split; [|intros _; apply toolbarInv_updateToolbar].
  apply selectionInv_updateToolbar.
  destruct ((size (HistoryTab.selected h) =? 1)%nat
            && HistoryTab.isSelected h (database.ID g)); split; simpl.
  - intros id Hin. rewrite dom_empty_L in Hin. now apply elem_of_empty in Hin.
  - right. exact Hi.
  - intros id Hin. rewrite dom_insert_L, dom_empty_L in Hin.
    apply elem_of_union in Hin. destruct Hin as [Hin|Hin];
      [|now apply elem_of_empty in Hin].
    apply elem_of_singleton in Hin. subst id. now exists g.
  - right. exact Hi.
Qed.

Lemma inv_MouseIn rowIdx h :
  selectionInv h ->
  selectionInv (HistoryTab.MouseIn rowIdx h)
  /\ (toolbarInv h -> toolbarInv (HistoryTab.MouseIn rowIdx h)).
Proof.
  intros Hinv. unfold HistoryTab.MouseIn.
  destruct ((0 <=? rowIdx) && (rowIdx <? HistoryTab.len h)); [|now split].
  destruct (HistoryTab.game h rowIdx) as [g|] eqn:Hg; [|now split].
  apply game_Some in Hg. destruct Hg as [Hi Hg].
  split; [|intros _; apply toolbarInv_updateToolbar].
  apply selectionInv_updateToolbar. destruct Hinv as [Hsel Hlast].
  split; [|exact Hlast]. simpl. now apply selectionInv_select.
Qed.

Lemma selectAll_fold l : forall h,
  (forall g, g ∈ l -> g ∈ HistoryTab.games h) ->
  selectionInv h ->
  selectionInv
    (fold_left (fun h g => HistoryTab.select (database.ID g) h) l h)
  /\ HistoryTab.games
       (fold_left (fun h g => HistoryTab.select (database.ID g) h) l h)
     = HistoryTab.games h.
Proof.
  induction l as [|g l IH]; intros h Hl Hinv; simpl; [now split|].
  destruct (IH (HistoryTab.select (database.ID g) h)) as [H1 H2].
  - intros g' Hg'. simpl. apply Hl, elem_of_cons. now right.
  - destruct Hinv as [Hsel Hlast]. split; [|exact Hlast]. simpl.
    apply selectionInv_select; [|exact Hsel].
    apply Hl, elem_of_cons. now left.
  - split; [exact H1|]. now rewrite H2.
Qed.

Lemma inv_selectAll h :
  selectionInv h ->
  selectionInv (HistoryTab.selectAll h) /\ toolbarInv (HistoryTab.selectAll h).
Proof.
  intros Hinv. unfold HistoryTab.selectAll.
  split; [|apply toolbarInv_updateToolbar].
  apply selectionInv_updateToolbar.
  destruct (selectAll_fold (HistoryTab.games h) h) as [[Hsel Hlast] Hg];
    [tauto|exact Hinv|].
  set (h1 := fold_left _ _ _) in *.
  destruct (Z.ltb_spec 0 (HistoryTab.len h1)); [|now split].
  split; [exact Hsel|]. simpl. right.
  unfold HistoryTab.len in *. simpl. lia.
Qed.

Lemma inv_clearSelection h :
  selectionInv (HistoryTab.clearSelection h)
  /\ toolbarInv (HistoryTab.clearSelection h).
Proof.
  unfold HistoryTab.clearSelection.
  split; [|apply toolbarInv_updateToolbar].
  apply selectionInv_updateToolbar. split; simpl; [|now left].
  intros id Hin. rewrite dom_empty_L in Hin. now apply elem_of_empty in Hin.
Qed.

Lemma inv_refresh loaded h :
  selectionInv h -> toolbarInv h ->
  selectionInv (HistoryTab.refresh loaded h)
  /\ toolbarInv (HistoryTab.refresh loaded h).
Proof.
  intros Hs Ht. destruct loaded as [newGames|]; simpl; [|now split].
  split; [|apply toolbarInv_updateToolbar].
  apply selectionInv_updateToolbar. split; simpl; [|now left].
  intros id Hin. rewrite dom_empty_L in Hin. now apply elem_of_empty in Hin.
Qed.

Lemma inv_Tapped shiftHeld rowIdx h :
  0 <= rowIdx ->
  selectionInv h -> toolbarInv h ->
  exists h', HistoryTab.Tapped shiftHeld rowIdx h = Some h'
             /\ selectionInv h' /\ toolbarInv h'.
Proof.
  intros Hrow Hs Ht. unfold HistoryTab.Tapped.
  destruct (shiftHeld && (0 <=? HistoryTab.lastClickedIdx h)) eqn:Hc.
  - apply andb_true_iff in Hc. destruct Hc as [_ Hc].
    apply Z.leb_le in Hc.
    assert (Hlast : 0 <= HistoryTab.lastClickedIdx h < HistoryTab.len h)
      by (destruct Hs as [_ [?|?]]; lia).
    destruct (selectRange_spec rowIdx h Hlast Hrow)
      as (h' & Hrun & Hg & Hl & Htb & Hsel).
    exists h'. split; [exact Hrun|]. split; [|exact Htb].
    split.
    + intros id Hin. apply Hsel in Hin.
      destruct Hin as [Hin|(i & g & _ & Hgi & Hid)].
      * rewrite Hg. now apply (proj1 Hs).
      * exists g. rewrite Hg. apply game_Some in Hgi. now split.
    + right. rewrite Hl. unfold HistoryTab.len in *. now rewrite Hg.
  - exists (HistoryTab.selectSingle rowIdx h). split; [reflexivity|].
    destruct (inv_selectSingle rowIdx h Hs). tauto.
Qed.

Lemma inv_handle e h :
  HistoryTab.rowInList e = true ->
  selectionInv h -> toolbarInv h ->
  exists h', HistoryTab.handle e h = Some h'
             /\ selectionInv h' /\ toolbarInv h'.
Proof.
  intros Hrow Hs Ht. destruct e as [shiftHeld rowIdx|rowIdx| | |loaded]; simpl.
  - apply inv_Tapped; try assumption. simpl in Hrow. now apply Z.leb_le.
  - eexists. split; [reflexivity|].
    destruct (inv_MouseIn rowIdx h Hs). tauto.
  - eexists. split; [reflexivity|]. now apply inv_selectAll.
  - eexists. split; [reflexivity|]. apply inv_clearSelection.
  - eexists. split; [reflexivity|]. now apply inv_refresh.
Qed.

Lemma inv_handleAll es : forall h,
  forallb HistoryTab.rowInList es = true ->
  selectionInv h -> toolbarInv h ->
  exists h', HistoryTab.handleAll es h = Some h'
             /\ selectionInv h' /\ toolbarInv h'.
Proof.
  induction es as [|e es IH]; intros h Hrows Hs Ht; simpl.
  - now exists h.
  - simpl in Hrows. apply andb_true_iff in Hrows. destruct Hrows as [He Hes].
    destruct (inv_handle e h He Hs Ht) as (h1 & Hrun & Hs1 & Ht1).
    rewrite Hrun. now apply IH.
Qed.

Lemma inv_Container loaded :
  selectionInv (HistoryTab.Container (HistoryTab.NewHistoryTab loaded))
  /\ toolbarInv (HistoryTab.Container (HistoryTab.NewHistoryTab loaded)).
Proof.
  destruct loaded as [newGames|]; simpl.
  - split; [split; simpl; [|now left]|].
    + intros id Hin. rewrite dom_empty_L in Hin. now apply elem_of_empty in Hin.
    + intros _. simpl. split; [reflexivity|discriminate].
  - split; [split; simpl; [|now left]|].
    + intros id Hin. rewrite dom_empty_L in Hin. now apply elem_of_empty in Hin.
    + intros _. simpl. split; [reflexivity|discriminate].
Qed.

(** X28 (history.go, the selection of the history tab): whatever the
    user does in the tab, with row indices as the list widget gives
    them, no index is ever out of range, every selected id is the id of
    a listed game, the anchor of range selection is -1 or the index of
    a listed game, and the two batch buttons are shown exactly when
    more than one game is selected, "Delete Selected" then showing
    their number. *)
Theorem history_selection_stays_valid
    (loaded : option (list database.GameStats))
    (es : list HistoryTab.Event) :
  forallb HistoryTab.rowInList es = true ->
  exists h,
    HistoryTab.handleAll es
      (HistoryTab.Container (HistoryTab.NewHistoryTab loaded)) = Some h
    /\ selectionInv h /\ toolbarInv h.
Proof.
  intros Hrows. destruct (inv_Container loaded) as [Hs Ht].
  now apply inv_handleAll.
Qed.

(** X29 ([Tapped] with shift held, [selectRange]): with a listed game
    as anchor, a shift-click on a row of the list adds to the selection
    exactly the listed games between the anchor and that row, both
    included, and keeps the anchor and the list; nothing is deselected.
    A negative row index, which [selectSingle] guards against, is not
    guarded here: it indexes the list out of range. *)
Theorem shift_click_selects_the_range (toIdx : Z) (h : HistoryTab.HistoryTab) :
  0 <= HistoryTab.lastClickedIdx h < HistoryTab.len h ->
  (0 <= toIdx ->
   exists h',
     HistoryTab.Tapped true toIdx h = Some h'
     /\ HistoryTab.games h' = HistoryTab.games h
     /\ HistoryTab.lastClickedIdx h' = HistoryTab.lastClickedIdx h
     /\ forall id,
          id ∈ dom (HistoryTab.selected h')
          <-> id ∈ dom (HistoryTab.selected h)
              \/ idsBetween h (Z.min (HistoryTab.lastClickedIdx h) toIdx)
                   (Z.max (HistoryTab.lastClickedIdx h) toIdx) id)
  /\ (toIdx < 0 -> HistoryTab.Tapped true toIdx h = None).
Proof.
  intros Hlast. unfold HistoryTab.Tapped.
  destruct (Z.leb_spec 0 (HistoryTab.lastClickedIdx h)); [|lia]. simpl.
  split.
  - intros Hto.
    destruct (selectRange_spec toIdx h Hlast Hto)
      as (h' & Hrun & Hg & Hl & _ & Hsel).
    exists h'.
    split; [exact Hrun|]. split; [exact Hg|]. split; [exact Hl|exact Hsel].
  - intros Hto. now apply selectRange_negative.
Qed.

(** ** The aggregation of the statistics tab *)

Lemma collect_length m : forall order result,
  StatsTab.collect m order = Some result -> length result = length order.
Proof.
  induction order as [|k order IH]; intros result; simpl.
  - now intros [= <-].
  - destruct (m !! k); [|discriminate].
    destruct (StatsTab.collect m order); [|discriminate].
    intros [= <-]. simpl. now rewrite (IH _ eq_refl).
Qed.

Lemma collect_insert_notin m k v : forall order,
  k ∉ order ->
  StatsTab.collect (<[k := v]> m) order = StatsTab.collect m order.
Proof.
  induction order as [|k0 order IH]; intros Hnotin; simpl; [reflexivity|].
  apply not_elem_of_cons in Hnotin. destruct Hnotin as [Hne Hnotin].
  rewrite lookup_insert_ne by congruence. now rewrite IH.
Qed.

Lemma collect_insert_in m k a v : forall order result,
  NoDup order -> k ∈ order -> m !! k = Some a ->
  StatsTab.collect m order = Some result ->
  exists result',
    StatsTab.collect (<[k := v]> m) order = Some result'
    /\ database.sumZ (map StatsTab.Wins result')
       = database.sumZ (map StatsTab.Wins result)
         + StatsTab.Wins v - StatsTab.Wins a
    /\ database.sumZ (map StatsTab.Losses result')
       = database.sumZ (map StatsTab.Losses result)
         + StatsTab.Losses v - StatsTab.Losses a.
Proof.
  induction order as [|k0 order IH]; intros result Hnd Hin Ha; simpl.
  - now apply elem_of_nil in Hin.
  - apply NoDup_cons in Hnd. destruct Hnd as [Hk0 Hnd].
    destruct (m !! k0) as [a0|] eqn:Ha0; [|discriminate].
    destruct (StatsTab.collect m order) as [r|] eqn:Hr; [|discriminate].
    intros [= <-].
    destruct (decide (k = k0)) as [->|Hne].
    + rewrite lookup_insert_eq, (collect_insert_notin m k0 v order Hk0), Hr.
      exists (v :: r). split; [reflexivity|].
      rewrite Ha in Ha0. injection Ha0 as <-.
      unfold database.sumZ; simpl. lia.
    + apply elem_of_cons in Hin. destruct Hin as [?|Hin]; [congruence|].
      destruct (IH r Hnd Hin Ha eq_refl) as (r' & Hr' & HW & HL).
      rewrite lookup_insert_ne by congruence. rewrite Ha0, Hr'.
      exists (a0 :: r'). split; [reflexivity|].
      unfold database.sumZ in *; simpl. lia.
Qed.

Lemma collect_snoc m k a : forall order result,
  StatsTab.collect m order = Some result -> m !! k = Some a ->
  StatsTab.collect m (order ++ [k]) = Some (result ++ [a]).
Proof.
  induction order as [|k0 order IH]; intros result; simpl.
  - intros [= <-] Ha. now rewrite Ha.
  - destruct (m !! k0) as [a0|]; [|discriminate].
    destruct (StatsTab.collect m order) as [r|]; [|discriminate].
    intros [= <-] Ha. now rewrite (IH r eq_refl Ha).
Qed.

Lemma sumZ_app l l' :
  database.sumZ (l ++ l') = database.sumZ l + database.sumZ l'.
Proof.
  unfold database.sumZ. induction l as [|x l IH]; simpl; lia.
Qed.

Section AggregateFacts.

Variable key label : Z -> string.

Lemma addDay_spec m order result ds :
  aggregated m order result ->
  exists m' order' result',
    StatsTab.addDay key label (m, order) ds = Some (m', order')
    /\ aggregated m' order' result'
    /\ (forall k, k ∈ order' <-> k ∈ order \/ k = key (database.Date ds))
    /\ database.sumZ (map StatsTab.Wins result')
       = database.sumZ (map StatsTab.Wins result) + database.dWins ds
    /\ database.sumZ (map StatsTab.Losses result')
       = database.sumZ (map StatsTab.Losses result) + database.dLosses ds.
Proof.
  intros (Hnd & Hdom & Hres). unfold StatsTab.addDay. simpl.
  set (k := key (database.Date ds)).
  destruct (m !! k) as [a|] eqn:Ha.
  - rewrite Ha.
    assert (Hin : k ∈ order) by (apply Hdom; eauto).
    destruct (collect_insert_in m k a
                (StatsTab.mkAggregatedStats (StatsTab.Label a)
                   (StatsTab.Wins a + database.dWins ds)
                   (StatsTab.Losses a + database.dLosses ds))
                order result Hnd Hin Ha Hres) as (r' & Hr' & HW & HL).
    eexists _, order, r'. split; [reflexivity|].
    split; [|split; [|simpl in *; split; lia]].
    + split; [exact Hnd|]. split; [|exact Hr'].
      intros k'. rewrite Hdom. destruct (decide (k' = k)) as [->|Hne].
      * rewrite lookup_insert_eq, Ha. split; eauto.
      * now rewrite lookup_insert_ne by congruence.
    + intros k'. split; [now left|]. intros [?| ->]; assumption.
  - rewrite lookup_insert_eq, insert_insert_eq.
    assert (Hnotin : k ∉ order).
    { intros Hin. apply Hdom in Hin. rewrite Ha in Hin.
      now destruct Hin. }
    set (v := StatsTab.mkAggregatedStats (label (database.Date ds))
                (StatsTab.Wins
                   (StatsTab.mkAggregatedStats (label (database.Date ds)) 0 0)
                 + database.dWins ds)
                (StatsTab.Losses
                   (StatsTab.mkAggregatedStats (label (database.Date ds)) 0 0)
                 + database.dLosses ds)).
    eexists (<[k := v]> m), (order ++ [k]), (result ++ [v]).
    split; [reflexivity|].
    split; [|split].
    + split; [|split].
      * apply NoDup_app. split; [exact Hnd|]. split; [|apply NoDup_singleton].
        intros x Hx Hx'. apply list_elem_of_singleton in Hx'. now subst.
      * intros k'. rewrite elem_of_app, list_elem_of_singleton, Hdom.
        destruct (decide (k' = k)) as [->|Hne].
        -- rewrite lookup_insert_eq. split; eauto.
        -- rewrite lookup_insert_ne by congruence. split; [|tauto].
           intros [?|?]; [assumption|congruence].
      * apply collect_snoc; [|apply lookup_insert_eq].
        now rewrite collect_insert_notin.
    + intros k'. now rewrite elem_of_app, list_elem_of_singleton.
    + rewrite !map_app, !sumZ_app. unfold database.sumZ; simpl. lia.
Qed.

Lemma addDays_spec dailyStats : forall m order result,
  aggregated m order result ->
  exists m' order' result',
    StatsTab.addDays key label dailyStats (m, order) = Some (m', order')
    /\ aggregated m' order' result'
    /\ (forall k, k ∈ order'
          <-> k ∈ order \/ k ∈ map (fun ds => key (database.Date ds)) dailyStats)
    /\ database.sumZ (map StatsTab.Wins result')
       = database.sumZ (map StatsTab.Wins result)
         + database.sumZ (map database.dWins dailyStats)
    /\ database.sumZ (map StatsTab.Losses result')
       = database.sumZ (map StatsTab.Losses result)
         + database.sumZ (map database.dLosses dailyStats).
Proof.
  induction dailyStats as [|ds dailyStats IH]; intros m order result Hagg.
  - exists m, order, result. simpl. split; [reflexivity|].
    split; [exact Hagg|]. split; [|unfold database.sumZ; simpl; lia].
    intros k. split; [now left|]. intros [?|Hin]; [assumption|].
    now apply elem_of_nil in Hin.
  - destruct (addDay_spec m order result ds Hagg)
      as (m1 & order1 & r1 & Hstep & Hagg1 & Hk1 & HW1 & HL1).
    destruct (IH m1 order1 r1 Hagg1)
      as (m' & order' & r' & Hrun & Hagg' & Hk' & HW' & HL').
    exists m', order', r'. simpl. rewrite Hstep.
    split; [exact Hrun|]. split; [exact Hagg'|].
    split; [|unfold database.sumZ in *; simpl; lia].
    intros k. rewrite Hk', Hk1, elem_of_cons. tauto.
Qed.

Lemma aggregateWith_spec dailyStats :
  exists result,
    StatsTab.aggregateWith key label dailyStats = Some result
    /\ database.sumZ (map StatsTab.Wins result)
       = database.sumZ (map database.dWins dailyStats)
    /\ database.sumZ (map StatsTab.Losses result)
       = database.sumZ (map database.dLosses dailyStats)
    /\ length result
       = size (list_to_set (map (fun ds => key (database.Date ds)) dailyStats)
                 : gset string).
Proof.
  destruct (addDays_spec dailyStats ∅ [] [])
    as (m & order & result & Hrun & (Hnd & Hdom & Hres) & Hk & HW & HL).
  { split; [apply NoDup_nil_2|]. split; [|reflexivity].
    intros k. rewrite lookup_empty. split.
    - intros Hin. now apply elem_of_nil in Hin.
    - intros [? ?]; discriminate. }
  exists result. unfold StatsTab.aggregateWith. rewrite Hrun.
  split; [exact Hres|].
  split; [unfold database.sumZ in *; simpl in *; lia|].
  split; [unfold database.sumZ in *; simpl in *; lia|].
  rewrite (collect_length m order result Hres).
  rewrite <- (size_list_to_set (C := gset string) order Hnd).
  f_equal. apply set_eq. intros k. rewrite !elem_of_list_to_set, Hk.
  split; [|tauto]. intros [Hin|?]; [|assumption]. now apply elem_of_nil in Hin.
Qed.

End AggregateFacts.

(** X30 ([aggregateStats] and the four aggregations): whatever the
    interval, the aggregation runs without dereferencing a missing
    entry, its wins and losses add up to those of the days it was
    given, and it has no more entries than days; by week, month or year
    it has exactly one entry per distinct key. *)
Theorem aggregation_keeps_totals
    (dayLabel weekKey weekLabel monthKey monthLabel yearKey : Z -> string)
    (aggregation : StatsTab.AggregationInterval)
    (dailyStats : list database.DailyStats) :
  exists result,
    StatsTab.aggregateStats dayLabel weekKey weekLabel monthKey monthLabel
      yearKey aggregation dailyStats = Some result
    /\ database.sumZ (map StatsTab.Wins result)
       = database.sumZ (map database.dWins dailyStats)
    /\ database.sumZ (map StatsTab.Losses result)
       = database.sumZ (map database.dLosses dailyStats)
    /\ (length result <= length dailyStats)%nat
    /\ forall key,
         StatsTab.keyOf weekKey monthKey yearKey aggregation = Some key ->
         length result
         = size (list_to_set (map (fun ds => key (database.Date ds)) dailyStats)
                   : gset string).
Proof.
  unfold StatsTab.aggregateStats.
  destruct dailyStats as [|ds0 rest] eqn:Hd; simpl Nat.eqb; cbv iota.
  - exists []. repeat split; reflexivity.
  - rewrite <- Hd. clear Hd.
    assert (Hgen : forall key label,
              exists result,
                StatsTab.aggregateWith key label dailyStats = Some result
                /\ database.sumZ (map StatsTab.Wins result)
                   = database.sumZ (map database.dWins dailyStats)
                /\ database.sumZ (map StatsTab.Losses result)
                   = database.sumZ (map database.dLosses dailyStats)
                /\ (length result <= length dailyStats)%nat
                /\ length result
                   = size (list_to_set
                             (map (fun ds => key (database.Date ds)) dailyStats)
                           : gset string)).
    { intros key label.
      destruct (aggregateWith_spec key label dailyStats)
        as (result & Hrun & HW & HL & Hlen).
      exists result. repeat split; try assumption.
      rewrite Hlen.
      etransitivity; [apply size_list_to_set_le|].
      now rewrite length_map. }
    destruct aggregation; simpl.
    + exists (StatsTab.aggregateByDay dayLabel dailyStats).
      unfold StatsTab.aggregateByDay.
      split; [reflexivity|]. rewrite !map_map, length_map. simpl.
      repeat split; try reflexivity. intros key [=].
    + destruct (Hgen weekKey weekLabel) as (r & ? & ? & ? & ? & ?).
      exists r. repeat split; try assumption. now intros key [= <-].
    + destruct (Hgen monthKey monthLabel) as (r & ? & ? & ? & ? & ?).
      exists r. repeat split; try assumption. now intros key [= <-].
    + destruct (Hgen yearKey yearKey) as (r & ? & ? & ? & ? & ?).
      exists r. repeat split; try assumption. now intros key [= <-].
Qed.

Lemma matchesCombo_order_and_case_witness :
  matchesCombo strings.ToLower chordHeld ["LeftControl"; "C"; "LeftShift"]
  = matchesCombo strings.ToLower chordHeld ["leftshift"; "c"; "LEFTCONTROL"].
Proof.
  apply (matchesCombo_order_and_case strings.ToLower chordHeld).
  vm_compute.
  apply perm_trans with ["c"; "leftcontrol"; "leftshift"]; [apply perm_swap|].
  apply perm_trans with ["c"; "leftshift"; "leftcontrol"];
    [apply perm_skip, perm_swap | apply perm_swap].
Defined.

Lemma exact_hold_matches_witness :
  matchesCombo strings.ToLower chordHeld ["LeftShift"; "LeftControl"; "C"]
  = true.
Proof.
  apply (exact_hold_matches strings.ToLower chordHeld).
  - compute_done.
  - compute_done.
Defined.

Lemma shadowed_binding_never_fires_witness :
  matched (snd (handleKeyDown strings.ToLower 1 1 "c"
                  (fst (run strings.ToLower [OpKeyDown "LeftControl" 0 0]
                          (NewHandler shadowedBindings)))))
  <> Some ActionSelectT.
Proof.
  apply (shadowed_binding_never_fires strings.ToLower _ "c" 1 1 ActionSelectCT).
  - discriminate.
  - simpl. lia.
  - vm_compute. apply perm_swap.
Defined.

Lemma matching_combo_fires_witness :
  handleKeyDown strings.ToLower (ms 5) (ms 6) "NumpadEnter" numpad0Held
  = (enqueue ActionReset (stamp (ms 6) (press "NumpadEnter" numpad0Held)),
     Sent ActionReset)
  /\ actionChan
       (fst (handleKeyDown strings.ToLower (ms 5) (ms 6) "NumpadEnter"
               numpad0Held))
     = [ActionReset].
Proof.
  destruct (matching_combo_fires strings.ToLower numpad0Held "NumpadEnter"
              (ms 5) (ms 6) ActionReset) as (Heq & Hq & _).
  - reflexivity.
  - vm_compute. discriminate.
  - vm_compute. lia.
  - discriminate.
  - reflexivity.
  - intros a' Hne Hr. destruct a'; simpl in Hr; try lia; try congruence;
      reflexivity.
  - split; [exact Heq | exact Hq].
Defined.

Lemma unmapped_events_are_invisible_witness :
  onEvent strings.ToLower keymap_linux.mapKeyToName 0 0
    (hook.mkEvent hook.KeyDown 0 0) numpad0Held
  = (numpad0Held, None)
  /\ onEvent strings.ToLower keymap_windows.mapKeyToName 0 0
       (hook.mkEvent hook.KeyDown 0 0) numpad0Held
     = (numpad0Held, None).
Proof.
  destruct (unmapped_events_are_invisible strings.ToLower 0 0
              (hook.mkEvent hook.KeyDown 0 0) numpad0Held eq_refl)
    as (Hl & Hw & _).
  split; [apply Hl | apply Hw]; reflexivity.
Defined.

Lemma held_keys_are_delivered_names_witness :
  "Numpad0" <> ""
  /\ exists ev, ev ∈ map fst twoLinuxEvents
                /\ hook.Kind ev = hook.KeyDown
                /\ keymap_linux.mapKeyToName ev = "Numpad0".
Proof.
  apply (held_keys_are_delivered_names strings.ToLower
           keymap_linux.mapKeyToName linuxDefaultHotkeys twoLinuxEvents).
  compute_done.
Defined.

Lemma captured_binding_rejects_supersets_witness :
  capturedCombo (dialogRun ctrlCTwice newCapture) = ["LeftControl"; "C"]
  /\ matchesCombo strings.ToLower chordHeldLower
       (capturedCombo (dialogRun ctrlCTwice newCapture)) = false.
Proof.
  split; [reflexivity|].
  apply (captured_binding_rejects_supersets strings.ToLower ctrlCTwice
           chordHeldLower).
  - intros name name' Hn Hn'.
    repeat (apply elem_of_cons in Hn; destruct Hn as [->|Hn]);
      try (now apply elem_of_nil in Hn);
      repeat (apply elem_of_cons in Hn'; destruct Hn' as [->|Hn']);
      try (now apply elem_of_nil in Hn'); intros Heq;
      first [reflexivity | discriminate Heq].
  - intros key Hkey. apply elem_of_cons in Hkey. destruct Hkey as [->|Hkey].
    + exists "LeftControl". split; compute_done.
    + apply elem_of_cons in Hkey. destruct Hkey as [->|Hkey];
        [|now apply elem_of_nil in Hkey].
      exists "c". split; compute_done.
  - exists "LeftShift". split; [compute_done|].
    apply Forall_forall. compute_done.
Defined.

Lemma Load_leaves_nothing_unset_witness :
  config.Hotkeys_ Z
    (config.fillMissing Z 100 (Z.eqb 0) config.defaultHotkeys_linux zeroConfig)
  = config.defaultHotkeys_linux
  /\ allBound
       (config.Hotkeys_ Z
          (config.fillMissing Z 100 (Z.eqb 0) config.defaultHotkeys_linux
             zeroConfig)).
Proof.
  split; [reflexivity|].
  apply (Load_leaves_nothing_unset Z 100 (Z.eqb 0) config.defaultHotkeys_linux
           unmarshalEmptyObject (config.ReadData "{}")).
  - repeat split; discriminate.
  - reflexivity.
Defined.

Lemma Load_keeps_what_is_set_witness :
  config.Load Z 100 (Z.eqb 0) config.defaultHotkeys_linux unmarshalFull
    (config.ReadData "full")
  = config.Loaded Z fullConfig.
Proof.
  apply (Load_keeps_what_is_set Z 100 (Z.eqb 0) config.defaultHotkeys_linux
           unmarshalFull "full" fullConfig).
  - reflexivity.
  - repeat split; discriminate.
  - reflexivity.
  - discriminate.
  - discriminate.
Defined.

Lemma default_hotkeys_are_exclusive_witness :
  matchesCombo strings.ToLower
    (fst (run strings.ToLower
            [OpKeyDown "Numpad1" 0 0; OpKeyDown "NumpadAdd" 1 1]
            (NewHandler linuxDefaultHotkeys)))
    ["Numpad2"; "NumpadAdd"]
  = false.
Proof.
  apply (default_hotkeys_are_exclusive
           (fst (run strings.ToLower
                   [OpKeyDown "Numpad1" 0 0; OpKeyDown "NumpadAdd" 1 1]
                   (NewHandler linuxDefaultHotkeys)))
           ActionIncrementCT ActionIncrementT).
  - left. reflexivity.
  - discriminate.
  - discriminate.
  - discriminate.
  - reflexivity.
Defined.

Lemma invalid_entry_freezes_the_game_witness :
  tracker.games (tracker.inputs strconv.Atoi shortGame (tracker.New 8 "abc"))
  = []
  /\ tracker.ctWins (tracker.inputs strconv.Atoi shortGame (tracker.New 8 "abc"))
     + tracker.tWins (tracker.inputs strconv.Atoi shortGame (tracker.New 8 "abc"))
     <= 0 + 0.
Proof.
  apply (invalid_entry_freezes_the_game strconv.Atoi "abc" shortGame
           (tracker.New 8 "abc")); try reflexivity; simpl; lia.
Defined.

Lemma config_game_score_stays_positive_witness :
  tracker.configGameScore
    (tracker.inputs strconv.Atoi twoEdits (tracker.New 8 "8")) = 16
  /\ 0 < tracker.configGameScore
           (tracker.inputs strconv.Atoi twoEdits (tracker.New 8 "8")).
Proof.
  split; [reflexivity|].
  destruct (config_game_score_stays_positive strconv.Atoi 8 "8" twoEdits)
    as [Hpos _]; [lia | exact Hpos].
Defined.

Lemma reaching_the_score_saves_the_game_witness :
  tracker.games (tracker.IncrementCT strconv.Atoi true matchPoint)
  = [database.mkGame 2 0 2 database.TeamCT]
  /\ tracker.ctWins (tracker.IncrementCT strconv.Atoi false matchPoint) = 2.
Proof.
  destruct (reaching_the_score_saves_the_game strconv.Atoi matchPoint 2)
    as [(_ & _ & Hsaved & _) (Hkept & _)]; try reflexivity.
  split; [exact Hsaved | exact Hkept].
Defined.

Lemma daily_stats_add_up_witness :
  exists sorted,
    database.sortByDate laterDayFirst = Some sorted
    /\ database.ascending sorted
    /\ length sorted = size (list_to_set (map fst twoDays) : gset string)
    /\ database.sumZ (map database.dWins sorted)
       = database.Wins Z
           (database.GetStats Z 0 (fun a b => 100 * a / b) (map snd twoDays))
    /\ database.sumZ (map database.dLosses sorted)
       = database.Losses Z
           (database.GetStats Z 0 (fun a b => 100 * a / b) (map snd twoDays))
    /\ database.sumZ (map database.dDraws sorted)
       = database.Draws Z
           (database.GetStats Z 0 (fun a b => 100 * a / b) (map snd twoDays)).
Proof.
  apply (daily_stats_add_up Z 0 (fun a b => 100 * a / b) parseTwoDays).
  unfold database.rangesOver. vm_compute.
  first [reflexivity | apply perm_swap].
Defined.

Lemma history_selection_stays_valid_witness :
  exists h,
    HistoryTab.handleAll someClicks
      (HistoryTab.Container (HistoryTab.NewHistoryTab (Some threeGames)))
    = Some h
    /\ selectionInv h /\ toolbarInv h.
Proof.
  apply (history_selection_stays_valid (Some threeGames) someClicks).
  reflexivity.
Defined.

Lemma shift_click_selects_the_range_witness :
  (0 <= HistoryTab.lastClickedIdx firstClicked < HistoryTab.len firstClicked)
  /\ (0 <= 2 ->
      exists h',
        HistoryTab.Tapped true 2 firstClicked = Some h'
        /\ HistoryTab.games h' = HistoryTab.games firstClicked
        /\ HistoryTab.lastClickedIdx h' = HistoryTab.lastClickedIdx firstClicked
        /\ forall id,
             id ∈ dom (HistoryTab.selected h')
             <-> id ∈ dom (HistoryTab.selected firstClicked)
                 \/ idsBetween firstClicked
                      (Z.min (HistoryTab.lastClickedIdx firstClicked) 2)
                      (Z.max (HistoryTab.lastClickedIdx firstClicked) 2) id).
Proof.
  assert (H : 0 <= HistoryTab.lastClickedIdx firstClicked
              < HistoryTab.len firstClicked) by (vm_compute; split; [intro; discriminate|reflexivity]).
  split; [exact H|].
  exact (proj1 (shift_click_selects_the_range 2 firstClicked H)).
Defined.
